(** * MoodRingMarkets: from a model's answer to a sentiment record

    A shallow embedding of the ingestion pipeline of
    [scripts/market_sentiment_csv.js] and of its second copy in
    [unnamed/part_000]: [cleanJsonString], [tryRepairs], [normalizeLabel],
    [normalizeTickerKey], [parseScore], [coerceSentimentShape] and the retry
    loop [scoreMarket], together with the parts of the host language they
    rest on: strings of UTF-16 code units, IEEE-754 binary64 numbers,
    [Number] and [String] conversions, [JSON.parse], [Object.entries].

    The CSV side of the first script is embedded too: [parseLine],
    [parseCSV], [csvRow] and the loop of [main] over the rows, with
    [JSON.stringify] of the tickers; and, of the page script in
    [unnamed/part_000], [getSentimentLabel].  The file system, the walk
    over a directory of the second scorer and the logging are outside this
    development.

    The file has two halves: first every definition, then the lemmas. *)

From Stdlib Require Import List ZArith NArith Bool String Ascii Lia.
From Stdlib Require Import Floats.SpecFloat.
Import ListNotations.

(* ================================================================= *)
(** * Part I. Host language: strings *)

(** A JavaScript string is a sequence of 16-bit code units. *)
Definition codeunit := N.
Definition jsstring := list codeunit.

(** ASCII literals. *)
Definition lit (s : string) : jsstring :=
  map N_of_ascii (list_ascii_of_string s).

Fixpoint str_eqb (a b : jsstring) : bool :=
  match a, b with
  | [], [] => true
  | x :: a', y :: b' => N.eqb x y && str_eqb a' b'
  | _, _ => false
  end.

Section CodeUnits.
Local Open Scope N_scope.

Definition QUOTE : codeunit := 34.       (* double quote *)
Definition APOS : codeunit := 39.        (* single quote *)
Definition PERCENT : codeunit := 37.
Definition COMMA : codeunit := 44.
Definition BACKTICK : codeunit := 96.
Definition LBRACE : codeunit := 123.
Definition RBRACE : codeunit := 125.
Definition LBRACKET : codeunit := 91.
Definition RBRACKET : codeunit := 93.
Definition UNDERSCORE : codeunit := 95.

(** WhiteSpace and LineTerminator of ECMAScript: what [trim] strips and
    what [\s] matches. *)
Definition isWhiteSpace (c : codeunit) : bool :=
  ((9 <=? c) && (c <=? 13)) || (c =? 32) || (c =? 160) || (c =? 5760)
  || ((8192 <=? c) && (c <=? 8202)) || (c =? 8232) || (c =? 8233)
  || (c =? 8239) || (c =? 8287) || (c =? 12288) || (c =? 65279).

Definition isDigit (c : codeunit) : bool := (48 <=? c) && (c <=? 57).
Definition isUpper (c : codeunit) : bool := (65 <=? c) && (c <=? 90).
Definition isLower (c : codeunit) : bool := (97 <=? c) && (c <=? 122).

(** [/[A-Z0-9]/] *)
Definition isUpperAlnum (c : codeunit) : bool := isUpper c || isDigit c.

(** [String.prototype.toLowerCase], one code unit at a time.  Besides A-Z
    the only code point whose lower case is an ASCII letter is the Kelvin
    sign U+212A; every other code point lower-cases to text that contains
    a code unit outside ASCII and is kept as it is here. *)
Definition lowerUnit (c : codeunit) : codeunit :=
  if isUpper c then c + 32 else if c =? 8490 then 107 else c.

(** [String.prototype.toUpperCase].  The code points outside ASCII whose
    upper case is made of ASCII letters only are dotless i, long s, sharp s
    and the ligatures U+FB00..U+FB06; every other code point upper-cases to
    text that contains a code unit outside ASCII and is kept as it is. *)
Definition upperUnit (c : codeunit) : jsstring :=
  if isLower c then [c - 32]
  else if c =? 305 then [73]
  else if c =? 383 then [83]
  else if c =? 223 then [83; 83]
  else if c =? 64256 then [70; 70]
  else if c =? 64257 then [70; 73]
  else if c =? 64258 then [70; 76]
  else if c =? 64259 then [70; 70; 73]
  else if c =? 64260 then [70; 70; 76]
  else if c =? 64261 then [83; 84]
  else if c =? 64262 then [83; 84]
  else [c].
End CodeUnits.

Definition toLowerCase (s : jsstring) : jsstring := map lowerUnit s.
Definition toUpperCase (s : jsstring) : jsstring := flat_map upperUnit s.

Fixpoint dropWhile (p : codeunit -> bool) (s : jsstring) : jsstring :=
  match s with
  | [] => []
  | c :: r => if p c then dropWhile p r else s
  end.

Fixpoint span (p : codeunit -> bool) (s : jsstring) : jsstring * jsstring :=
  match s with
  | [] => ([], [])
  | c :: r =>
      if p c then let (a, b) := span p r in (c :: a, b) else ([], s)
  end.

Definition trimStart (s : jsstring) : jsstring := dropWhile isWhiteSpace s.
Definition trimEnd (s : jsstring) : jsstring :=
  rev (dropWhile isWhiteSpace (rev s)).

(** [String.prototype.trim] *)
Definition trim (s : jsstring) : jsstring := trimStart (trimEnd s).

Fixpoint startsWith (p s : jsstring) : bool :=
  match p, s with
  | [], _ => true
  | x :: p', y :: s' => N.eqb x y && startsWith p' s'
  | _ :: _, [] => false
  end.

Definition endsWith (p s : jsstring) : bool := startsWith (rev p) (rev s).

(** [String.prototype.includes] *)
Fixpoint includes (p s : jsstring) : bool :=
  startsWith p s || match s with [] => false | _ :: r => includes p r end.

(** [startsWith] without regard to ASCII case, as the [i] flag of a regular
    expression compares ASCII letters. *)
Fixpoint startsWithCI (p s : jsstring) : bool :=
  match p, s with
  | [], _ => true
  | x :: p', y :: s' =>
      N.eqb (lowerUnit x) (if N.ltb y 128 then lowerUnit y else y)
      && startsWithCI p' s'
  | _ :: _, [] => false
  end.

(* ================================================================= *)
(** * Part II. Host language: numbers *)

(** A JavaScript number is an IEEE-754 binary64 value; [spec_float] is the
    standard library's specification of them (sign, mantissa, exponent). *)
Definition number := spec_float.

Local Open Scope Z_scope.

Definition prec : Z := 53.
Definition emax : Z := 1024.

Definition NaN : number := S754_nan.
Definition Infinity (neg : bool) : number := S754_infinity neg.

(** [Number.isNaN] *)
Definition isNaN (x : number) : bool :=
  match x with S754_nan => true | _ => false end.

Definition num_lt (x y : number) : bool := SFltb x y.   (* x < y *)
Definition num_le (x y : number) : bool := SFleb x y.   (* x <= y *)
Definition num_gt (x y : number) : bool := SFltb y x.   (* x > y *)
Definition num_ge (x y : number) : bool := SFleb y x.   (* x >= y *)
Definition num_eq (x y : number) : bool := SFeqb x y.   (* x === y *)
Definition num_div (x y : number) : number := SFdiv prec emax x y.
Definition num_mul (x y : number) : number := SFmul prec emax x y.

(** [Math.min] and [Math.max]: NaN if either argument is, and -0 below +0. *)
Definition Math_min (x y : number) : number :=
  match SFcompare x y with
  | None => NaN
  | Some Lt => x
  | Some Gt => y
  | Some Eq => match y with S754_zero true => y | _ => x end
  end.

Definition Math_max (x y : number) : number :=
  match SFcompare x y with
  | None => NaN
  | Some Gt => x
  | Some Lt => y
  | Some Eq => match y with S754_zero false => y | _ => x end
  end.

(** The number nearest to [m * 10^e] (ties to even), with the sign [neg]:
    the rounding of a decimal literal.  The quotient by a power of ten is
    taken with enough extra bits, and its remainder says on which side of
    the half-way point the exact value lies. *)
Definition decimalToNumber (neg : bool) (m e : Z) : number :=
  match m with
  | Z0 => S754_zero neg
  | Zneg _ => NaN
  | Zpos _ =>
      match e with
      | Zneg k =>
          let d := Z.pow 10 (Zpos k) in
          let s := Z.max 0 (prec + 2 + Zdigits2 d - Zdigits2 m) in
          let '(q, r) := Z.div_eucl (Z.shiftl m s) d in
          binary_round_aux prec emax neg q (- s) (new_location d r)
      | _ => binary_round prec emax neg (Z.to_pos (m * Z.pow 10 e)) 0
      end
  end.

(** An integer as a number. *)
Definition ofZ (z : Z) : number := binary_normalize prec emax z 0 false.

(** The numeric literals of the source. *)
Definition num_0 : number := S754_zero false.
Definition num_1 : number := Eval vm_compute in ofZ 1.
Definition num_m1 : number := Eval vm_compute in ofZ (-1).
Definition num_100 : number := Eval vm_compute in ofZ 100.
Definition num_m100 : number := Eval vm_compute in ofZ (-100).
Definition num_1000 : number := Eval vm_compute in ofZ 1000.
Definition num_2000 : number := Eval vm_compute in ofZ 2000.
Definition num_429 : number := Eval vm_compute in ofZ 429.
Definition num_0_2 : number := Eval vm_compute in decimalToNumber false 2 (-1).
Definition num_0_6 : number := Eval vm_compute in decimalToNumber false 6 (-1).
Definition num_m0_2 : number := Eval vm_compute in decimalToNumber true 2 (-1).
Definition num_m0_6 : number := Eval vm_compute in decimalToNumber true 6 (-1).

(** ** [Number(s)] on a string (StringToNumber) *)

Definition digitVal (c : codeunit) : Z := Z.of_N c - 48.

(** Value of a hexadecimal digit, if it is one. *)
Definition hexVal (c : codeunit) : option Z :=
  if isDigit c then Some (Z.of_N c - 48)
  else if ((65 <=? c) && (c <=? 70))%N then Some (Z.of_N c - 55)
  else if ((97 <=? c) && (c <=? 102))%N then Some (Z.of_N c - 87)
  else None.

Definition digitsValue (ds : jsstring) : Z :=
  fold_left (fun acc d => acc * 10 + digitVal d)%Z ds 0%Z.

(** Digits in base [b] up to the end of the string; at least one. *)
Fixpoint radixValue (b : Z) (acc : Z) (s : jsstring) : option Z :=
  match s with
  | [] => Some acc
  | c :: r =>
      match hexVal c with
      | Some v => if (v <? b)%Z then radixValue b (acc * b + v)%Z r else None
      | None => None
      end
  end.

Definition radixLiteral (b : Z) (s : jsstring) : number :=
  match s with
  | [] => NaN
  | _ => match radixValue b 0 s with Some v => ofZ v | None => NaN end
  end.

(** [digits = int ++ frac], scaled by ten to the [exp - |frac|]. *)
Definition decimalValue (neg : bool) (int frac : jsstring) (exp : Z) : number :=
  decimalToNumber neg (digitsValue (int ++ frac)) (exp - Z.of_nat (List.length frac)).

(** ExponentPart at the end of a string: nothing, or [e], an optional sign and
    at least one digit, and then the end. *)
Definition exponentAtEnd (s : jsstring) : option Z :=
  match s with
  | [] => Some 0%Z
  | c :: r =>
      if ((c =? 101) || (c =? 69))%N then
        let '(neg, ds) :=
          match r with
          | 43%N :: r' => (false, r')
          | 45%N :: r' => (true, r')
          | _ => (false, r)
          end in
        match span isDigit ds with
        | (d0 :: d, []) =>
            let v := digitsValue (d0 :: d) in Some (if neg then - v else v)
        | _ => None
        end
      else None
  end.

(** StrUnsignedDecimalLiteral: [Infinity], or digits with an optional
    fraction, or a fraction alone, then an optional exponent. *)
Definition unsignedDecimal (neg : bool) (s : jsstring) : number :=
  if str_eqb s (lit "Infinity") then Infinity neg
  else
    let (int, s1) := span isDigit s in
    let '(frac, dot, s2) :=
      match s1 with
      | 46%N :: r => let (f, s2) := span isDigit r in (f, true, s2)
      | _ => ([], false, s1)
      end in
    match int, frac with
    | [], [] => NaN
    | _, _ =>
        match exponentAtEnd s2 with
        | Some e => decimalValue neg int frac e
        | None => NaN
        end
    end.

Definition StringToNumber (s : jsstring) : number :=
  match trim s with
  | [] => num_0
  | 48%N :: (120%N | 88%N) :: r => radixLiteral 16 r
  | 48%N :: (111%N | 79%N) :: r => radixLiteral 8 r
  | 48%N :: (98%N | 66%N) :: r => radixLiteral 2 r
  | 43%N :: r => unsignedDecimal false r
  | 45%N :: r => unsignedDecimal true r
  | t => unsignedDecimal false t
  end.

(** ** [String(x)] on a number (Number::toString, radix 10) *)

Fixpoint digitsAcc (fuel : nat) (z : Z) (acc : jsstring) : jsstring :=
  match fuel with
  | O => acc
  | S f =>
      let acc' := Z.to_N (48 + z mod 10) :: acc in
      if z <? 10 then acc' else digitsAcc f (z / 10) acc'
  end.

(** The decimal digits of a natural number. *)
Definition decimalDigits (z : Z) : jsstring :=
  digitsAcc (S (Z.to_nat (Z.log2 z))) z [].

(** The least [p >= 0] with [a * 10^p >= b], searching up to [fuel]. *)
Fixpoint scaleUp (fuel : nat) (a b : Z) (p : Z) : Z :=
  match fuel with
  | O => p
  | S f => if b <=? a then p else scaleUp f (a * 10) b (p + 1)
  end.

(** For a positive rational [num/den], the [n] with
    [10^(n-1) <= num/den < 10^n]. *)
Definition decimalExponent (num den : Z) : Z :=
  if den <=? num
  then
    let p := scaleUp 400 den (num + 1) 0 in   (* least p, den*10^p > num *)
    p
  else 1 - scaleUp 400 num den 0.

(** [num/den * 10^j] as a fraction. *)
Definition scaled (num den j : Z) : Z * Z :=
  if 0 <=? j then (num * 10 ^ j, den) else (num, den * 10 ^ (- j)).

(** The shortest digits [s] (with [k] digits, for the exponent [n]) such that
    [s * 10^(n-k)] rounds to [x = num/den]; of two candidates the one closest
    to [x], the even one on a tie. *)
Fixpoint shortest (fuel : nat) (x : number) (num den n0 k : Z) : Z * Z * Z :=
  let '(a, b) := scaled num den (k - n0) in
  let lo := a / b in
  let hi := lo + 1 in
  let '(hi', nhi) := if hi <? 10 ^ k then (hi, n0) else (10 ^ (k - 1), n0 + 1) in
  let okLo := SFeqb (decimalToNumber false lo (n0 - k)) x in
  let okHi := SFeqb (decimalToNumber false hi' (nhi - k)) x in
  let pickLo :=
    match 2 * a ?= (2 * lo + 1) * b with
    | Lt => true
    | Gt => false
    | Eq => Z.even lo
    end in
  match fuel with
  | O => (lo, n0, k)
  | S f =>
      if okLo && (negb okHi || pickLo) then (lo, n0, k)
      else if okHi then (hi', nhi, k)
      else shortest f x num den n0 (k + 1)
  end.

Definition zeros (n : Z) : jsstring := repeat 48%N (Z.to_nat n).

Definition formatDigits (ds : jsstring) (n k : Z) : jsstring :=
  if (k <=? n) && (n <=? 21) then ds ++ zeros (n - k)
  else if (0 <? n) && (n <=? 21) then
    firstn (Z.to_nat n) ds ++ [46%N] ++ skipn (Z.to_nat n) ds
  else if (-6 <? n) && (n <=? 0) then
    [48%N; 46%N] ++ zeros (- n) ++ ds
  else
    let e := n - 1 in
    let tail := [101%N; if e <? 0 then 45%N else 43%N]
                ++ decimalDigits (Z.abs e) in
    match ds with
    | [d] => d :: tail
    | d :: r => d :: 46%N :: r ++ tail
    | [] => tail
    end.

Definition NumberToString (x : number) : jsstring :=
  match x with
  | S754_nan => lit "NaN"
  | S754_zero _ => lit "0"
  | S754_infinity neg => if neg then lit "-Infinity" else lit "Infinity"
  | S754_finite neg m e =>
      let '(num, den) :=
        if 0 <=? e then (Zpos m * 2 ^ e, 1) else (Zpos m, 2 ^ (- e)) in
      let n0 := decimalExponent num den in
      let '(s, n, k) :=
        shortest 17 (S754_finite false m e) num den n0 1 in
      (if neg then [45%N] else []) ++ formatDigits (decimalDigits s) n k
  end.

(* ================================================================= *)
(** * Part III. Host language: values and [JSON.parse] *)

(** The values the pipeline handles: what [JSON.parse] builds, and
    [undefined] for a property that is absent.  An object is its own
    properties in creation order. *)
Unset Elimination Schemes.
Inductive value : Type :=
  | VUndefined
  | VNull
  | VBool (b : bool)
  | VNum (n : number)
  | VStr (s : jsstring)
  | VArr (elems : list value)
  | VObj (props : list (jsstring * value)).
Set Elimination Schemes.

(** [!!v] *)
Definition truthy (v : value) : bool :=
  match v with
  | VUndefined | VNull => false
  | VBool b => b
  | VNum (S754_zero _) | VNum S754_nan => false
  | VNum _ => true
  | VStr [] => false
  | VStr _ => true
  | VArr _ | VObj _ => true
  end.

(** [v == null] *)
Definition isNullish (v : value) : bool :=
  match v with VUndefined | VNull => true | _ => false end.

(** [typeof v === 'object'], which null satisfies too. *)
Definition typeofObject (v : value) : bool :=
  match v with VNull | VArr _ | VObj _ => true | _ => false end.

Fixpoint lookup {A : Type} (k : jsstring) (props : list (jsstring * A)) : option A :=
  match props with
  | [] => None
  | (k', v) :: r => if str_eqb k k' then Some v else lookup k r
  end.

(** [o[k] = v] on own data properties: an existing key keeps its place. *)
Fixpoint setProp {A : Type} (k : jsstring) (v : A) (props : list (jsstring * A))
  : list (jsstring * A) :=
  match props with
  | [] => [(k, v)]
  | (k', v') :: r =>
      if str_eqb k k' then (k, v) :: r else (k', v') :: setProp k v r
  end.

(** [o.k] for the property names the source reads ([label], [score],
    [summary], [reason], [explanation], [tickers], [ticker], [symbol],
    [code]): none of them is inherited from [Object.prototype] or
    [Array.prototype], so an object answers with its own property and an
    array with [undefined]. *)
Definition get (o : value) (k : jsstring) : value :=
  match o with
  | VObj props => match lookup k props with Some v => v | None => VUndefined end
  | _ => VUndefined
  end.

(** [String(v)] *)
Fixpoint ToString (v : value) : jsstring :=
  match v with
  | VUndefined => lit "undefined"
  | VNull => lit "null"
  | VBool b => if b then lit "true" else lit "false"
  | VNum n => NumberToString n
  | VStr s => s
  | VArr l =>
      (fix join (l : list value) : jsstring :=
         match l with
         | [] => []
         | x :: r =>
             match x with
             | VUndefined | VNull => []
             | _ => ToString x
             end ++ match r with [] => [] | _ => COMMA :: join r end
         end) l
  | VObj _ => lit "[object Object]"
  end.

(** An array index: the canonical decimal form of an integer below 2^32-1. *)
Definition arrayIndex (k : jsstring) : option Z :=
  match k with
  | [] => None
  | c :: r =>
      if forallb isDigit k && (negb (c =? 48)%N || match r with [] => true | _ => false end)
      then let v := digitsValue k in
           if v <? 4294967295 then Some v else None
      else None
  end.

Fixpoint insertByIndex (i : Z) (e : jsstring * value)
  (l : list (Z * (jsstring * value))) : list (Z * (jsstring * value)) :=
  match l with
  | [] => [(i, e)]
  | (j, e') :: r =>
      if i <? j then (i, e) :: l else (j, e') :: insertByIndex i e r
  end.

(** [Object.entries] of a parsed object: array-index keys first, in
    ascending order, then the other keys in creation order. *)
Definition entries (props : list (jsstring * value)) : list (jsstring * value) :=
  let indexed :=
    fold_left (fun acc e =>
                 match arrayIndex (fst e) with
                 | Some i => insertByIndex i e acc
                 | None => acc
                 end) props [] in
  map snd indexed
  ++ filter (fun e => match arrayIndex (fst e) with Some _ => false | None => true end) props.

(** ** JSON text to tokens *)

Inductive token : Type :=
  | TLBrace | TRBrace | TLBracket | TRBracket | TColon | TComma
  | TString (s : jsstring)
  | TNumber (n : number)
  | TTrue | TFalse | TNull.

(** JSON white space: tab, line feed, carriage return, space. *)
Definition isJsonWs (c : codeunit) : bool :=
  ((c =? 9) || (c =? 10) || (c =? 13) || (c =? 32))%N.

Definition escapeUnit (c : codeunit) : option codeunit :=
  (if c =? 34 then Some 34
   else if c =? 92 then Some 92
   else if c =? 47 then Some 47
   else if c =? 98 then Some 8
   else if c =? 102 then Some 12
   else if c =? 110 then Some 10
   else if c =? 114 then Some 13
   else if c =? 116 then Some 9
   else None)%N.

Definition hex4 (a b c d : codeunit) : option codeunit :=
  match hexVal a, hexVal b, hexVal c, hexVal d with
  | Some x, Some y, Some z, Some w =>
      Some (Z.to_N (((x * 16 + y) * 16 + z) * 16 + w))
  | _, _, _, _ => None
  end.

Definition consUnit (c : codeunit) (o : option (jsstring * jsstring))
  : option (jsstring * jsstring) :=
  match o with
  | Some (str, rest) => Some (c :: str, rest)
  | None => None
  end.

(** The body of a string literal after its opening quote: the decoded
    string and what follows the closing quote. *)
Fixpoint scanString (s : jsstring) : option (jsstring * jsstring) :=
  match s with
  | [] => None
  | c :: r =>
      if (c =? 34)%N then Some ([], r)
      else if (c =? 92)%N then
        match r with
        | [] => None
        | e :: r' =>
            if (e =? 117)%N then
              match r' with
              | h1 :: h2 :: h3 :: h4 :: r'' =>
                  match hex4 h1 h2 h3 h4 with
                  | Some u => consUnit u (scanString r'')
                  | None => None
                  end
              | _ => None
              end
            else
              match escapeUnit e with
              | Some u => consUnit u (scanString r')
              | None => None
              end
        end
      else if (c <? 32)%N then None
      else consUnit c (scanString r)
  end.

(** The text after a leading code unit [k], if it starts with one. *)
Definition eat (k : codeunit) (s : jsstring) : option jsstring :=
  match s with
  | c :: r => if (c =? k)%N then Some r else None
  | [] => None
  end.

(** An optional minus. *)
Definition scanSign (s : jsstring) : bool * jsstring :=
  match eat 45%N s with
  | Some r => (true, r)
  | None => (false, s)
  end.

(** A lone zero, or digits. *)
Definition scanInt (s : jsstring) : jsstring * jsstring :=
  match eat 48%N s with
  | Some r => ([48%N], r)
  | None => span isDigit s
  end.

(** An optional fraction: a dot and at least one digit. *)
Definition scanFrac (s : jsstring) : option (jsstring * jsstring) :=
  match eat 46%N s with
  | Some r =>
      match span isDigit r with
      | ([], _) => None
      | (f, rest) => Some (f, rest)
      end
  | None => Some ([], s)
  end.

(** An optional exponent: e or E, an optional sign, at least one digit. *)
Definition scanExp (s : jsstring) : option (Z * jsstring) :=
  match s with
  | c :: r =>
      if ((c =? 101) || (c =? 69))%N then
        let '(eneg, ds) :=
          match eat 43%N r with
          | Some r' => (false, r')
          | None =>
              match eat 45%N r with
              | Some r' => (true, r')
              | None => (false, r)
              end
          end in
        match span isDigit ds with
        | ([], _) => None
        | (d, rest) =>
            let v := digitsValue d in
            Some (if eneg then - v else v, rest)
        end
      else Some (0, s)
  | [] => Some (0, s)
  end.

(** A number literal and what follows it: an optional minus, then a lone
    zero or digits that do not start with zero, then an optional fraction,
    then an optional exponent. *)
Definition scanNumber (s : jsstring) : option (number * jsstring) :=
  let '(neg, s1) := scanSign s in
  let '(int, s2) := scanInt s1 in
  match int with
  | [] => None
  | _ =>
      match scanFrac s2 with
      | None => None
      | Some (frac, s3) =>
          match scanExp s3 with
          | None => None
          | Some (e, s4) => Some (decimalValue neg int frac e, s4)
          end
      end
  end.

(** One token at the head of [s], and what follows it. *)
Definition scanToken (s : jsstring) : option (token * jsstring) :=
  match s with
  | [] => None
  | c :: r =>
      if (c =? 123)%N then Some (TLBrace, r)
      else if (c =? 125)%N then Some (TRBrace, r)
      else if (c =? 91)%N then Some (TLBracket, r)
      else if (c =? 93)%N then Some (TRBracket, r)
      else if (c =? 58)%N then Some (TColon, r)
      else if (c =? 44)%N then Some (TComma, r)
      else if (c =? 34)%N then
        match scanString r with
        | Some (str, rest) => Some (TString str, rest)
        | None => None
        end
      else if (c =? 45)%N || isDigit c then
        match scanNumber s with
        | Some (n, rest) => Some (TNumber n, rest)
        | None => None
        end
      else if startsWith (lit "true") s then Some (TTrue, skipn 4 s)
      else if startsWith (lit "false") s then Some (TFalse, skipn 5 s)
      else if startsWith (lit "null") s then Some (TNull, skipn 4 s)
      else None
  end.

(** The tokens of a text.  [skip] counts the code units of the current token
    that are still to be passed over, which keeps the recursion structural. *)
Fixpoint lex (skip : nat) (s : jsstring) : option (list token) :=
  match s with
  | [] => Some []
  | c :: r =>
      match skip with
      | S k => lex k r
      | O =>
          if isJsonWs c then lex O r
          else
            match scanToken s with
            | Some (t, rest) =>
                match lex (List.length r - List.length rest) r with
                | Some ts => Some (t :: ts)
                | None => None
                end
            | None => None
            end
      end
  end.

(** ** Tokens to a value *)

Fixpoint parseValue (fuel : nat) (ts : list token) : option (value * list token) :=
  match fuel with
  | O => None
  | S f =>
      match ts with
      | TNull :: r => Some (VNull, r)
      | TTrue :: r => Some (VBool true, r)
      | TFalse :: r => Some (VBool false, r)
      | TNumber n :: r => Some (VNum n, r)
      | TString s :: r => Some (VStr s, r)
      | TLBracket :: TRBracket :: r => Some (VArr [], r)
      | TLBracket :: r => parseElements f r []
      | TLBrace :: TRBrace :: r => Some (VObj [], r)
      | TLBrace :: r => parseMembers f r []
      | _ => None
      end
  end
with parseElements (fuel : nat) (ts : list token) (acc : list value)
  : option (value * list token) :=
  match fuel with
  | O => None
  | S f =>
      match parseValue f ts with
      | Some (v, TComma :: r) => parseElements f r (v :: acc)
      | Some (v, TRBracket :: r) => Some (VArr (rev (v :: acc)), r)
      | _ => None
      end
  end
with parseMembers (fuel : nat) (ts : list token) (acc : list (jsstring * value))
  : option (value * list token) :=
  match fuel with
  | O => None
  | S f =>
      match ts with
      | TString k :: TColon :: r =>
          match parseValue f r with
          | Some (v, TComma :: r') => parseMembers f r' (setProp k v acc)
          | Some (v, TRBrace :: r') => Some (VObj (setProp k v acc), r')
          | _ => None
          end
      | _ => None
      end
  end.

(** [JSON.parse(s)]: [None] stands for the SyntaxError it throws.  A
    duplicate key keeps the last value.  Every recursive call of the parser
    consumes a token, so the number of tokens bounds the recursion. *)
Definition JSON_parse (s : jsstring) : option value :=
  match lex O s with
  | Some ts =>
      match parseValue (S (List.length ts)) ts with
      | Some (v, []) => Some v
      | _ => None
      end
  | None => None
  end.

(* ================================================================= *)
(** * Part IV. [scripts/market_sentiment_csv.js] *)

(** ** [safeParseJson]: [JSON.parse], with null for a syntax error *)
Definition safeParseJson (s : jsstring) : value :=
  match JSON_parse s with
  | Some v => v
  | None => VNull
  end.

(** ** [cleanJsonString] *)

(** [s.replace(/^```json\s*/i, '')] *)
Definition stripJsonFence (s : jsstring) : jsstring :=
  if startsWithCI (lit "```json") s
  then dropWhile isWhiteSpace (skipn 7 s)
  else s.

(** [s.replace(/^```\s*/i, '')] *)
Definition stripOpenFence (s : jsstring) : jsstring :=
  if startsWith (lit "```") s
  then dropWhile isWhiteSpace (skipn 3 s)
  else s.

(** [s.replace(/```\s*$/i, '')]: the leftmost place where three backticks are
    followed by white space only up to the end; the text from there on is
    removed. *)
Fixpoint stripCloseFence (s : jsstring) : jsstring :=
  if startsWith (lit "```") s && forallb isWhiteSpace (skipn 3 s) then []
  else
    match s with
    | [] => []
    | c :: r => c :: stripCloseFence r
    end.

(** The two [replace] calls on typographic quotes: U+201C and U+201D become
    the double quote, U+2018 and U+2019 the apostrophe. *)
Definition straightenUnit (c : codeunit) : codeunit :=
  (if (c =? 8220) || (c =? 8221) then QUOTE
   else if (c =? 8216) || (c =? 8217) then APOS
   else c)%N.

Definition straightenQuotes (s : jsstring) : jsstring := map straightenUnit s.

(** [raw] is the text of the answer, or [None] when it is undefined. *)
Definition cleanJsonString (raw : option jsstring) : jsstring :=
  match raw with
  | None | Some [] => []
  | Some r =>
      let s := trim r in
      let s := trim (stripCloseFence (stripOpenFence (stripJsonFence s))) in
      straightenQuotes s
  end.

(** ** [tryRepairs] *)

(** Is the text, after white space, a closing brace or bracket? *)
Definition closerAhead (s : jsstring) : bool :=
  match dropWhile isWhiteSpace s with
  | c :: _ => ((c =? RBRACE) || (c =? RBRACKET))%N
  | [] => false
  end.

(** [t.replace(/,(\s*[}\]])/g, '$1')]: a comma that white space and a closer
    follow is dropped.  The matched text holds no other comma, so resuming
    right after the comma gives the result of resuming after the match. *)
Fixpoint dropTrailingCommas (s : jsstring) : jsstring :=
  match s with
  | [] => []
  | c :: r =>
      if (c =? COMMA)%N && closerAhead r
      then dropTrailingCommas r
      else c :: dropTrailingCommas r
  end.

(** The [replace] of single-quoted segments by double-quoted ones: single
    quotes are taken in pairs from the left; [inside] says that a pair is
    open.  A last quote without a partner stays. *)
Fixpoint doubleQuotePairs (inside : bool) (s : jsstring) : jsstring :=
  match s with
  | [] => []
  | c :: r =>
      if (c =? APOS)%N then
        if inside then QUOTE :: doubleQuotePairs false r
        else if existsb (N.eqb APOS) r then QUOTE :: doubleQuotePairs true r
        else c :: doubleQuotePairs false r
      else c :: doubleQuotePairs inside r
  end.

Definition tryRepairs (s : jsstring) : jsstring :=
  let t := dropTrailingCommas s in
  if negb (existsb (N.eqb QUOTE) t) && existsb (N.eqb APOS) t
  then doubleQuotePairs false t
  else t.

(** [cleaned.match(/\{[\s\S]*\}/)]: from the first opening brace to the last
    closing brace after it. *)
Definition braceMatch (s : jsstring) : option jsstring :=
  match dropWhile (fun c => negb (c =? LBRACE)%N) s with
  | [] => None
  | b :: r =>
      if existsb (N.eqb RBRACE) r
      then Some (rev (dropWhile (fun c => negb (c =? RBRACE)%N) (rev (b :: r))))
      else None
  end.

(** ** [normalizeLabel] *)

Inductive Label : Type :=
  VeryBearish | Bearish | Neutral | Bullish | VeryBullish.

(** What the [label] of a record can hold: one of the five label strings; the
    string [Error] of the sentinel; or the function [Object], which the
    lookup [map[k]] finds when [k] is the word [constructor], because the
    table is an object literal and inherits from [Object.prototype]. *)
Inductive LabelValue : Type :=
  | Mood (l : Label)
  | ErrorLabel
  | ObjectConstructor.

(** The object literal [map]. *)
Definition labelTable : list (jsstring * Label) :=
  [ (lit "verybearish", VeryBearish);
    (lit "bearish", Bearish);
    (lit "negative", Bearish);
    (lit "downbeat", Bearish);
    (lit "neutral", Neutral);
    (lit "mixed", Neutral);
    (lit "balanced", Neutral);
    (lit "bullish", Bullish);
    (lit "positive", Bullish);
    (lit "upbeat", Bullish);
    (lit "slightlybullish", Bullish);
    (lit "somewhatbullish", Bullish);
    (lit "verybullish", VeryBullish);
    (lit "verypositive", VeryBullish);
    (lit "verynegative", VeryBearish) ].

(** [k.replace(/\s+|_/g, '')] *)
Definition stripSpaceUnderscore (s : jsstring) : jsstring :=
  filter (fun c => negb (isWhiteSpace c || (c =? UNDERSCORE)%N)) s.

(** [map[k] || null].  Of the properties of [Object.prototype] only
    [constructor] has a name in lower case without underscore, which is what
    [k] is made of. *)
Definition tableLookup (k : jsstring) : option LabelValue :=
  match lookup k labelTable with
  | Some l => Some (Mood l)
  | None => if str_eqb k (lit "constructor") then Some ObjectConstructor else None
  end.

(** [None] is the null of the source. *)
Definition normalizeLabel (label : value) : option LabelValue :=
  if negb (truthy label) then None
  else tableLookup (stripSpaceUnderscore (toLowerCase (ToString label))).

(** ** [normalizeTickerKey] *)
Definition normalizeTickerKey (k : value) : option jsstring :=
  match k with
  | VStr s =>
      let up := toUpperCase (trim s) in
      match up with
      | [] => None
      | _ =>
          if (6 <? List.length up)%nat || negb (forallb isUpperAlnum up)
          then None
          else Some up
      end
  | _ => None
  end.

(** ** [parseScore]; [None] is the undefined it returns *)
Definition parseScore (val : value) : option number :=
  match val with
  | VNum n => Some n
  | VStr v =>
      let s := trim v in
      let percent := endsWith [PERCENT] s in
      let s := if percent then removelast s else s in
      let n := StringToNumber s in
      if isNaN n then None
      else if percent then Some (Math_max num_m1 (Math_min num_1 (num_div n num_100)))
      else if num_gt n num_1 && num_le n num_100 then Some (num_div n num_100)
      else if num_lt n num_m1 && num_ge n num_m100 then Some (num_div n num_100)
      else Some n
  | _ => None
  end.

(** ** [coerceSentimentShape] *)

Record TickerInfo : Type := { t_score : number; t_explanation : jsstring }.

(** The [tickers] object of the result: its properties in the order in
    which the loops first assign them. *)
Definition Tickers := list (jsstring * TickerInfo).

Record SentimentRecord : Type :=
  { label : LabelValue;
    score : number;
    summary : jsstring;
    tickers : Tickers }.

(** [typeof v === 'string' ? v : ''] *)
Definition stringOrEmpty (v : value) : jsstring :=
  match v with VStr s => s | _ => [] end.

(** The body of the loop over [Object.entries(obj.tickers)]. *)
Definition tickerFromEntry (tickers : Tickers) (e : jsstring * value) : Tickers :=
  let '(rawKey, rawVal) := e in
  match normalizeTickerKey (VStr rawKey) with
  | None => tickers
  | Some key =>
      if isNullish rawVal
      then setProp key {| t_score := num_0; t_explanation := [] |} tickers
      else
        match rawVal with
        | VNum _ | VStr _ =>
            match parseScore rawVal with
            | Some tScore =>
                if isNaN tScore then tickers
                else setProp key {| t_score := tScore; t_explanation := [] |} tickers
            | None => tickers
            end
        | VArr _ | VObj _ =>
            let explanation := stringOrEmpty (get rawVal (lit "explanation")) in
            match parseScore (get rawVal (lit "score")) with
            | Some tScore =>
                if isNaN tScore then tickers
                else setProp key {| t_score := tScore; t_explanation := explanation |} tickers
            | None => tickers
            end
        | _ => tickers
        end
  end.

(** [a || b] *)
Definition orElse (a b : value) : value := if truthy a then a else b.

(** The body of the loop over the array [obj.tickers]. *)
Definition tickerFromItem (tickers : Tickers) (entry : value) : Tickers :=
  if negb (truthy entry) || negb (typeofObject entry) then tickers
  else
    let key :=
      normalizeTickerKey
        (orElse (orElse (get entry (lit "ticker")) (get entry (lit "symbol")))
                (get entry (lit "code"))) in
    let tScore := parseScore (get entry (lit "score")) in
    let explanation := stringOrEmpty (get entry (lit "explanation")) in
    match key, tScore with
    | Some k, Some sc =>
        if isNaN sc then tickers
        else setProp k {| t_score := sc; t_explanation := explanation |} tickers
    | _, _ => tickers
    end.

(** The [tickers] of the result, from [obj.tickers]. *)
Definition coerceTickers (t : value) : Tickers :=
  match t with
  | VObj props => fold_left tickerFromEntry (entries props) []
  | VArr items => fold_left tickerFromItem items []
  | _ => []
  end.

(** The label the thresholds give to a score that is a number and not NaN. *)
Definition inferLabel (scoreNum : number) : Label :=
  if num_le scoreNum num_m0_6 then VeryBearish
  else if num_lt scoreNum num_m0_2 then Bearish
  else if num_le scoreNum num_0_2 then Neutral
  else if num_lt scoreNum num_0_6 then Bullish
  else VeryBullish.

(** The first of [summary], [reason], [explanation] that is a string. *)
Definition pickSummary (obj : value) : option jsstring :=
  match get obj (lit "summary") with
  | VStr s => Some s
  | _ =>
      match get obj (lit "reason") with
      | VStr s => Some s
      | _ =>
          match get obj (lit "explanation") with
          | VStr s => Some s
          | _ => None
          end
      end
  end.

(** [None] is the null of the source. *)
Definition coerceSentimentShape (obj : value) : option SentimentRecord :=
  if negb (truthy obj) || negb (typeofObject obj) then None
  else
    let labelNorm := normalizeLabel (get obj (lit "label")) in
    let scoreNum := parseScore (get obj (lit "score")) in
    let summaryStr := pickSummary obj in
    let tickers := coerceTickers (get obj (lit "tickers")) in
    let labelNorm :=
      match labelNorm, scoreNum with
      | None, Some n => if isNaN n then None else Some (Mood (inferLabel n))
      | _, _ => labelNorm
      end in
    let summaryStr := match summaryStr with Some s => s | None => [] end in
    match labelNorm, scoreNum with
    | Some l, Some n =>
        if isNaN n then None
        else Some {| label := l; score := n; summary := summaryStr; tickers := tickers |}
    | _, _ => None
    end.

(** ** [buildMarketPrompt] *)

Inductive intOrInf : Type := Int (z : Z) | PlusInf | MinusInf.

Definition ToIntegerOrInfinity (x : number) : intOrInf :=
  match x with
  | S754_nan | S754_zero _ => Int 0
  | S754_infinity neg => if neg then MinusInf else PlusInf
  | S754_finite neg m e =>
      let a := if 0 <=? e then Zpos m * 2 ^ e else Zpos m / 2 ^ (- e) in
      Int (if neg then - a else a)
  end.

(** [s.slice(0, end)] *)
Definition sliceTo (s : jsstring) (end_ : number) : jsstring :=
  let len := Z.of_nat (List.length s) in
  let final :=
    match ToIntegerOrInfinity end_ with
    | MinusInf => 0
    | PlusInf => len
    | Int z => if z <? 0 then Z.max (len + z) 0 else Z.min z len
    end in
  firstn (Z.to_nat final) s.

Definition promptHead : jsstring :=
  lit "Rate the overall stock market mood expressed by the following text. Also extract any specific stock tickers mentioned and, for each, assign a score (-1..1) and a short explanation. Return STRICT JSON ONLY with keys: label (VeryBearish|Bearish|Neutral|Bullish|VeryBullish), score (-1..1), summary (1-2 sentences), tickers (object mapping TICKER-> { score, explanation }). Use double quotes for all keys and strings. If no tickers, return an empty object for tickers. Return exactly one JSON object and nothing else."
  ++ [10%N; 10%N] ++ lit "TEXT:" ++ [10%N].

(** [MAX_TEXT_CHARS] comes from the environment (3000 when unset). *)
Definition buildMarketPrompt (MAX_TEXT_CHARS : number) (text : jsstring) : jsstring :=
  let clipped := sliceTo (trim text) MAX_TEXT_CHARS in
  promptHead ++ clipped.

(** ** The oracle *)

(** A content block of an answer: its [type] and its [text], if it has one. *)
Record Block : Type := { b_type : jsstring; b_text : option jsstring }.

(** What the catch blocks read of a thrown value [e]: [e.error.type],
    [e.error.message], [e.name], [e.message], [String(e)], [e.status] and
    [e.response.headers.get] of the retry-after header.  The four texts are
    strings when they are there. *)
Record Thrown : Type :=
  { e_type : option jsstring;
    e_errorMessage : option jsstring;
    e_name : option jsstring;
    e_message : option jsstring;
    e_string : jsstring;
    e_status : value;
    e_retryAfter : value }.

(** One call of [anthropic.messages.create]. *)
Inductive Outcome : Type :=
  | Answer (content : list Block)
  | Raise (e : Thrown).

(** The kind of request: the second file first asks with a
    [response_format], the first file never does. *)
Inductive Event : Type :=
  | Request (withFormat : bool) (prompt : jsstring)
  | Sleep (ms : number).

(** The oracle answers the [n]-th request (from 0) of a call. *)
Definition Oracle := nat -> bool -> jsstring -> Outcome.

Definition isRequest (e : Event) : bool :=
  match e with Request _ _ => true | Sleep _ => false end.

Definition requestsMade (log : list Event) : nat :=
  List.length (filter isRequest log).

Definition sleepsOf (log : list Event) : list number :=
  flat_map (fun e => match e with Sleep ms => [ms] | _ => [] end) log.

(** How a block of code ends. *)
Inductive Completion (A : Type) : Type :=
  | Returned (a : A)
  | Threw (e : Thrown).

Arguments Returned {A} a.
Arguments Threw {A} e.

(** [new Error(message)] *)
Definition newError (message : jsstring) : Thrown :=
  {| e_type := None;
     e_errorMessage := None;
     e_name := Some (lit "Error");
     e_message := Some message;
     e_string := match message with
                 | [] => lit "Error"
                 | _ => lit "Error: " ++ message
                 end;
     e_status := VUndefined;
     e_retryAfter := VUndefined |}.

Definition invalidJsonMessage : jsstring :=
  lit "Model did not return valid JSON sentiment".

Definition exhaustedMessage : jsstring := lit "rate limit retries exhausted".

(** [{ label: 'Error', score: 0, summary, tickers: {} }] *)
Definition errorRecord (summary : jsstring) : SentimentRecord :=
  {| label := ErrorLabel; score := num_0; summary := summary; tickers := [] |}.

(** [a || b] on texts that may be absent: the empty string is falsy. *)
Definition orText (a : option jsstring) (b : option jsstring) : option jsstring :=
  match a with
  | Some (_ :: _) => a
  | _ => b
  end.

Definition textOr (a : option jsstring) (b : jsstring) : jsstring :=
  match a with
  | Some (c :: r) => c :: r
  | _ => b
  end.

(** [Number(v)] *)
Definition ToNumber (v : value) : number :=
  match v with
  | VUndefined => NaN
  | VNull => num_0
  | VBool b => if b then num_1 else num_0
  | VNum n => n
  | VStr s => StringToNumber s
  | VArr _ | VObj _ => StringToNumber (ToString v)
  end.

(** [e.status === 429] *)
Definition status429 (e : Thrown) : bool :=
  match e_status e with
  | VNum n => num_eq n num_429
  | _ => false
  end.

(** [Number(retry-after) * 1000 || 2000 * (attempt + 1)] *)
Definition retryAfterMs (e : Thrown) (attempt : nat) : number :=
  let suggested := num_mul (ToNumber (e_retryAfter e)) num_1000 in
  if truthy (VNum suggested) then suggested
  else num_mul num_2000 (ofZ (Z.of_nat attempt + 1)).

(** The text of the answer: that of the first block of type [text], else
    that of the first block when it is a string, else the empty string. *)
Definition answerText (content : list Block) : option jsstring :=
  match find (fun b => str_eqb (b_type b) (lit "text")) content with
  | Some b => b_text b
  | None =>
      match content with
      | b :: _ => Some (match b_text b with Some t => t | None => [] end)
      | [] => Some []
      end
  end.

(** From the raw text to a record: clean, parse, coerce; when that gives no
    record, cut out the braces, repair, parse and coerce again.  The pair is
    the last [parsed] and the last [result] of the source. *)
Definition extractParsed (raw : option jsstring) : value * option SentimentRecord :=
  let cleaned := cleanJsonString raw in
  let parsed := safeParseJson cleaned in
  let result := coerceSentimentShape parsed in
  match result with
  | Some _ => (parsed, result)
  | None =>
      let cleaned :=
        match braceMatch cleaned with
        | Some m => m
        | None => cleaned
        end in
      let repaired := tryRepairs cleaned in
      let parsed := safeParseJson repaired in
      (parsed, coerceSentimentShape parsed)
  end.

Definition extractSentiment (raw : option jsstring) : option SentimentRecord :=
  snd (extractParsed raw).

(** What follows the request in the [try] block. *)
Definition readAnswer (content : list Block) : Completion SentimentRecord :=
  match extractSentiment (answerText content) with
  | Some result => Returned result
  | None => Threw (newError invalidJsonMessage)
  end.

(** ** [scoreMarket] of [scripts/market_sentiment_csv.js] *)
Module MarketCsv.

(** [e.error.type || e.message || String(e)] *)
Definition errorDetail (e : Thrown) : jsstring :=
  textOr (orText (e_type e) (e_message e)) (e_string e).

Definition rateLimited (e : Thrown) : bool :=
  includes (lit "rate_limit") (errorDetail e) || status429 e.

(** The [try] block of one attempt. *)
Definition attemptBody (o : Outcome) : Completion SentimentRecord :=
  match o with
  | Answer content => readAnswer content
  | Raise e => Threw e
  end.

(** The loop from [attempt] on, with [remaining] attempts left. *)
Fixpoint attempts (oracle : Oracle) (prompt : jsstring)
  (remaining attempt : nat) (log : list Event)
  : Completion SentimentRecord * list Event :=
  match remaining with
  | O => (Returned (errorRecord exhaustedMessage), log)
  | S rest =>
      let outcome := oracle (requestsMade log) false prompt in
      let log := log ++ [Request false prompt] in
      match attemptBody outcome with
      | Returned result => (Returned result, log)
      | Threw e =>
          if rateLimited e
          then attempts oracle prompt rest (S attempt)
                 (log ++ [Sleep (retryAfterMs e attempt)])
          else (Returned (errorRecord (errorDetail e)), log)
      end
  end.

Definition scoreMarket (MAX_TEXT_CHARS : number) (oracle : Oracle)
  (text : jsstring) : Completion SentimentRecord * list Event :=
  attempts oracle (buildMarketPrompt MAX_TEXT_CHARS text) 5 0 [].

(** The state of a call that has made [k] attempts, all of them answered
    by an error classified as a rate limit, and has slept after each: the
    log so far. *)
Inductive Retrying (oracle : Oracle) (prompt : jsstring)
  : nat -> list Event -> Prop :=
  | Retrying_start : Retrying oracle prompt 0 []
  | Retrying_again (k : nat) (log : list Event) (e : Thrown) :
      Retrying oracle prompt k log ->
      attemptBody (oracle (requestsMade log) false prompt) = Threw e ->
      rateLimited e = true ->
      Retrying oracle prompt (S k)
        ((log ++ [Request false prompt]) ++ [Sleep (retryAfterMs e k)]).

End MarketCsv.

(** ** [scoreMarket] of the second scorer, [unnamed/part_000]

    That file scores the files of a directory.  Its helpers
    ([cleanJsonString], [tryRepairs], [normalizeLabel], [parseScore],
    [normalizeTickerKey], [coerceSentimentShape]) are the same text as above;
    its [scoreMarket] first asks with a [response_format], asks again without
    when the refusal looks like an incompatibility, and builds the error text
    differently. *)
Module Part000.

(** [e.error.type || e.name || ''] *)
Definition errorType (e : Thrown) : jsstring :=
  textOr (orText (e_type e) (e_name e)) [].

(** [e.error.message || e.message || String(e)] *)
Definition errorDetail (e : Thrown) : jsstring :=
  textOr (orText (e_errorMessage e) (e_message e)) (e_string e).

(** [[type, detail].filter(Boolean).join(': ')] *)
Definition combined (e : Thrown) : jsstring :=
  match errorType e, errorDetail e with
  | [], d => d
  | t, [] => t
  | t, d => t ++ lit ": " ++ d
  end.

Definition rateLimited (e : Thrown) : bool :=
  includes (lit "rate_limit") (combined e) || status429 e.

(** The test of the inner [catch]. *)
Definition maybeIncompatible (e : Thrown) : bool :=
  includes (lit "invalid") (errorType e)
  || includes (lit "response_format")
       (toLowerCase (textOr (orText (e_errorMessage e) (e_message e)) [])).

(** The [try] block of one attempt: one request, or two. *)
Definition attemptBody (oracle : Oracle) (prompt : jsstring) (log : list Event)
  : Completion SentimentRecord * list Event :=
  let first := oracle (requestsMade log) true prompt in
  let log := log ++ [Request true prompt] in
  match first with
  | Answer content => (readAnswer content, log)
  | Raise compatErr =>
      if maybeIncompatible compatErr then
        let second := oracle (requestsMade log) false prompt in
        let log := log ++ [Request false prompt] in
        match second with
        | Answer content => (readAnswer content, log)
        | Raise e => (Threw e, log)
        end
      else (Threw compatErr, log)
  end.

(** The summary of the sentinel: [combined], or the words [unknown error]
    when it is empty. *)
Definition failureSummary (e : Thrown) : jsstring :=
  match combined e with
  | [] => lit "unknown error"
  | c => c
  end.

Fixpoint attempts (oracle : Oracle) (prompt : jsstring)
  (remaining attempt : nat) (log : list Event)
  : Completion SentimentRecord * list Event :=
  match remaining with
  | O => (Returned (errorRecord exhaustedMessage), log)
  | S rest =>
      match attemptBody oracle prompt log with
      | (Returned result, log) => (Returned result, log)
      | (Threw e, log) =>
          if rateLimited e
          then attempts oracle prompt rest (S attempt)
                 (log ++ [Sleep (retryAfterMs e attempt)])
          else (Returned (errorRecord (failureSummary e)), log)
      end
  end.

Definition scoreMarket (MAX_TEXT_CHARS : number) (oracle : Oracle)
  (text : jsstring) : Completion SentimentRecord * list Event :=
  attempts oracle (buildMarketPrompt MAX_TEXT_CHARS text) 5 0 [].

(** The state of a call that has made [k] attempts, all of them ended by
    an error classified as a rate limit, and has slept after each. *)
Inductive Retrying (oracle : Oracle) (prompt : jsstring)
  : nat -> list Event -> Prop :=
  | Retrying_start : Retrying oracle prompt 0 []
  | Retrying_again (k : nat) (log log' : list Event) (e : Thrown) :
      Retrying oracle prompt k log ->
      attemptBody oracle prompt log = (Threw e, log') ->
      rateLimited e = true ->
      Retrying oracle prompt (S k) (log' ++ [Sleep (retryAfterMs e k)]).

End Part000.

(* ================================================================= *)
(** * Part IV-b. The CSV side of [scripts/market_sentiment_csv.js] *)

Definition LF : codeunit := 10%N.
Definition CR : codeunit := 13%N.

(** ** [parseLine]

    The loop over the code units of [line], from the position of [line]
    that is left: [inq] says that a quoted part is open, [cur] is the cell
    being read and [cells] the cells read so far.  A double quote that
    follows a double quote inside a quoted part is taken with it ([j++]). *)
Fixpoint parseLineFrom (line : jsstring) (inq : bool) (cur : jsstring)
  (cells : list jsstring) : list jsstring :=
  match line with
  | [] => cells ++ [cur]
  | ch :: rest =>
      if (ch =? QUOTE)%N then
        match rest with
        | next :: after =>
            if inq && (next =? QUOTE)%N
            then parseLineFrom after inq (cur ++ [QUOTE]) cells
            else parseLineFrom rest (negb inq) cur cells
        | [] => parseLineFrom rest (negb inq) cur cells
        end
      else if (ch =? COMMA)%N && negb inq
      then parseLineFrom rest inq [] (cells ++ [cur])
      else parseLineFrom rest inq (cur ++ [ch]) cells
  end.

Definition parseLine (line : jsstring) : list jsstring :=
  parseLineFrom line false [] [].

(** ** [csvRow] *)

(** The [replace] that doubles every double quote. *)
Definition doubleQuotes (s : jsstring) : jsstring :=
  flat_map (fun c => if (c =? QUOTE)%N then [QUOTE; QUOTE] else [c]) s.

(** [String] of the cell; null and undefined give the empty string. *)
Definition cellText (v : value) : jsstring :=
  if isNullish v then [] else ToString v.

(** The function mapped over the cells. *)
Definition quoteCell (v : value) : jsstring :=
  QUOTE :: doubleQuotes (cellText v) ++ [QUOTE].

(** [Array.prototype.join] on strings. *)
Fixpoint join (sep : jsstring) (l : list jsstring) : jsstring :=
  match l with
  | [] => []
  | [x] => x
  | x :: r => x ++ sep ++ join sep r
  end.

Definition csvRow (cells : list value) : jsstring :=
  join [COMMA] (map quoteCell cells).

(** ** [parseCSV] *)

(** [text.split(/\r?\n/)]: a line ends at a line feed, or at a carriage
    return that a line feed follows; [cur] is the line being read. *)
Fixpoint splitLinesFrom (text : jsstring) (cur : jsstring) : list jsstring :=
  match text with
  | [] => [cur]
  | c :: rest =>
      if (c =? LF)%N then cur :: splitLinesFrom rest []
      else if (c =? CR)%N then
        match rest with
        | d :: after =>
            if (d =? LF)%N then cur :: splitLinesFrom after []
            else splitLinesFrom rest (cur ++ [c])
        | [] => splitLinesFrom rest (cur ++ [c])
        end
      else splitLinesFrom rest (cur ++ [c])
  end.

Definition splitLines (text : jsstring) : list jsstring :=
  splitLinesFrom text [].

(** [Boolean(s)] on a string *)
Definition nonEmpty (s : jsstring) : bool :=
  match s with [] => false | _ => true end.

(** [Array.prototype.indexOf] on strings, the positions counted from [i]. *)
Fixpoint indexOfFrom (x : jsstring) (l : list jsstring) (i : Z) : Z :=
  match l with
  | [] => -1
  | y :: r => if str_eqb y x then i else indexOfFrom x r (i + 1)
  end.

Definition indexOf (x : jsstring) (l : list jsstring) : Z := indexOfFrom x l 0.

(** [cells[i] ?? ''] for an integer [i] *)
Definition cellAt (cells : list jsstring) (i : Z) : jsstring :=
  if i <? 0 then []
  else match nth_error cells (Z.to_nat i) with
       | Some c => c
       | None => []
       end.

(** A row [{ url, title, text }]. *)
Record Row : Type :=
  { row_url : jsstring;
    row_title : jsstring;
    row_text : jsstring }.

(** The first of two header names that occurs, else the position [dflt]. *)
Definition columnOf (header : list jsstring) (first second : jsstring) (dflt : Z) : Z :=
  if negb (indexOf first header =? -1) then indexOf first header
  else if negb (indexOf second header =? -1) then indexOf second header
  else dflt.

(** The names of the header are compared with words in ASCII lower case,
    for which [toLowerCase] one code unit at a time decides as the real one
    does.  The positions are whole numbers, so [Math.max] is [Z.max]. *)
Definition parseCSV (text : jsstring) : list Row :=
  let lines := filter nonEmpty (splitLines text) in
  match lines with
  | [] => []
  | first :: body =>
      let header := map (fun h => toLowerCase (trim h)) (parseLine first) in
      let urlIdx := Z.max 0 (indexOf (lit "url") header) in
      let titleIdx := columnOf header (lit "title") (lit "headline") 1 in
      let textIdx := columnOf header (lit "text") (lit "summary") 2 in
      map (fun line =>
             let cells := parseLine line in
             {| row_url := cellAt cells urlIdx;
                row_title := cellAt cells titleIdx;
                row_text := cellAt cells textIdx |})
          body
  end.

(** ** [JSON.stringify] of the tickers of a record *)

(** [UnicodeEscape]: a backslash, the letter u and four hexadecimal digits
    in lower case. *)
Definition hexDigit (d : N) : codeunit :=
  (if d <? 10 then 48 + d else 87 + d)%N.

Definition unicodeEscape (c : codeunit) : jsstring :=
  [92%N; 117%N;
   hexDigit (N.shiftr c 12 mod 16)%N; hexDigit (N.shiftr c 8 mod 16)%N;
   hexDigit (N.shiftr c 4 mod 16)%N; hexDigit (c mod 16)%N].

Definition isHighSurrogate (c : codeunit) : bool := ((55296 <=? c) && (c <=? 56319))%N.
Definition isLowSurrogate (c : codeunit) : bool := ((56320 <=? c) && (c <=? 57343))%N.

(** One code unit that is not part of a surrogate pair. *)
Definition quoteUnit (c : codeunit) : jsstring :=
  (if c =? 8 then [92; 98]
   else if c =? 9 then [92; 116]
   else if c =? 10 then [92; 110]
   else if c =? 12 then [92; 102]
   else if c =? 13 then [92; 114]
   else if c =? 34 then [92; 34]
   else if c =? 92 then [92; 92]
   else if (c <? 32) || isHighSurrogate c || isLowSurrogate c then unicodeEscape c
   else [c])%N.

(** The characters of [QuoteJSONString] between the quotes: a surrogate
    pair is one code point and is copied. *)
Fixpoint quoteUnits (s : jsstring) : jsstring :=
  match s with
  | [] => []
  | c :: rest =>
      match rest with
      | d :: after =>
          if isHighSurrogate c && isLowSurrogate d
          then c :: d :: quoteUnits after
          else quoteUnit c ++ quoteUnits rest
      | [] => quoteUnit c
      end
  end.

Definition quoteJSONString (s : jsstring) : jsstring :=
  QUOTE :: quoteUnits s ++ [QUOTE].

(** A number in JSON: [null] when it is not finite. *)
Definition stringifyNumber (n : number) : jsstring :=
  match n with
  | S754_nan | S754_infinity _ => lit "null"
  | _ => NumberToString n
  end.

Fixpoint insertOrdered {A : Type} (i : Z) (e : jsstring * A)
  (l : list (Z * (jsstring * A))) : list (Z * (jsstring * A)) :=
  match l with
  | [] => [(i, e)]
  | (j, e') :: r =>
      if i <? j then (i, e) :: l else (j, e') :: insertOrdered i e r
  end.

(** The own properties of an object in the order in which they are
    enumerated: array-index keys first, in ascending order, then the other
    keys in creation order. *)
Definition ownProperties {A : Type} (props : list (jsstring * A)) : list (jsstring * A) :=
  let indexed :=
    fold_left (fun acc e =>
                 match arrayIndex (fst e) with
                 | Some i => insertOrdered i e acc
                 | None => acc
                 end) props [] in
  map snd indexed
  ++ filter (fun e => match arrayIndex (fst e) with Some _ => false | None => true end) props.

(** One property of the tickers object: a key and [{ score, explanation }]. *)
Definition stringifyTicker (e : jsstring * TickerInfo) : jsstring :=
  quoteJSONString (fst e) ++ lit ":{" ++ quoteJSONString (lit "score") ++ lit ":"
  ++ stringifyNumber (t_score (snd e)) ++ lit ","
  ++ quoteJSONString (lit "explanation") ++ lit ":"
  ++ quoteJSONString (t_explanation (snd e)) ++ lit "}".

(** [JSON.stringify(r.tickers || {})]: the tickers are an object, which is
    truthy. *)
Definition stringifyTickers (t : Tickers) : jsstring :=
  lit "{" ++ join [COMMA] (map stringifyTicker (ownProperties t)) ++ lit "}".

(** ** [main] *)

(** The five label strings and the string of the sentinel.  The inherited
    constructor is a function; [String] of it is the text the engine gives
    a built-in function. *)
Definition labelText (l : LabelValue) : jsstring :=
  match l with
  | Mood VeryBearish => lit "VeryBearish"
  | Mood Bearish => lit "Bearish"
  | Mood Neutral => lit "Neutral"
  | Mood Bullish => lit "Bullish"
  | Mood VeryBullish => lit "VeryBullish"
  | ErrorLabel => lit "Error"
  | ObjectConstructor => lit "function Object() { [native code] }"
  end.

(** The rows of the file of extra texts, one text a line; [None] when no
    such file is named or it cannot be read. *)
Definition extraRowsOf (body : option jsstring) : list Row :=
  match body with
  | None => []
  | Some b =>
      map (fun t => {| row_url := []; row_title := []; row_text := t |})
          (filter nonEmpty (map trim (splitLines b)))
  end.

Definition headerCells : list value :=
  map VStr [lit "url"; lit "title"; lit "label"; lit "score"; lit "summary";
            lit "tickers"].

(** The line written for a row that was scored. *)
Definition resultLine (row : Row) (r : SentimentRecord) : jsstring :=
  csvRow [VStr (row_url row); VStr (row_title row); VStr (labelText (label r));
          VNum (score r); VStr (summary r); VStr (stringifyTickers (tickers r))]
  ++ [LF].

(** [e instanceof Error ? e.message : String(e)]: an error has a message,
    another thrown value is shown by [String]. *)
Definition thrownText (e : Thrown) : jsstring :=
  match e_message e with
  | Some m => m
  | None => e_string e
  end.

(** The line written by the [catch] block of the loop. *)
Definition errorLine (row : Row) (msg : jsstring) : jsstring :=
  csvRow [VStr (row_url row); VStr (row_title row); VStr (lit "Error");
          VStr []; VStr msg; VStr (lit "{}")]
  ++ [LF].

(** The loop over the rows: [oracles i] answers the requests made for the
    row at position [i]; [out] is what has been written to the output file,
    one string a [writeFile], and [log] the requests and pauses so far. *)
Fixpoint scoreRows (MAX_TEXT_CHARS REQUEST_DELAY_MS : number)
  (oracles : nat -> Oracle) (i : nat) (rows : list Row)
  (out : list jsstring) (log : list Event) : list jsstring * list Event :=
  match rows with
  | [] => (out, log)
  | row :: rest =>
      let '(c, l) := MarketCsv.scoreMarket MAX_TEXT_CHARS (oracles i) (row_text row) in
      let line :=
        match c with
        | Returned r => resultLine row r
        | Threw e => errorLine row (thrownText e)
        end in
      scoreRows MAX_TEXT_CHARS REQUEST_DELAY_MS oracles (S i) rest
        (out ++ [line]) (log ++ l ++ [Sleep REQUEST_DELAY_MS])
  end.

(** [main], once the key is there: [csv] is the text of the input file and
    [extra] that of the file of extra texts. *)
Definition main (MAX_TEXT_CHARS REQUEST_DELAY_MS : number)
  (oracles : nat -> Oracle) (csv : jsstring) (extra : option jsstring)
  : list jsstring * list Event :=
  let rows := parseCSV csv in
  let extraRows := extraRowsOf extra in
  let allRows := extraRows ++ rows in
  scoreRows MAX_TEXT_CHARS REQUEST_DELAY_MS oracles 0 allRows
    [csvRow headerCells ++ [LF]] [].

(* ================================================================= *)
(** * Part IV-c. The page script of [unnamed/part_000] *)

(** [getSentimentLabel]: the comparisons turn the score into a number. *)
Definition getSentimentLabel (score : value) : jsstring :=
  let n := ToNumber score in
  if num_ge n (ofZ 80) then lit "Very Bullish"
  else if num_ge n (ofZ 60) then lit "Bullish"
  else if num_ge n (ofZ 40) then lit "Neutral"
  else if num_ge n (ofZ 20) then lit "Bearish"
  else lit "Very Bearish".

(* ================================================================= *)
(** * Part V. Vocabulary of the statements *)

(** The text is empty or ends with a code unit that is not white space. *)
Definition endsClean (s : jsstring) : Prop :=
  s = [] \/ exists s' c, s = s' ++ [c] /\ isWhiteSpace c = false.

(** A key whose lexicographic order is the order of the numbers that are not
    NaN: class and sign, then exponent, then mantissa. *)
Definition key (x : number) : Z * Z * Z :=
  match x with
  | S754_nan | S754_zero _ => (0, 0, 0)
  | S754_infinity neg => (if neg then -2 else 2, 0, 0)
  | S754_finite true m e => (-1, - e, Zneg m)
  | S754_finite false m e => (1, e, Zpos m)
  end.

Definition lexcmp (a b : Z * Z * Z) : comparison :=
  let '(a1, a2, a3) := a in
  let '(b1, b2, b3) := b in
  match a1 ?= b1 with
  | Eq => match a2 ?= b2 with Eq => a3 ?= b3 | c => c end
  | c => c
  end.

Definition lexlt (a b : Z * Z * Z) : Prop :=
  let '(a1, a2, a3) := a in
  let '(b1, b2, b3) := b in
  a1 < b1 \/ (a1 = b1 /\ (a2 < b2 \/ (a2 = b2 /\ a3 < b3))).

Definition lexle (a b : Z * Z * Z) : Prop :=
  let '(a1, a2, a3) := a in
  let '(b1, b2, b3) := b in
  a1 < b1 \/ (a1 = b1 /\ (a2 < b2 \/ (a2 = b2 /\ a3 <= b3))).


(** An example text, written with apostrophes where the JSON has double
    quotes. *)
Definition json (s : string) : jsstring :=
  map (fun c => if (c =? APOS)%N then QUOTE else c) (lit s).

(** [typeof v === 'string'] *)
Definition isString (v : value) : bool :=
  match v with VStr _ => true | _ => false end.

(** The value is an object or an array: it passes the first test of
    [coerceSentimentShape]. *)
Definition isObject (v : value) : bool := truthy v && typeofObject v.


(** The shape of a ticker symbol: one to six code units, each an upper-case
    letter or a digit. *)
Definition tickerShape (k : jsstring) : Prop :=
  (1 <= List.length k <= 6)%nat /\ forallb isUpperAlnum k = true.

(** The score the loop over a ticker mapping reads from a value that is not
    null: the value itself when it is a number or a string, its [score]
    when it is an object. *)
Definition entryScore (rawVal : value) : option number :=
  match rawVal with
  | VNum _ | VStr _ => parseScore rawVal
  | VArr _ | VObj _ => parseScore (get rawVal (lit "score"))
  | _ => None
  end.

(** [tScore != null && !Number.isNaN(tScore)] *)
Definition usable (t : option number) : bool :=
  match t with
  | Some n => negb (isNaN n)
  | None => false
  end.

(** [entry.ticker || entry.symbol || entry.code] *)
Definition itemKey (entry : value) : value :=
  orElse (orElse (get entry (lit "ticker")) (get entry (lit "symbol")))
         (get entry (lit "code")).

(** Where an entry [(k, info)] of the coerced tickers comes from. *)
Definition tickerOrigin (t : value) (k : jsstring) (info : TickerInfo) : Prop :=
  match t with
  | VObj props =>
      exists rawKey rawVal,
        In (rawKey, rawVal) props
        /\ normalizeTickerKey (VStr rawKey) = Some k
        /\ ((isNullish rawVal = true
             /\ info = {| t_score := num_0; t_explanation := [] |})
            \/ (isNullish rawVal = false
                /\ entryScore rawVal = Some (t_score info)
                /\ isNaN (t_score info) = false))
  | VArr items =>
      exists entry,
        In entry items
        /\ isObject entry = true
        /\ normalizeTickerKey (itemKey entry) = Some k
        /\ parseScore (get entry (lit "score")) = Some (t_score info)
        /\ isNaN (t_score info) = false
  | _ => False
  end.

(** ** Oracles for the examples *)

Definition rateLimitError : Thrown :=
  {| e_type := Some (lit "rate_limit_error");
     e_errorMessage := Some (lit "Too many requests");
     e_name := Some (lit "RateLimitError");
     e_message := Some (lit "429 Too many requests");
     e_string := lit "RateLimitError: 429 Too many requests";
     e_status := VNum num_429;
     e_retryAfter := VUndefined |}.



(** An oracle that follows a script, request after request, and then keeps
    giving [last]. *)
Definition scripted (script : list Outcome) (last : Outcome) : Oracle :=
  fun n _ _ => nth n script last.

(** The pauses of five attempts without retry-after header, in ms. *)
Definition defaultPauses : list number :=
  map ofZ [2000; 4000; 6000; 8000; 10000].

(** ** Vocabulary of the extraction lemmas *)

(** One of the four typographic quotes that [cleanJsonString] rewrites. *)
Definition typographic (c : codeunit) : bool :=
  ((c =? 8220) || (c =? 8221) || (c =? 8216) || (c =? 8217))%N.

(** A code unit that no JSON token contains outside a string literal and that
    ends none: the backtick, the controls and the space, and everything from
    U+00A0 on.  All white space is of this kind. *)
Definition outside (c : codeunit) : Prop :=
  (c = 96 \/ c <= 32 \/ 160 <= c)%N.

(** The rest of a scan, one code unit longer. *)
Definition extendRest {A : Type} (c : codeunit) (o : option (A * jsstring))
  : option (A * jsstring) :=
  match o with
  | Some (a, rest) => Some (a, rest ++ [c])
  | None => None
  end.

(** [rest] is what is left of [s] after a prefix that is not empty. *)
Definition properSuffix (rest s : jsstring) : Prop :=
  exists a, a <> [] /\ s = a ++ rest.


(** ** Vocabulary of the properties of the CSV side *)

(** The code unit [c] does not occur in [s]. *)
Definition lacks (c : codeunit) (s : jsstring) : bool :=
  forallb (fun x => negb (x =? c)%N) s.

(** An answer that can be read, and the record it gives. *)
Definition bearishAnswer : list Block :=
  [ {| b_type := lit "text";
       b_text := Some (json "{'label': 'Bearish', 'score': -0.4, 'summary': 'down'}") |} ].

Definition bearishRecord : SentimentRecord :=
  {| label := Mood Bearish;
     score := decimalToNumber true 4 (-1);
     summary := lit "down";
     tickers := [] |}.

(** The record that the line of a row shows: the result of [scoreMarket],
    and for a thrown value what the [catch] block of [main] writes. *)
Definition rowRecord (M : number) (oracle : Oracle) (row : Row) : SentimentRecord :=
  match fst (MarketCsv.scoreMarket M oracle (row_text row)) with
  | Returned r => r
  | Threw e => errorRecord (thrownText e)
  end.

(** The records of the rows, the first of which is at position [i]. *)
Fixpoint rowRecords (M : number) (oracles : nat -> Oracle) (i : nat)
  (rows : list Row) : list SentimentRecord :=
  match rows with
  | [] => []
  | row :: rest => rowRecord M (oracles i) row :: rowRecords M oracles (S i) rest
  end.

(** The lines of rows that were scored. *)
Fixpoint writtenLines (rows : list Row) (records : list SentimentRecord)
  : list jsstring :=
  match rows, records with
  | row :: rows', r :: records' => resultLine row r :: writtenLines rows' records'
  | _, _ => []
  end.

(** What a second run reads from the line of a row: its url, its title and,
    as text, the summary of its record. *)
Fixpoint rereadRows (rows : list Row) (records : list SentimentRecord)
  : list Row :=
  match rows, records with
  | row :: rows', r :: records' =>
      {| row_url := row_url row; row_title := row_title row; row_text := summary r |}
      :: rereadRows rows' records'
  | _, _ => []
  end.

(** ** Vocabulary of the properties of the tickers *)

(** What the loop over a ticker mapping stores for a value, when it stores
    something: score 0 for null, the parsed score of a number or string,
    the parsed score and the explanation of an object. *)
Definition entryInfo (rawVal : value) : option TickerInfo :=
  if isNullish rawVal then Some {| t_score := num_0; t_explanation := [] |}
  else
    match entryScore rawVal with
    | Some sc =>
        if isNaN sc then None
        else Some {| t_score := sc;
                     t_explanation :=
                       match rawVal with
                       | VArr _ | VObj _ => stringOrEmpty (get rawVal (lit "explanation"))
                       | _ => []
                       end |}
    | None => None
    end.

(** What the loop over a ticker array stores for an item, when it stores
    something. *)
Definition itemInfo (entry : value) : option TickerInfo :=
  if isObject entry then
    match parseScore (get entry (lit "score")) with
    | Some sc =>
        if isNaN sc then None
        else Some {| t_score := sc;
                     t_explanation := stringOrEmpty (get entry (lit "explanation")) |}
    | None => None
    end
  else None.

(** The tickers of a record as the object they are: each key with its
    [{ score, explanation }]. *)
Definition tickersValue (t : Tickers) : value :=
  VObj (map (fun e =>
               (fst e,
                VObj [(lit "score", VNum (t_score (snd e)));
                      (lit "explanation", VStr (t_explanation (snd e)))]))
            t).

(** The object [{ label, score, summary, tickers }] that
    [coerceSentimentShape] returns, for a record whose label is one of the
    five label strings. *)
Definition recordValue (r : SentimentRecord) : value :=
  VObj [(lit "label", VStr (labelText (label r)));
        (lit "score", VNum (score r));
        (lit "summary", VStr (summary r));
        (lit "tickers", tickersValue (tickers r))].

(** ** Vocabulary of the properties of the page script *)

(** The five labels of the page, from the most bearish to the most
    bullish. *)
Definition labelRank (s : jsstring) : nat :=
  if str_eqb s (lit "Very Bullish") then 4
  else if str_eqb s (lit "Bullish") then 3
  else if str_eqb s (lit "Neutral") then 2
  else if str_eqb s (lit "Bearish") then 1
  else 0.

(* ================================================================= *)
(** * Part VI. Lemmas on the host language *)

Arguments isWhiteSpace : simpl never.
Arguments isJsonWs : simpl never.
Arguments isDigit : simpl never.
Arguments isUpperAlnum : simpl never.

Lemma str_eqb_eq (a b : jsstring) : str_eqb a b = true <-> a = b.
Proof.
  revert b; induction a as [|x a IH]; intros [|y b]; simpl; split;
    try congruence; try reflexivity.
  - intros H. apply andb_prop in H as [H1 H2].
    apply N.eqb_eq in H1. apply IH in H2. congruence.
  - intros H. injection H as -> ->. rewrite N.eqb_refl. simpl. now apply IH.
Qed.

Lemma str_eqb_refl (a : jsstring) : str_eqb a a = true.
Proof. now apply str_eqb_eq. Qed.

(** ** Trimming *)

Lemma dropWhile_all (p : codeunit -> bool) (s : jsstring) :
  forallb p s = true -> dropWhile p s = [].
Proof.
  induction s as [|c r IH]; simpl; [reflexivity|].
  intros H. apply andb_prop in H as [-> H]. now apply IH.
Qed.

Lemma forallb_rev (p : codeunit -> bool) (s : jsstring) :
  forallb p (rev s) = forallb p s.
Proof.
  induction s as [|c r IH]; simpl; [reflexivity|].
  rewrite forallb_app, IH. simpl. rewrite andb_true_r. apply andb_comm.
Qed.

Lemma trim_all_space (s : jsstring) :
  forallb isWhiteSpace s = true -> trim s = [].
Proof.
  intros H. unfold trim, trimEnd.
  rewrite dropWhile_all by now rewrite forallb_rev. reflexivity.
Qed.

Lemma trimEnd_snoc (s : jsstring) (c : codeunit) :
  trimEnd (s ++ [c]) = if isWhiteSpace c then trimEnd s else s ++ [c].
Proof.
  unfold trimEnd. rewrite rev_app_distr. simpl.
  destruct (isWhiteSpace c); [reflexivity|].
  simpl. now rewrite rev_involutive.
Qed.

Lemma trimEnd_endsClean (s : jsstring) : endsClean (trimEnd s).
Proof.
  induction s as [|c s IH] using rev_ind.
  - now left.
  - rewrite trimEnd_snoc. destruct (isWhiteSpace c) eqn:E; [exact IH|].
    right. now exists s, c.
Qed.

Lemma trimEnd_fixed (s : jsstring) : endsClean s -> trimEnd s = s.
Proof.
  intros [->|(s' & c & -> & H)]; [reflexivity|].
  now rewrite trimEnd_snoc, H.
Qed.

Lemma dropWhile_endsClean (p : codeunit -> bool) (s : jsstring) :
  endsClean s -> endsClean (dropWhile p s).
Proof.
  intros [->|(s' & c & -> & H)]; [now left|].
  induction s' as [|x s' IH]; simpl.
  - destruct (p c); [now left|]. right. now exists [], c.
  - destruct (p x); [exact IH|]. right. now exists (x :: s'), c.
Qed.

Lemma trimStart_fixed (s : jsstring) :
  match s with [] => True | c :: _ => isWhiteSpace c = false end ->
  trimStart s = s.
Proof.
  destruct s as [|c r]; [reflexivity|].
  intros H. unfold trimStart. cbn [dropWhile]. now rewrite H.
Qed.

Lemma dropWhile_head (p : codeunit -> bool) (s : jsstring) :
  match dropWhile p s with [] => True | c :: _ => p c = false end.
Proof.
  induction s as [|c r IH]; simpl; [exact I|].
  destruct (p c) eqn:E; [exact IH|exact E].
Qed.

Lemma trim_idempotent (s : jsstring) : trim (trim s) = trim s.
Proof.
  unfold trim at 1.
  rewrite trimEnd_fixed.
  - apply trimStart_fixed. apply (dropWhile_head isWhiteSpace).
  - apply dropWhile_endsClean, trimEnd_endsClean.
Qed.

Lemma trim_nil : trim [] = [].
Proof. reflexivity. Qed.

(** ** The order of numbers *)

Lemma SFcompare_key (x y : number) :
  isNaN x = false -> isNaN y = false ->
  SFcompare x y = Some (lexcmp (key x) (key y)).
Proof.
  destruct x as [sx|sx| |sx mx ex], y as [sy|sy| |sy my ey];
    try discriminate; intros _ _;
    try destruct sx; try destruct sy; try reflexivity.
  cbn [SFcompare key lexcmp]. f_equal.
  rewrite Z.compare_opp, (Z.compare_antisym ex ey).
  change (Z.neg mx ?= Z.neg my) with (CompOpp (mx ?= my)%positive).
  change (Pos.compare_cont Eq mx my) with (mx ?= my)%positive.
  change (-1 ?= -1) with Eq. cbv iota.
  now destruct (ex ?= ey).
Qed.

Lemma lexcmp_lt (a b : Z * Z * Z) : lexcmp a b = Lt <-> lexlt a b.
Proof.
  destruct a as [[a1 a2] a3], b as [[b1 b2] b3]. unfold lexcmp, lexlt.
  destruct (Z.compare_spec a1 b1), (Z.compare_spec a2 b2), (Z.compare_spec a3 b3);
    split; intros; try discriminate; try reflexivity; lia.
Qed.

Lemma lexcmp_le (a b : Z * Z * Z) : lexcmp a b <> Gt <-> lexle a b.
Proof.
  destruct a as [[a1 a2] a3], b as [[b1 b2] b3]. unfold lexcmp, lexle.
  destruct (Z.compare_spec a1 b1), (Z.compare_spec a2 b2), (Z.compare_spec a3 b3);
    split; intros; try discriminate; try congruence; lia.
Qed.

Lemma num_lt_reflect (x y : number) :
  isNaN x = false -> isNaN y = false ->
  reflect (lexlt (key x) (key y)) (num_lt x y).
Proof.
  intros Hx Hy. unfold num_lt, SFltb. rewrite (SFcompare_key _ _ Hx Hy).
  destruct (lexcmp (key x) (key y)) eqn:E; constructor;
    rewrite <- lexcmp_lt; congruence.
Qed.

Lemma num_le_reflect (x y : number) :
  isNaN x = false -> isNaN y = false ->
  reflect (lexle (key x) (key y)) (num_le x y).
Proof.
  intros Hx Hy. unfold num_le, SFleb. rewrite (SFcompare_key _ _ Hx Hy).
  destruct (lexcmp (key x) (key y)) eqn:E; constructor;
    rewrite <- lexcmp_le; congruence.
Qed.

(** ** Rounding never yields NaN *)

Lemma iter_pos_inv {A : Type} (P : A -> Prop) (f : A -> A) :
  (forall x, P x -> P (f x)) ->
  forall (p : positive) (x : A), P x -> P (iter_pos f p x).
Proof.
  intros Hf. induction p as [p IH|p IH|]; intros x Hx; simpl; auto.
Qed.

Lemma shr_1_nonneg (mrs : shr_record) : 0 <= shr_m mrs -> 0 <= shr_m (shr_1 mrs).
Proof.
  destruct mrs as [m r s]. simpl.
  destruct m as [|p|p]; [intros _; simpl; lia| |intros H; lia].
  intros _. destruct p; simpl; lia.
Qed.

Lemma shr_nonneg (mrs : shr_record) (e n : Z) :
  0 <= shr_m mrs -> 0 <= shr_m (fst (shr mrs e n)).
Proof.
  intros H. unfold shr. destruct n as [|p|p]; simpl; auto.
  apply (iter_pos_inv (fun x => 0 <= shr_m x)); auto using shr_1_nonneg.
Qed.

Lemma shr_fexp_nonneg (m e : Z) (l : location) :
  0 <= m -> 0 <= shr_m (fst (shr_fexp prec emax m e l)).
Proof.
  intros H. unfold shr_fexp. apply shr_nonneg.
  destruct l as [|[]]; simpl; exact H.
Qed.

Lemma round_nearest_even_nonneg (m : Z) (l : location) :
  0 <= m -> 0 <= round_nearest_even m l.
Proof.
  intros H. unfold round_nearest_even.
  destruct l as [|[]]; try destruct (Z.even m); lia.
Qed.

Lemma binary_round_aux_not_nan (sx : bool) (mx ex : Z) (lx : location) :
  0 <= mx -> isNaN (binary_round_aux prec emax sx mx ex lx) = false.
Proof.
  intros H. unfold binary_round_aux.
  pose proof (shr_fexp_nonneg mx ex lx H) as H1.
  destruct (shr_fexp prec emax mx ex lx) as [mrs' e'].
  simpl in H1.
  pose proof (shr_fexp_nonneg _ e' loc_Exact
                (round_nearest_even_nonneg _ (loc_of_shr_record mrs') H1)) as H2.
  destruct (shr_fexp prec emax _ e' loc_Exact) as [mrs'' e''].
  simpl in H2.
  destruct (shr_m mrs'') as [|p|p]; [reflexivity| |lia].
  now destruct (e'' <=? emax - prec).
Qed.

Lemma num_div_100_not_nan (n : number) :
  isNaN n = false -> isNaN (num_div n num_100) = false.
Proof.
  destruct n as [s|s| |s m e]; try discriminate; intros _; try reflexivity.
  unfold num_div, num_100, SFdiv.
  destruct (SFdiv_core_binary prec emax (Z.pos m) e 7036874417766400 (-46))
    as [[mz ez] lz] eqn:E.
  apply binary_round_aux_not_nan.
  unfold SFdiv_core_binary in E.
  set (m' := match _ - _ - _ with Z0 => _ | Z.pos _ => _ | Z.neg _ => _ end) in E.
  assert (Hm : 0 <= m').
  { subst m'. destruct (_ - _ - _); try lia. apply Z.shiftl_nonneg. lia. }
  pose proof (Z_div_mod m' 7036874417766400 eq_refl) as D.
  destruct (Z.div_eucl m' 7036874417766400) as [q r].
  injection E as <- _ _. nia.
Qed.

(** ** [Math.min] and [Math.max] stay between their arguments *)

Lemma Math_min_spec (x y : number) :
  isNaN x = false -> isNaN y = false ->
  isNaN (Math_min x y) = false
  /\ lexle (key (Math_min x y)) (key x)
  /\ lexle (key (Math_min x y)) (key y)
  /\ (key (Math_min x y) = key x \/ key (Math_min x y) = key y).
Proof.
  intros Hx Hy. unfold Math_min.
  pose proof (SFcompare_key _ _ Hx Hy) as E. rewrite E.
  pose proof (lexcmp_lt (key x) (key y)) as L.
  pose proof (lexcmp_lt (key y) (key x)) as G.
  pose proof (lexcmp_le (key x) (key y)) as LE.
  pose proof (lexcmp_le (key y) (key x)) as GE.
  assert (EQ : lexcmp (key x) (key y) = Eq -> key x = key y).
  { destruct (key x) as [[a b] c], (key y) as [[a' b'] c']. unfold lexcmp.
    destruct (Z.compare_spec a a'), (Z.compare_spec b b'), (Z.compare_spec c c');
      try discriminate. intros _. congruence. }
  destruct (key x) as [[a b] c] eqn:Kx, (key y) as [[a' b'] c'] eqn:Ky.
  unfold lexlt, lexle in *.
  destruct (lexcmp (a, b, c) (a', b', c')) eqn:C.
  - specialize (EQ eq_refl). injection EQ as -> -> ->.
    assert (K : key (match y with S754_zero true => y | _ => x end) = (a', b', c')).
    { destruct y as [[]| | |]; assumption. }
    assert (N : isNaN (match y with S754_zero true => y | _ => x end) = false).
    { destruct y as [[]| | |]; assumption. }
    rewrite K. repeat split; auto; lia.
  - rewrite Kx. repeat split; auto; try lia.
    destruct L as [L _]. specialize (L eq_refl). lia.
  - rewrite Ky. repeat split; auto; try lia.
    assert (lexcmp (a', b', c') (a, b, c) = Lt) as C'.
    { revert C. unfold lexcmp.
      destruct (Z.compare_spec a a'), (Z.compare_spec b b'), (Z.compare_spec c c'),
        (Z.compare_spec a' a), (Z.compare_spec b' b), (Z.compare_spec c' c);
        try discriminate; try reflexivity; lia. }
    destruct G as [G _]. specialize (G C'). lia.
Qed.

Lemma Math_max_spec (x y : number) :
  isNaN x = false -> isNaN y = false ->
  isNaN (Math_max x y) = false
  /\ lexle (key x) (key (Math_max x y))
  /\ lexle (key y) (key (Math_max x y))
  /\ (key (Math_max x y) = key x \/ key (Math_max x y) = key y).
Proof.
  intros Hx Hy. unfold Math_max.
  pose proof (SFcompare_key _ _ Hx Hy) as E. rewrite E.
  pose proof (lexcmp_lt (key x) (key y)) as L.
  assert (EQ : lexcmp (key x) (key y) = Eq -> key x = key y).
  { destruct (key x) as [[a b] c], (key y) as [[a' b'] c']. unfold lexcmp.
    destruct (Z.compare_spec a a'), (Z.compare_spec b b'), (Z.compare_spec c c');
      try discriminate. intros _. congruence. }
  assert (GT : lexcmp (key x) (key y) = Gt -> lexlt (key y) (key x)).
  { destruct (key x) as [[a b] c], (key y) as [[a' b'] c']. unfold lexcmp, lexlt.
    destruct (Z.compare_spec a a'), (Z.compare_spec b b'), (Z.compare_spec c c');
      try discriminate; intros _; lia. }
  destruct (key x) as [[a b] c] eqn:Kx, (key y) as [[a' b'] c'] eqn:Ky.
  unfold lexlt, lexle in *.
  destruct (lexcmp (a, b, c) (a', b', c')) eqn:C.
  - specialize (EQ eq_refl). injection EQ as -> -> ->.
    assert (K : key (match y with S754_zero false => y | _ => x end) = (a', b', c')).
    { destruct y as [[]| | |]; assumption. }
    assert (N : isNaN (match y with S754_zero false => y | _ => x end) = false).
    { destruct y as [[]| | |]; assumption. }
    rewrite K. repeat split; auto; lia.
  - rewrite Ky. repeat split; auto; try lia.
    destruct L as [L _]. specialize (L eq_refl). lia.
  - rewrite Kx. repeat split; auto; try lia.
    specialize (GT eq_refl). lia.
Qed.

(* ================================================================= *)
(** * Part VII. The coercer *)

Lemma StringToNumber_trim (s : jsstring) :
  StringToNumber (trim s) = StringToNumber s.
Proof. unfold StringToNumber. now rewrite trim_idempotent. Qed.

(** [coerceSentimentShape] on an object or array, in one piece. *)
Lemma coerce_object (obj : value) :
  isObject obj = true ->
  coerceSentimentShape obj =
    match parseScore (get obj (lit "score")) with
    | Some n =>
        if isNaN n then None
        else Some {| label := match normalizeLabel (get obj (lit "label")) with
                              | Some l => l
                              | None => Mood (inferLabel n)
                              end;
                     score := n;
                     summary := match pickSummary obj with
                                | Some s => s
                                | None => []
                                end;
                     tickers := coerceTickers (get obj (lit "tickers")) |}
    | None => None
    end.
Proof.
  unfold isObject, coerceSentimentShape. intros H.
  apply andb_prop in H as [-> ->]. cbn [negb orb].
  destruct (normalizeLabel _), (parseScore _) as [n|]; try reflexivity;
    now destruct (isNaN n).
Qed.

Lemma coerce_not_object (obj : value) :
  isObject obj = false -> coerceSentimentShape obj = None.
Proof.
  unfold isObject, coerceSentimentShape. intros H.
  destruct (truthy obj), (typeofObject obj); try discriminate; reflexivity.
Qed.


(** The five intervals cover every number that is not NaN. *)
Lemma inferLabel_cases (s : number) :
  isNaN s = false ->
  num_le s num_m0_6 = true
  \/ (num_lt num_m0_6 s = true /\ num_lt s num_m0_2 = true)
  \/ (num_le num_m0_2 s = true /\ num_le s num_0_2 = true)
  \/ (num_lt num_0_2 s = true /\ num_lt s num_0_6 = true)
  \/ num_le num_0_6 s = true.
Proof.
  intros Hs.
  destruct (num_le_reflect s num_m0_6 Hs eq_refl) as [A|A]; [now left|].
  destruct (num_lt_reflect num_m0_6 s eq_refl Hs) as [A'|A'];
  destruct (num_lt_reflect s num_m0_2 Hs eq_refl) as [B|B];
  destruct (num_le_reflect num_m0_2 s eq_refl Hs) as [B'|B'];
  destruct (num_le_reflect s num_0_2 Hs eq_refl) as [C|C];
  destruct (num_lt_reflect num_0_2 s eq_refl Hs) as [C'|C'];
  destruct (num_lt_reflect s num_0_6 Hs eq_refl) as [D|D];
  destruct (num_le_reflect num_0_6 s eq_refl Hs) as [D'|D'];
  auto 10; exfalso;
  destruct (key s) as [[k1 k2] k3];
  unfold lexlt, lexle, key, num_m0_6, num_m0_2, num_0_2, num_0_6 in *; lia.
Qed.




(** ** [parseScore] *)

Lemma parseScore_number (n : number) : parseScore (VNum n) = Some n.
Proof. reflexivity. Qed.

(** A string without a percent sign: the number it denotes, divided by 100
    in the two percent ranges. *)
Lemma parseScore_plain (s : jsstring) :
  endsWith [PERCENT] (trim s) = false ->
  isNaN (StringToNumber s) = false ->
  parseScore (VStr s) =
    Some (let n := StringToNumber s in
          if (num_gt n num_1 && num_le n num_100)
             || (num_lt n num_m1 && num_ge n num_m100)
          then num_div n num_100 else n).
Proof.
  intros Hp Hn. unfold parseScore. rewrite Hp, StringToNumber_trim, Hn.
  cbv zeta.
  destruct (num_gt _ num_1 && num_le _ num_100); [reflexivity|].
  now destruct (num_lt _ num_m1 && num_ge _ num_m100).
Qed.

Lemma clamp_bounds (x : number) :
  isNaN x = false ->
  let r := Math_max num_m1 (Math_min num_1 x) in
  isNaN r = false /\ num_le num_m1 r = true /\ num_le r num_1 = true.
Proof.
  intros Hx r.
  destruct (Math_min_spec num_1 x eq_refl Hx) as (N1 & L1 & _ & _).
  destruct (Math_max_spec num_m1 (Math_min num_1 x) eq_refl N1)
    as (N2 & L2 & _ & [K|K]); fold r in N2, L2, K.
  - split; [exact N2|]. split.
    + now destruct (num_le_reflect num_m1 r eq_refl N2).
    + destruct (num_le_reflect r num_1 N2 eq_refl) as [|C]; [reflexivity|].
      exfalso. apply C. rewrite K. unfold lexle, key, num_m1, num_1. lia.
  - split; [exact N2|]. split.
    + now destruct (num_le_reflect num_m1 r eq_refl N2).
    + destruct (num_le_reflect r num_1 N2 eq_refl) as [|C]; [reflexivity|].
      exfalso. apply C. now rewrite K.
Qed.

(** C2 (as amended).  For a numeric string without percent sign whose value
    n lies in (1, 100] or in [-100, -1), [parseScore] returns n / 100; for a
    string whose trimmed text ends in a percent sign and whose numeric part
    has the value n, it returns n / 100 clamped to [-1, 1].  So the strings
    80, -50 and 75% give 0.8, -0.5 and 0.75. *)
Theorem C2_string_scores_rescaled :
  (forall (s : jsstring) (n : number),
      endsWith [PERCENT] (trim s) = false ->
      StringToNumber s = n ->
      isNaN n = false ->
      (num_gt n num_1 = true /\ num_le n num_100 = true)
      \/ (num_lt n num_m1 = true /\ num_ge n num_m100 = true) ->
      parseScore (VStr s) = Some (num_div n num_100))
  /\ (forall (s : jsstring) (n : number),
         endsWith [PERCENT] (trim s) = true ->
         StringToNumber (removelast (trim s)) = n ->
         isNaN n = false ->
         exists r,
           parseScore (VStr s) = Some r
           /\ r = Math_max num_m1 (Math_min num_1 (num_div n num_100))
           /\ num_le num_m1 r = true
           /\ num_le r num_1 = true)
  /\ parseScore (VStr (lit "80")) = Some (decimalToNumber false 8 (-1))
  /\ parseScore (VStr (lit "-50")) = Some (decimalToNumber true 5 (-1))
  /\ parseScore (VStr (lit "75%")) = Some (decimalToNumber false 75 (-2)).
Proof.
  split; [|split; [|repeat split; vm_compute; reflexivity]].
  - intros s n Hp <- Hn Hrange. rewrite (parseScore_plain s Hp Hn). cbv zeta.
    destruct Hrange as [[-> ->]|[-> ->]]; [reflexivity|].
    now rewrite orb_true_r.
  - intros s n Hp Hs Hn. unfold parseScore. rewrite Hp, Hs, Hn.
    destruct (clamp_bounds (num_div n num_100) (num_div_100_not_nan n Hn))
      as (_ & L & U).
    eexists. repeat split; eauto.
Qed.

Lemma C2_string_scores_rescaled_witness :
  parseScore (VStr (lit " 42 ")) = Some (num_div (ofZ 42) num_100)
  /\ exists r, parseScore (VStr (lit "250 %")) = Some r /\ r = num_1.
Proof.
  destruct C2_string_scores_rescaled as (A & B & _).
  split.
  - apply (A (lit " 42 ") (ofZ 42)); vm_compute; auto.
  - destruct (B (lit "250 %") (ofZ 250)) as (r & H1 & H2 & _);
      [vm_compute; reflexivity ..|].
    exists r. split; [exact H1|]. rewrite H2. vm_compute. reflexivity.
Defined.

(** The claim as stated also covers a score given as a number; a number is
    returned as it is, so 80 stays 80. *)
Lemma C2_counterexample_number_80 :
  ~ (forall (v : value) (n : number),
       (v = VNum n \/ exists s, v = VStr s /\ StringToNumber s = n) ->
       isNaN n = false ->
       (num_gt n num_1 = true /\ num_le n num_100 = true)
       \/ (num_lt n num_m1 = true /\ num_ge n num_m100 = true) ->
       parseScore v = Some (num_div n num_100)).
Proof.
  intros H.
  specialize (H (VNum (ofZ 80)) (ofZ 80) (or_introl eq_refl) eq_refl).
  assert (num_gt (ofZ 80) num_1 = true /\ num_le (ofZ 80) num_100 = true) as R
      by (vm_compute; auto).
  specialize (H (or_introl R)). vm_compute in H. discriminate.
Qed.

(** ** Final acceptance *)



(** ** The summary *)

(** C8 (as amended).  The summary of the record is the first of the fields
    summary, reason, explanation that holds a string, empty or not, and the
    empty string when none does.  An empty summary field therefore wins over
    a reason. *)
Theorem C8_summary_first_string (obj : value) (r : SentimentRecord) :
  coerceSentimentShape obj = Some r ->
  (forall s, get obj (lit "summary") = VStr s -> summary r = s)
  /\ (isString (get obj (lit "summary")) = false ->
      forall s, get obj (lit "reason") = VStr s -> summary r = s)
  /\ (isString (get obj (lit "summary")) = false ->
      isString (get obj (lit "reason")) = false ->
      forall s, get obj (lit "explanation") = VStr s -> summary r = s)
  /\ (isString (get obj (lit "summary")) = false ->
      isString (get obj (lit "reason")) = false ->
      isString (get obj (lit "explanation")) = false ->
      summary r = []).
Proof.
  intros Hr.
  destruct (isObject obj) eqn:Hobj;
    [|now rewrite (coerce_not_object _ Hobj) in Hr].
  rewrite (coerce_object _ Hobj) in Hr.
  destruct (parseScore _) as [n|]; [|discriminate].
  destruct (isNaN n); [discriminate|].
  injection Hr as <-. cbn [summary]. unfold pickSummary.
  repeat split.
  - now intros s ->.
  - intros H1 s H2. rewrite H2. now destruct (get obj (lit "summary")).
  - intros H1 H2 s H3. rewrite H3.
    now destruct (get obj (lit "summary")), (get obj (lit "reason")).
  - intros H1 H2 H3.
    now destruct (get obj (lit "summary")), (get obj (lit "reason")),
      (get obj (lit "explanation")).
Qed.

Lemma C8_summary_first_string_witness :
  exists r,
    coerceSentimentShape
      (safeParseJson (json "{'label': 'Bullish', 'score': 0.5, 'summary': 7, 'reason': 'rally'}"))
    = Some r
    /\ summary r = lit "rally".
Proof.
  eexists. split; [vm_compute; reflexivity|].
  refine (proj1 (proj2 (C8_summary_first_string
            (safeParseJson (json "{'label': 'Bullish', 'score': 0.5, 'summary': 7, 'reason': 'rally'}"))
            _ _)) _ _ _); vm_compute; reflexivity.
Defined.

(** The claim as stated: an empty summary field gives way to a reason that
    is not empty.  The source keeps the empty summary. *)
Lemma C8_counterexample_empty_summary :
  ~ (forall (obj : value) (r : SentimentRecord) (reason : jsstring),
       get obj (lit "summary") = VStr [] ->
       get obj (lit "reason") = VStr reason ->
       reason <> [] ->
       coerceSentimentShape obj = Some r ->
       summary r = reason).
Proof.
  intros H.
  pose (obj := safeParseJson
                 (json "{'label': 'Bullish', 'score': 0.5, 'summary': '', 'reason': 'rally'}")).
  destruct (coerceSentimentShape obj) as [r|] eqn:E; [|vm_compute in E; discriminate].
  specialize (H obj r (lit "rally")).
  assert (summary r = lit "rally") as S.
  { apply H; try (vm_compute; reflexivity); [discriminate|exact E]. }
  vm_compute in E. injection E as <-. vm_compute in S. discriminate.
Qed.

(** ** An empty score *)



(* ================================================================= *)
(** * Part VIII. Tickers *)

Lemma setProp_In {A : Type} (k k' : jsstring) (v v' : A) (l : list (jsstring * A)) :
  In (k, v) (setProp k' v' l) -> (k = k' /\ v = v') \/ In (k, v) l.
Proof.
  induction l as [|[k0 v0] l IH]; simpl.
  - intros [H|[]]. injection H as <- <-. now left.
  - destruct (str_eqb k' k0); simpl.
    + intros [H|H]; [injection H as <- <-; now left|right; now right].
    + intros [H|H]; [right; now left|].
      destruct (IH H) as [?|?]; [now left|right; now right].
Qed.

Lemma setProp_lookup {A : Type} (k : jsstring) (v : A) (l : list (jsstring * A)) :
  lookup k (setProp k v l) = Some v.
Proof.
  induction l as [|[k0 v0] l IH]; simpl.
  - now rewrite str_eqb_refl.
  - destruct (str_eqb k k0) eqn:E; simpl.
    + now rewrite str_eqb_refl.
    + now rewrite E.
Qed.

Lemma lookup_In {A : Type} (k : jsstring) (v : A) (l : list (jsstring * A)) :
  lookup k l = Some v -> In (k, v) l.
Proof.
  induction l as [|[k0 v0] l IH]; simpl; [discriminate|].
  destruct (str_eqb k k0) eqn:E.
  - apply str_eqb_eq in E. intros H. injection H as <-. subst. now left.
  - intros H. right. now apply IH.
Qed.

Lemma lookup_None {A : Type} (k : jsstring) (l : list (jsstring * A)) :
  (forall v, ~ In (k, v) l) -> lookup k l = None.
Proof.
  intros H. destruct (lookup k l) as [v|] eqn:E; [|reflexivity].
  exfalso. apply (H v). now apply lookup_In.
Qed.

Lemma normalizeTickerKey_shape (v : value) (k : jsstring) :
  normalizeTickerKey v = Some k ->
  tickerShape k /\ exists s, v = VStr s /\ k = toUpperCase (trim s).
Proof.
  unfold normalizeTickerKey, tickerShape.
  destruct v as [| | | |s| |]; try discriminate.
  destruct (toUpperCase (trim s)) as [|c up] eqn:E; [discriminate|].
  destruct (6 <? List.length (c :: up))%nat eqn:L; [discriminate|].
  destruct (forallb isUpperAlnum (c :: up)) eqn:F; [|discriminate].
  cbn [negb orb]. intros H. injection H as <-.
  apply Nat.ltb_ge in L. repeat split; try assumption.
  - simpl. lia.
  - exists s. now split.
Qed.

Lemma insertByIndex_In (i : Z) (e : jsstring * value) (l : list (Z * (jsstring * value)))
  (x : Z * (jsstring * value)) :
  In x (insertByIndex i e l) -> x = (i, e) \/ In x l.
Proof.
  induction l as [|[j e'] l IH]; simpl.
  - intros [H|[]]. now left.
  - destruct (i <? j); simpl.
    + intros [H|H]; [now left|now right].
    + intros [H|H]; [right; now left|].
      destruct (IH H); [now left|right; now right].
Qed.

Lemma entries_In (props : list (jsstring * value)) (e : jsstring * value) :
  In e (entries props) -> In e props.
Proof.
  unfold entries. rewrite in_app_iff. intros [H|H].
  - apply in_map_iff in H as ([i e'] & <- & H). simpl.
    assert (G : forall l acc,
               (forall x, In x acc -> In (snd x) props) ->
               (forall x, In x l -> In x props) ->
               forall x,
                 In x (fold_left
                         (fun acc e =>
                            match arrayIndex (fst e) with
                            | Some i => insertByIndex i e acc
                            | None => acc
                            end) l acc) ->
                 In (snd x) props).
    { induction l as [|a l IH]; simpl; intros acc Hacc Hl x Hx; [now apply Hacc|].
      apply (IH _) in Hx; [exact Hx| |intros; apply Hl; now right].
      intros y Hy. destruct (arrayIndex (fst a)); [|now apply Hacc].
      apply insertByIndex_In in Hy as [->|Hy]; [|now apply Hacc].
      simpl. apply Hl. now left. }
    apply (G props [] (fun x (F : In x []) => match F with end) (fun x F => F) _ H).
  - now apply filter_In in H as [H _].
Qed.

(** One turn of the loop over a mapping adds at most an entry with an origin. *)
Lemma tickerFromEntry_In (acc : Tickers) (rawKey : jsstring) (rawVal : value)
  (k : jsstring) (info : TickerInfo) :
  In (k, info) (tickerFromEntry acc (rawKey, rawVal)) ->
  In (k, info) acc
  \/ (normalizeTickerKey (VStr rawKey) = Some k
      /\ ((isNullish rawVal = true
           /\ info = {| t_score := num_0; t_explanation := [] |})
          \/ (isNullish rawVal = false
              /\ entryScore rawVal = Some (t_score info)
              /\ isNaN (t_score info) = false))).
Proof.
  unfold tickerFromEntry.
  destruct (normalizeTickerKey (VStr rawKey)) as [key|] eqn:K; [|now left].
  destruct (isNullish rawVal) eqn:N.
  - intros H. apply setProp_In in H as [[-> ->]|H]; [|now left].
    right. split; [reflexivity|]. now left.
  - unfold entryScore.
    destruct rawVal as [| | |n|s|l|props]; try discriminate; try (now left);
      match goal with
      | |- context [parseScore ?v] =>
          destruct (parseScore v) as [sc|] eqn:P; [|now left]
      end;
      (destruct (isNaN sc) eqn:Hn; [now left|]);
      intros H; apply setProp_In in H as [[-> ->]|H]; try (now left);
      right; (split; [reflexivity|]); right; cbn [t_score]; auto.
Qed.

Lemma tickerFromItem_In (acc : Tickers) (entry : value)
  (k : jsstring) (info : TickerInfo) :
  In (k, info) (tickerFromItem acc entry) ->
  In (k, info) acc
  \/ (isObject entry = true
      /\ normalizeTickerKey (itemKey entry) = Some k
      /\ parseScore (get entry (lit "score")) = Some (t_score info)
      /\ isNaN (t_score info) = false).
Proof.
  unfold tickerFromItem, isObject. fold (itemKey entry).
  destruct (truthy entry), (typeofObject entry); cbn [negb orb andb];
    try (now left).
  destruct (normalizeTickerKey (itemKey entry)) as [key|]; [|now left].
  destruct (parseScore _) as [sc|]; [|now left].
  destruct (isNaN sc) eqn:Hn; [now left|].
  intros H. apply setProp_In in H as [[-> ->]|H]; [|now left].
  right. cbn [t_score]. auto.
Qed.

Lemma fold_origin {E : Type} (step : Tickers -> E -> Tickers)
  (origin : jsstring -> TickerInfo -> Prop) (source : list E) :
  (forall acc e k info,
      In e source -> In (k, info) (step acc e) ->
      In (k, info) acc \/ origin k info) ->
  forall (l : list E) (acc : Tickers),
    (forall e, In e l -> In e source) ->
    (forall k info, In (k, info) acc -> origin k info) ->
    forall k info, In (k, info) (fold_left step l acc) -> origin k info.
Proof.
  intros Hstep. induction l as [|e l IH]; simpl; intros acc Hl Hacc k info H.
  - now apply Hacc.
  - apply (IH (step acc e)); [intros; apply Hl; now right| |exact H].
    intros k' info' H'.
    destruct (Hstep acc e k' info' (Hl e (or_introl eq_refl)) H'); auto.
Qed.

Lemma coerceTickers_origin (t : value) (k : jsstring) (info : TickerInfo) :
  In (k, info) (coerceTickers t) -> tickerOrigin t k info.
Proof.
  destruct t as [| | | | |items|props]; simpl; try (intros []).
  - apply (fold_origin tickerFromItem
             (fun k info => tickerOrigin (VArr items) k info) items);
      [|auto|intros ? ? []].
    intros acc e k' info' He H.
    apply tickerFromItem_In in H as [H|H]; [now left|right].
    simpl. exists e. tauto.
  - apply (fold_origin tickerFromEntry
             (fun k info => tickerOrigin (VObj props) k info) (entries props));
      [|auto|intros ? ? []].
    intros acc [rk rv] k' info' He H.
    apply tickerFromEntry_In in H as [H|H]; [now left|right].
    simpl. exists rk, rv. split; [now apply entries_In|exact H].
Qed.

(** C7 (as amended).  Every key of the coerced tickers is an upper-cased
    symbol of one to six letters and digits, and comes from an entry of the
    input whose key normalizes to it and whose value either is null (then the
    entry is kept with score 0 and no explanation) or carries a score that
    parses to a number other than NaN.  So an entry whose key fails the shape
    filter, or whose value is not null and lacks such a score, adds nothing:
    a key that only such entries normalize to is absent from the result. *)
Theorem C7_tickers_filtered (t : value) (k : jsstring) :
  (forall info, In (k, info) (coerceTickers t) ->
     tickerShape k /\ tickerOrigin t k info)
  /\ (forall props,
        t = VObj props ->
        (forall rawKey rawVal,
            In (rawKey, rawVal) props ->
            normalizeTickerKey (VStr rawKey) = Some k ->
            isNullish rawVal = false /\ usable (entryScore rawVal) = false) ->
        lookup k (coerceTickers t) = None)
  /\ (forall items,
        t = VArr items ->
        (forall entry,
            In entry items ->
            normalizeTickerKey (itemKey entry) = Some k ->
            usable (parseScore (get entry (lit "score"))) = false) ->
        lookup k (coerceTickers t) = None).
Proof.
  assert (O : forall info, In (k, info) (coerceTickers t) -> tickerOrigin t k info)
    by (intros; now apply coerceTickers_origin).
  split; [|split].
  - intros info H. split; [|now apply O].
    specialize (O info H).
    destruct t as [| | | | |items|props]; unfold tickerOrigin in O; try contradiction.
    + destruct O as (e & _ & _ & K & _). now apply normalizeTickerKey_shape in K.
    + destruct O as (rk & rv & _ & K & _). now apply normalizeTickerKey_shape in K.
  - intros props -> Hall. apply lookup_None. intros info H.
    destruct (O info H) as (rk & rv & Hin & K & [[N _]|(_ & S & Hn)]);
      destruct (Hall rk rv Hin K) as [N' U]; [congruence|].
    rewrite S in U. simpl in U. now rewrite Hn in U.
  - intros items -> Hall. apply lookup_None. intros info H.
    destruct (O info H) as (e & Hin & _ & K & S & Hn).
    specialize (Hall e Hin K). rewrite S in Hall. simpl in Hall.
    now rewrite Hn in Hall.
Qed.

Lemma C7_tickers_filtered_witness :
  tickerShape (lit "AAPL")
  /\ lookup (lit "MSFT")
       (coerceTickers
          (safeParseJson (json "{'aapl': 0.5, 'msft': 'n/a', 'ms-ft': 1, 'toolongsymbol': 1}")))
     = None.
Proof.
  pose (t := safeParseJson (json "{'aapl': 0.5, 'msft': 'n/a', 'ms-ft': 1, 'toolongsymbol': 1}")).
  split.
  - refine (proj1 (proj1 (C7_tickers_filtered t (lit "AAPL"))
                     {| t_score := decimalToNumber false 5 (-1); t_explanation := [] |} _)).
    vm_compute. now left.
  - refine (proj1 (proj2 (C7_tickers_filtered t (lit "MSFT"))) _ eq_refl _).
    intros rk rv Hin K.
    repeat (destruct Hin as [Hin|Hin];
            [injection Hin as <- <-; try (vm_compute in K; discriminate);
             vm_compute; auto|]).
    destruct Hin.
Defined.

(** The claim as stated drops every entry whose value has no parseable
    score; the source keeps an entry whose value is null, with score 0. *)
Lemma C7_counterexample_null_value :
  ~ (forall (props : list (jsstring * value)) (rawKey : jsstring)
            (rawVal : value) (k : jsstring),
       In (rawKey, rawVal) props ->
       normalizeTickerKey (VStr rawKey) = Some k ->
       usable (entryScore rawVal) = false ->
       lookup k (coerceTickers (VObj props)) = None).
Proof.
  intros H.
  specialize (H [(lit "AAPL", VNull)] (lit "AAPL") VNull (lit "AAPL")
                (or_introl eq_refl) eq_refl eq_refl).
  vm_compute in H. discriminate.
Qed.

(* ================================================================= *)
(** * Part IX. The retry loop *)

Lemma requestsMade_app (a b : list Event) :
  requestsMade (a ++ b) = (requestsMade a + requestsMade b)%nat.
Proof. unfold requestsMade. now rewrite filter_app, length_app. Qed.

Lemma sleepsOf_app (a b : list Event) :
  sleepsOf (a ++ b) = sleepsOf a ++ sleepsOf b.
Proof. unfold sleepsOf. apply flat_map_app. Qed.

Lemma requestsMade_request (log : list Event) (wf : bool) (p : jsstring) :
  requestsMade (log ++ [Request wf p]) = S (requestsMade log).
Proof. rewrite requestsMade_app. unfold requestsMade at 2. simpl. lia. Qed.

Lemma requestsMade_sleep (log : list Event) (ms : number) :
  requestsMade (log ++ [Sleep ms]) = requestsMade log.
Proof. rewrite requestsMade_app. unfold requestsMade at 2. simpl. lia. Qed.

Lemma sleepsOf_request (log : list Event) (wf : bool) (p : jsstring) :
  sleepsOf (log ++ [Request wf p]) = sleepsOf log.
Proof. rewrite sleepsOf_app. simpl. apply app_nil_r. Qed.

Lemma sleepsOf_sleep (log : list Event) (ms : number) :
  sleepsOf (log ++ [Sleep ms]) = sleepsOf log ++ [ms].
Proof. now rewrite sleepsOf_app. Qed.

(** Without a usable retry-after header the pause is 2000 ms times the
    number of the attempt, counted from one. *)
Lemma retryAfterMs_default (e : Thrown) (attempt : nat) :
  e_retryAfter e = VUndefined ->
  retryAfterMs e attempt = num_mul num_2000 (ofZ (Z.of_nat attempt + 1)).
Proof. intros H. unfold retryAfterMs. now rewrite H. Qed.


Lemma readAnswer_cases (content : list Block) :
  (exists r, readAnswer content = Returned r)
  \/ readAnswer content = Threw (newError invalidJsonMessage).
Proof.
  unfold readAnswer. destruct (extractSentiment _) as [r|]; [left|right]; eauto.
Qed.


(** ** [scripts/market_sentiment_csv.js] *)


Lemma Market_resume {oracle : Oracle} {p : jsstring} {k : nat} {log : list Event} :
  MarketCsv.Retrying oracle p k log ->
  forall remaining,
    MarketCsv.attempts oracle p (k + remaining) 0 []
    = MarketCsv.attempts oracle p remaining k log.
Proof.
  induction 1 as [|k log e _ IH Hbody Hrate]; intros remaining; [reflexivity|].
  replace (S k + remaining)%nat with (k + S remaining)%nat by lia.
  rewrite IH. cbn [MarketCsv.attempts]. now rewrite Hbody, Hrate.
Qed.



Lemma Market_exhausted (M : number) (oracle : Oracle) (text : jsstring)
  {log : list Event} :
  MarketCsv.Retrying oracle (buildMarketPrompt M text) 5 log ->
  MarketCsv.scoreMarket M oracle text
  = (Returned (errorRecord exhaustedMessage), log).
Proof.
  intros Hretry. unfold MarketCsv.scoreMarket.
  change 5%nat with (5 + 0)%nat. now rewrite (Market_resume Hretry).
Qed.

(** When each of the first [bound] requests is refused with a rate limit, the
    call reaches the retrying state after each number of attempts up to
    [bound]. *)
Lemma Market_always_limited (oracle : Oracle) (p : jsstring) (bound : nat) :
  (forall n, (n < bound)%nat ->
     exists e, oracle n false p = Raise e /\ MarketCsv.rateLimited e = true) ->
  forall k,
    (k <= bound)%nat ->
    exists log,
      MarketCsv.Retrying oracle p k log
      /\ requestsMade log = k
      /\ List.length (sleepsOf log) = k
      /\ ((forall n e, oracle n false p = Raise e -> e_retryAfter e = VUndefined) ->
          sleepsOf log
          = map (fun i => num_mul num_2000 (ofZ (Z.of_nat i + 1))) (seq 0 k)).
Proof.
  intros Hall. induction k as [|k IH]; intros Hk.
  - exists []. repeat split; constructor.
  - destruct IH as (log & Hretry & Hreq & Hlen & Hdef); [lia|].
    destruct (Hall (requestsMade log)) as (e & He & Hrate); [lia|].
    exists ((log ++ [Request false p]) ++ [Sleep (retryAfterMs e k)]).
    split; [|split; [|split]].
    + apply MarketCsv.Retrying_again; auto.
      unfold MarketCsv.attemptBody. now rewrite He.
    + rewrite requestsMade_sleep, requestsMade_request. lia.
    + rewrite sleepsOf_sleep, sleepsOf_request, length_app. simpl. lia.
    + intros Hno. rewrite sleepsOf_sleep, sleepsOf_request, (Hdef Hno), seq_S, map_app.
      simpl. f_equal.
      now rewrite (retryAfterMs_default e k (Hno _ _ He)).
Qed.

(** ** The second scorer *)


Lemma Part000_resume {oracle : Oracle} {p : jsstring} {k : nat} {log : list Event} :
  Part000.Retrying oracle p k log ->
  forall remaining,
    Part000.attempts oracle p (k + remaining) 0 []
    = Part000.attempts oracle p remaining k log.
Proof.
  induction 1 as [|k log log' e _ IH Hbody Hrate]; intros remaining; [reflexivity|].
  replace (S k + remaining)%nat with (k + S remaining)%nat by lia.
  rewrite IH. cbn [Part000.attempts]. now rewrite Hbody, Hrate.
Qed.



Lemma Part000_exhausted (M : number) (oracle : Oracle) (text : jsstring)
  {log : list Event} :
  Part000.Retrying oracle (buildMarketPrompt M text) 5 log ->
  Part000.scoreMarket M oracle text
  = (Returned (errorRecord exhaustedMessage), log).
Proof.
  intros Hretry. unfold Part000.scoreMarket.
  change 5%nat with (5 + 0)%nat. now rewrite (Part000_resume Hretry).
Qed.


Lemma Part000_body_limited (oracle : Oracle) (p : jsstring) (bound : nat)
  (log : list Event) :
  (forall n wf, (n < bound)%nat ->
     exists e, oracle n wf p = Raise e /\ Part000.rateLimited e = true) ->
  (requestsMade log + 2 <= bound)%nat ->
  exists e log' n wf,
    Part000.attemptBody oracle p log = (Threw e, log')
    /\ Part000.rateLimited e = true
    /\ oracle n wf p = Raise e
    /\ sleepsOf log' = sleepsOf log
    /\ (requestsMade log < requestsMade log' <= requestsMade log + 2)%nat.
Proof.
  intros Hall Hb. unfold Part000.attemptBody.
  destruct (Hall (requestsMade log) true) as (e & He & Hrate); [lia|]. rewrite He.
  destruct (Part000.maybeIncompatible e).
  - rewrite requestsMade_request.
    destruct (Hall (S (requestsMade log)) false) as (e2 & He2 & Hrate2); [lia|].
    rewrite He2.
    exists e2, ((log ++ [Request true p]) ++ [Request false p]),
      (S (requestsMade log)), false.
    rewrite !sleepsOf_request, !requestsMade_request.
    repeat split; auto; lia.
  - exists e, (log ++ [Request true p]), (requestsMade log), true.
    rewrite !sleepsOf_request, !requestsMade_request.
    repeat split; auto; lia.
Qed.

Lemma Part000_always_limited (oracle : Oracle) (p : jsstring) (bound : nat) :
  (forall n wf, (n < 2 * bound)%nat ->
     exists e, oracle n wf p = Raise e /\ Part000.rateLimited e = true) ->
  forall k,
    (k <= bound)%nat ->
    exists log,
      Part000.Retrying oracle p k log
      /\ (k <= requestsMade log <= 2 * k)%nat
      /\ List.length (sleepsOf log) = k
      /\ ((forall n wf e, oracle n wf p = Raise e -> e_retryAfter e = VUndefined) ->
          sleepsOf log
          = map (fun i => num_mul num_2000 (ofZ (Z.of_nat i + 1))) (seq 0 k)).
Proof.
  intros Hall. induction k as [|k IH]; intros Hk.
  - exists []. repeat split; try constructor.
  - destruct IH as (log & Hretry & Hreq & Hlen & Hdef); [lia|].
    destruct (Part000_body_limited oracle p (2 * bound) log Hall)
      as (e & log' & n & wf & Hbody & Hrate & He & Hs & Hr); [lia|].
    exists (log' ++ [Sleep (retryAfterMs e k)]).
    split; [|split; [|split]].
    + eapply Part000.Retrying_again; eauto.
    + rewrite requestsMade_sleep. lia.
    + rewrite sleepsOf_sleep, length_app, Hs. simpl. lia.
    + intros Hno. rewrite sleepsOf_sleep, Hs, (Hdef Hno), seq_S, map_app. simpl.
      f_equal. now rewrite (retryAfterMs_default e k (Hno _ _ _ He)).
Qed.



(** C5.  When every request hits the rate limit, [scoreMarket] makes five
    attempts, sleeps after each of them (2000 ms times the number of the
    attempt when no retry-after is given) and returns the sentinel whose
    summary says that the rate limit retries are exhausted.  The first
    scorer sends five requests, the second between five and ten. *)
Theorem C5_rate_limit_retries_bounded (M : number) (oracle : Oracle) (text : jsstring) :
  let p := buildMarketPrompt M text in
  ((forall n, (n < 5)%nat ->
      exists e, oracle n false p = Raise e /\ MarketCsv.rateLimited e = true) ->
   exists log,
     MarketCsv.scoreMarket M oracle text
     = (Returned (errorRecord exhaustedMessage), log)
     /\ MarketCsv.Retrying oracle p 5 log
     /\ requestsMade log = 5%nat
     /\ List.length (sleepsOf log) = 5%nat
     /\ ((forall n e, oracle n false p = Raise e -> e_retryAfter e = VUndefined) ->
         sleepsOf log = defaultPauses))
  /\ ((forall n wf, (n < 10)%nat ->
         exists e, oracle n wf p = Raise e /\ Part000.rateLimited e = true) ->
      exists log,
        Part000.scoreMarket M oracle text
        = (Returned (errorRecord exhaustedMessage), log)
        /\ Part000.Retrying oracle p 5 log
        /\ (5 <= requestsMade log <= 10)%nat
        /\ List.length (sleepsOf log) = 5%nat
        /\ ((forall n wf e, oracle n wf p = Raise e -> e_retryAfter e = VUndefined) ->
            sleepsOf log = defaultPauses)).
Proof.
  intros p. split; intros Hall.
  - destruct (Market_always_limited oracle p 5 Hall 5 (le_n 5))
      as (log & Hretry & Hreq & Hlen & Hdef).
    exists log. split; [now apply Market_exhausted|]. repeat split; auto.
  - destruct (Part000_always_limited oracle p 5 Hall 5 (le_n 5))
      as (log & Hretry & Hreq & Hlen & Hdef).
    exists log. split; [now apply Part000_exhausted|]. repeat split; auto; lia.
Qed.

Lemma C5_rate_limit_retries_bounded_witness :
  exists log,
    MarketCsv.scoreMarket (ofZ 3000) (scripted [] (Raise rateLimitError))
      (lit "Stocks fell.")
    = (Returned (errorRecord exhaustedMessage), log)
    /\ requestsMade log = 5%nat
    /\ sleepsOf log = defaultPauses.
Proof.
  destruct (C5_rate_limit_retries_bounded (ofZ 3000)
              (scripted [] (Raise rateLimitError)) (lit "Stocks fell."))
    as [H _].
  destruct H as (log & H1 & _ & H2 & _ & H3).
  - intros n _. exists rateLimitError. split; [now destruct n|reflexivity].
  - exists log. repeat split; auto. apply H3.
    intros n e He. destruct n; injection He as <-; reflexivity.
Defined.



(* ================================================================= *)
(** * Part X. Extraction of text that is JSON already *)

Lemma isWhiteSpace_outside (c : codeunit) : isWhiteSpace c = true -> outside c.
Proof.
  unfold isWhiteSpace, outside. intros H.
  repeat (apply orb_prop in H as [H|H]);
    repeat (apply andb_prop in H as [? H]);
    repeat match goal with
      | X : (_ =? _)%N = true |- _ => apply N.eqb_eq in X
      | X : (_ <=? _)%N = true |- _ => apply N.leb_le in X
      end; lia.
Qed.

Lemma isJsonWs_isWhiteSpace (c : codeunit) : isJsonWs c = true -> isWhiteSpace c = true.
Proof.
  unfold isJsonWs. intros H.
  repeat (apply orb_prop in H as [H|H]); apply N.eqb_eq in H; subst; reflexivity.
Qed.

(** The tests of the scanners on a code unit of the outside kind. *)
Ltac outside_tests c H :=
  unfold outside in H;
  repeat match goal with
    | |- context [(c =? ?k)%N] =>
        replace (c =? k)%N with false by (symmetry; apply N.eqb_neq; lia)
    | |- context [(?k =? c)%N] =>
        replace (k =? c)%N with false by (symmetry; apply N.eqb_neq; lia)
    end.

Lemma outside_not_digit (c : codeunit) : outside c -> isDigit c = false.
Proof.
  unfold outside, isDigit. intros H.
  destruct (48 <=? c)%N eqn:A, (c <=? 57)%N eqn:B; try reflexivity.
  apply N.leb_le in A, B. lia.
Qed.

Lemma outside_not_hex (c : codeunit) : outside c -> hexVal c = None.
Proof.
  intros H. unfold hexVal. rewrite (outside_not_digit c H).
  unfold outside in H.
  destruct (65 <=? c)%N eqn:A, (c <=? 70)%N eqn:B,
    (97 <=? c)%N eqn:C, (c <=? 102)%N eqn:D; try reflexivity;
    repeat match goal with
      | X : (_ <=? _)%N = true |- _ => apply N.leb_le in X
      end; lia.
Qed.

Lemma outside_not_escape (c : codeunit) : outside c -> escapeUnit c = None.
Proof. intros H. unfold escapeUnit. outside_tests c H. reflexivity. Qed.

Lemma span_snoc (s : jsstring) (c : codeunit) :
  isDigit c = false ->
  span isDigit (s ++ [c]) = (fst (span isDigit s), snd (span isDigit s) ++ [c]).
Proof.
  intros Hc. induction s as [|a s IH]; simpl.
  - now rewrite Hc.
  - destruct (isDigit a); [|reflexivity].
    rewrite IH. now destruct (span isDigit s).
Qed.

Lemma consUnit_extend (u c : codeunit) (o : option (jsstring * jsstring)) :
  consUnit u (extendRest c o) = extendRest c (consUnit u o).
Proof. now destruct o as [[? ?]|]. Qed.

(** A string literal is closed by a quote, never by a code unit of the
    outside kind: one more such unit at the end goes to the rest. *)
Lemma scanString_snoc (c : codeunit) :
  outside c ->
  forall (n : nat) (r : jsstring),
    (List.length r <= n)%nat ->
    scanString (r ++ [c]) = extendRest c (scanString r).
Proof.
  intros Hc. induction n as [|n IH]; intros r Hn.
  - destruct r; [|simpl in Hn; lia]. simpl.
    outside_tests c Hc. cbn [orb].
    destruct (c <? 32)%N; reflexivity.
  - destruct r as [|a r]; [apply (IH []); simpl; lia|].
    simpl in Hn. cbn [app scanString].
    destruct (a =? 34)%N; [reflexivity|].
    destruct (a =? 92)%N.
    + destruct r as [|e r]; cbn [app].
      * now rewrite (outside_not_escape c Hc); outside_tests c Hc.
      * destruct (e =? 117)%N.
        -- destruct r as [|h1 [|h2 [|h3 [|h4 r]]]]; cbn [app]; try reflexivity.
           ++ unfold hex4. rewrite (outside_not_hex c Hc).
              now destruct (hexVal h1), (hexVal h2), (hexVal h3).
           ++ destruct (hex4 h1 h2 h3 h4); [|reflexivity].
              rewrite IH by (simpl in Hn; lia). apply consUnit_extend.
        -- destruct (escapeUnit e); [|reflexivity].
           rewrite IH by (simpl in Hn; lia). apply consUnit_extend.
    + destruct (a <? 32)%N; [reflexivity|].
      rewrite IH by lia. apply consUnit_extend.
Qed.

Lemma eat_snoc (k c : codeunit) (s : jsstring) :
  c <> k ->
  eat k (s ++ [c]) = option_map (fun r => r ++ [c]) (eat k s).
Proof.
  intros Hc. destruct s as [|a s]; simpl.
  - now apply N.eqb_neq in Hc as ->.
  - now destruct (a =? k)%N.
Qed.

Lemma scanSign_snoc (c : codeunit) (s : jsstring) :
  outside c ->
  scanSign (s ++ [c]) = (fst (scanSign s), snd (scanSign s) ++ [c]).
Proof.
  intros Hc. unfold scanSign. rewrite eat_snoc by (unfold outside in Hc; lia).
  now destruct (eat 45%N s).
Qed.

Lemma scanInt_snoc (c : codeunit) (s : jsstring) :
  outside c ->
  scanInt (s ++ [c]) = (fst (scanInt s), snd (scanInt s) ++ [c]).
Proof.
  intros Hc. unfold scanInt. rewrite eat_snoc by (unfold outside in Hc; lia).
  destruct (eat 48%N s); [reflexivity|].
  apply span_snoc, outside_not_digit, Hc.
Qed.

Lemma scanFrac_snoc (c : codeunit) (s : jsstring) :
  outside c ->
  scanFrac (s ++ [c]) = extendRest c (scanFrac s).
Proof.
  intros Hc. unfold scanFrac. rewrite eat_snoc by (unfold outside in Hc; lia).
  destruct (eat 46%N s) as [r|]; [|reflexivity]. cbn [option_map].
  rewrite (span_snoc r c (outside_not_digit c Hc)).
  now destruct (span isDigit r) as [[|d f] rest].
Qed.

Lemma scanExp_snoc (c : codeunit) (s : jsstring) :
  outside c ->
  scanExp (s ++ [c]) = extendRest c (scanExp s).
Proof.
  intros Hc. unfold scanExp. destruct s as [|a r]; cbn [app].
  - outside_tests c Hc. reflexivity.
  - destruct ((a =? 101) || (a =? 69))%N; [|reflexivity].
    rewrite !eat_snoc by (unfold outside in Hc; lia).
    destruct (eat 43%N r) as [r'|]; cbn [option_map].
    + rewrite (span_snoc r' c (outside_not_digit c Hc)).
      now destruct (span isDigit r') as [[|d f] rest].
    + destruct (eat 45%N r) as [r'|]; cbn [option_map].
      * rewrite (span_snoc r' c (outside_not_digit c Hc)).
        now destruct (span isDigit r') as [[|d f] rest].
      * rewrite (span_snoc r c (outside_not_digit c Hc)).
        now destruct (span isDigit r) as [[|d f] rest].
Qed.

Lemma scanNumber_snoc (c : codeunit) (s : jsstring) :
  outside c ->
  scanNumber (s ++ [c]) = extendRest c (scanNumber s).
Proof.
  intros Hc. unfold scanNumber.
  rewrite (scanSign_snoc c s Hc). destruct (scanSign s) as [neg s1]. cbn [fst snd].
  rewrite (scanInt_snoc c s1 Hc). destruct (scanInt s1) as [int s2]. cbn [fst snd].
  destruct int as [|d int]; [reflexivity|].
  rewrite (scanFrac_snoc c s2 Hc). destruct (scanFrac s2) as [[frac s3]|]; [|reflexivity].
  cbn [extendRest].
  rewrite (scanExp_snoc c s3 Hc). now destruct (scanExp s3) as [[e s4]|].
Qed.

Lemma startsWith_snoc (p s : jsstring) (c : codeunit) :
  Forall (fun x => x <> c) p ->
  startsWith p (s ++ [c]) = startsWith p s.
Proof.
  revert s. induction p as [|x p IH]; intros s Hp; [now destruct s|].
  inversion Hp as [|? ? Hx Hp']; subst.
  destruct s as [|a s]; simpl.
  - apply N.eqb_neq in Hx. now rewrite Hx.
  - now rewrite IH.
Qed.

Lemma startsWith_length (p s : jsstring) :
  startsWith p s = true -> (List.length p <= List.length s)%nat.
Proof.
  revert s. induction p as [|x p IH]; intros [|a s]; simpl; try lia; try discriminate.
  intros H. apply andb_prop in H as [_ H]. apply IH in H. lia.
Qed.

Lemma skipn_snoc (n : nat) (s : jsstring) (c : codeunit) :
  (n <= List.length s)%nat -> skipn n (s ++ [c]) = skipn n s ++ [c].
Proof.
  intros H. rewrite skipn_app.
  replace (n - List.length s)%nat with 0%nat by lia. reflexivity.
Qed.

(** One more code unit of the outside kind after a text that is not empty
    does not change its first token. *)
Lemma scanToken_snoc (c : codeunit) (s : jsstring) :
  outside c -> s <> [] ->
  scanToken (s ++ [c]) = extendRest c (scanToken s).
Proof.
  intros Hc Hs. destruct s as [|a r]; [contradiction|].
  unfold scanToken. cbn [app].
  repeat match goal with
    | |- context [if (a =? ?k)%N then Some (?t, _) else _] =>
        destruct (a =? k)%N; [reflexivity|]
    end.
  destruct (a =? 34)%N.
  { rewrite (scanString_snoc c Hc (List.length r) r (le_n _)).
    now destruct (scanString r) as [[str rest]|]. }
  destruct ((a =? 45)%N || isDigit a).
  { change (a :: r ++ [c]) with ((a :: r) ++ [c]).
    rewrite (scanNumber_snoc c (a :: r) Hc).
    now destruct (scanNumber (a :: r)) as [[n rest]|]. }
  change (a :: r ++ [c]) with ((a :: r) ++ [c]).
  assert (F : forall w, Forall (fun x => (32 < x < 160 /\ x <> 96)%N) w ->
                        Forall (fun x => x <> c) w).
  { intros w. apply Forall_impl. unfold outside in Hc. intros x Hx. lia. }
  assert (L : forall w, Forall (fun x => (32 < x < 160 /\ x <> 96)%N) w ->
                startsWith w ((a :: r) ++ [c]) = startsWith w (a :: r)).
  { intros w Hw. apply startsWith_snoc, F, Hw. }
  rewrite (L (lit "true")), (L (lit "false")), (L (lit "null"))
    by (unfold lit; simpl; repeat (apply Forall_cons; [lia|]); apply Forall_nil).
  destruct (startsWith (lit "true") (a :: r)) eqn:T.
  { apply startsWith_length in T. cbn [extendRest]. now rewrite skipn_snoc. }
  destruct (startsWith (lit "false") (a :: r)) eqn:Fa.
  { apply startsWith_length in Fa. cbn [extendRest]. now rewrite skipn_snoc. }
  destruct (startsWith (lit "null") (a :: r)) eqn:Nu; [|reflexivity].
  apply startsWith_length in Nu. cbn [extendRest]. now rewrite skipn_snoc.
Qed.

Lemma scanToken_outside (c : codeunit) (r : jsstring) :
  outside c -> scanToken (c :: r) = None.
Proof.
  intros Hc. unfold scanToken. outside_tests c Hc.
  rewrite (outside_not_digit c Hc). cbn [orb].
  change (lit "true") with (116%N :: lit "rue").
  change (lit "false") with (102%N :: lit "alse").
  change (lit "null") with (110%N :: lit "ull").
  cbn [startsWith]. outside_tests c Hc. reflexivity.
Qed.

(** The lexer on a text with one more code unit of the outside kind: the
    unit must be JSON white space, and then it changes nothing. *)
Lemma lex_snoc (c : codeunit) :
  outside c ->
  forall (s : jsstring) (k : nat),
    (k <= List.length s)%nat ->
    lex k (s ++ [c]) = if isJsonWs c then lex k s else None.
Proof.
  intros Hc. induction s as [|a s IH]; intros k Hk.
  - simpl in Hk. replace k with 0%nat by lia. cbn [app lex].
    destruct (isJsonWs c); [reflexivity|].
    now rewrite (scanToken_outside c [] Hc).
  - simpl in Hk. cbn [app lex]. destruct k as [|k].
    + destruct (isJsonWs a).
      * apply IH. lia.
      * change (a :: s ++ [c]) with ((a :: s) ++ [c]).
        rewrite (scanToken_snoc c (a :: s) Hc) by discriminate.
        destruct (scanToken (a :: s)) as [[t rest]|]; cbn [extendRest];
          [|now destruct (isJsonWs c)].
        rewrite !length_app. cbn [List.length].
        replace (List.length s + 1 - (List.length rest + 1))%nat
          with (List.length s - List.length rest)%nat by lia.
        rewrite IH by lia.
        now destruct (isJsonWs c).
    + rewrite IH by lia. reflexivity.
Qed.

Lemma lex_space_head (c : codeunit) (r : jsstring) :
  isWhiteSpace c = true ->
  lex 0 (c :: r) = if isJsonWs c then lex 0 r else None.
Proof.
  intros Hc. cbn [lex]. destruct (isJsonWs c); [reflexivity|].
  now rewrite (scanToken_outside c r (isWhiteSpace_outside c Hc)).
Qed.

Lemma lex_trimEnd (s : jsstring) (ts : list token) :
  lex 0 s = Some ts -> lex 0 (trimEnd s) = Some ts.
Proof.
  induction s as [|c s IH] using rev_ind; [auto|].
  rewrite trimEnd_snoc. destruct (isWhiteSpace c) eqn:W; [|auto].
  rewrite (lex_snoc c (isWhiteSpace_outside c W)) by lia.
  destruct (isJsonWs c); [exact IH|discriminate].
Qed.

Lemma lex_trimStart (s : jsstring) (ts : list token) :
  lex 0 s = Some ts -> lex 0 (trimStart s) = Some ts.
Proof.
  induction s as [|c s IH]; [auto|].
  unfold trimStart. cbn [dropWhile]. destruct (isWhiteSpace c) eqn:W; [|auto].
  rewrite (lex_space_head c s W).
  destruct (isJsonWs c); [exact IH|discriminate].
Qed.

Lemma lex_trim (s : jsstring) (ts : list token) :
  lex 0 s = Some ts -> lex 0 (trim s) = Some ts.
Proof. intros H. now apply lex_trimStart, lex_trimEnd. Qed.

(** A lexed text neither starts nor ends with a backtick. *)
Lemma lex_no_backtick_head (r : jsstring) : lex 0 (BACKTICK :: r) = None.
Proof.
  cbn [lex]. change (isJsonWs BACKTICK) with false. cbv iota.
  rewrite (scanToken_outside BACKTICK r); [reflexivity|].
  left. reflexivity.
Qed.

Lemma lex_no_backtick_last (s : jsstring) : lex 0 (s ++ [BACKTICK]) = None.
Proof.
  rewrite (lex_snoc BACKTICK) by (try lia; now left). reflexivity.
Qed.

(** ** The fences are not there *)

Lemma lowerUnit_not_backtick (c : codeunit) :
  c <> BACKTICK -> (if (c <? 128)%N then lowerUnit c else c) <> BACKTICK.
Proof.
  unfold lowerUnit, BACKTICK. intros Hc.
  destruct (c <? 128)%N; [|exact Hc].
  destruct (isUpper c) eqn:U.
  - unfold isUpper in U. apply andb_prop in U as [U1 U2].
    apply N.leb_le in U1, U2. lia.
  - destruct (c =? 8490)%N; [discriminate|exact Hc].
Qed.

Lemma stripJsonFence_none (s : jsstring) :
  match s with c :: _ => c <> BACKTICK | [] => True end ->
  stripJsonFence s = s.
Proof.
  destruct s as [|c r]; [reflexivity|]. intros Hc.
  unfold stripJsonFence.
  change (lit "```json") with (BACKTICK :: lit "``json").
  cbn [startsWithCI]. change (lowerUnit BACKTICK) with BACKTICK.
  apply lowerUnit_not_backtick in Hc.
  replace (BACKTICK =? _)%N with false; [reflexivity|].
  symmetry. apply N.eqb_neq. now apply not_eq_sym.
Qed.

Lemma stripOpenFence_none (s : jsstring) :
  match s with c :: _ => c <> BACKTICK | [] => True end ->
  stripOpenFence s = s.
Proof.
  destruct s as [|c r]; [reflexivity|]. intros Hc.
  unfold stripOpenFence.
  change (lit "```") with (BACKTICK :: lit "``").
  cbn [startsWith].
  replace (BACKTICK =? c)%N with false; [reflexivity|].
  symmetry. apply N.eqb_neq. now apply not_eq_sym.
Qed.

Lemma forallb_snoc_false (p : codeunit -> bool) (s : jsstring) (c : codeunit) :
  p c = false -> forallb p (s ++ [c]) = false.
Proof.
  intros H. rewrite forallb_app. simpl. rewrite H. apply andb_false_r.
Qed.

Lemma closeFence_test (u : jsstring) (c : codeunit) :
  isWhiteSpace c = false -> c <> BACKTICK ->
  startsWith (lit "```") (u ++ [c]) && forallb isWhiteSpace (skipn 3 (u ++ [c]))
  = false.
Proof.
  intros W B.
  assert (E : (BACKTICK =? c)%N = false) by (apply N.eqb_neq; now apply not_eq_sym).
  change (lit "```") with [BACKTICK; BACKTICK; BACKTICK].
  destruct u as [|a [|b [|d u]]]; cbn [app startsWith skipn].
  - now rewrite E.
  - destruct (BACKTICK =? a)%N, (BACKTICK =? c)%N; reflexivity.
  - rewrite E. destruct (BACKTICK =? a)%N, (BACKTICK =? b)%N; reflexivity.
  - rewrite (forallb_snoc_false isWhiteSpace u c W). apply andb_false_r.
Qed.

Lemma stripCloseFence_eq (s : jsstring) :
  stripCloseFence s =
    if startsWith (lit "```") s && forallb isWhiteSpace (skipn 3 s) then []
    else match s with
         | [] => []
         | c :: r => c :: stripCloseFence r
         end.
Proof. now destruct s. Qed.

Lemma stripCloseFence_none (s : jsstring) (c : codeunit) :
  isWhiteSpace c = false -> c <> BACKTICK ->
  stripCloseFence (s ++ [c]) = s ++ [c].
Proof.
  intros W B. induction s as [|a s IH];
    rewrite stripCloseFence_eq, (closeFence_test _ c W B).
  - reflexivity.
  - cbn [app]. now rewrite IH.
Qed.

(** ** Typographic quotes are not there *)

Lemma dropWhile_Forall (P : codeunit -> Prop) (p : codeunit -> bool) (s : jsstring) :
  Forall P s -> Forall P (dropWhile p s).
Proof.
  induction 1 as [|c s Hc Hs IH]; simpl; [constructor|].
  destruct (p c); [exact IH|now constructor].
Qed.

Lemma trim_Forall (P : codeunit -> Prop) (s : jsstring) :
  Forall P s -> Forall P (trim s).
Proof.
  intros H. unfold trim, trimStart, trimEnd.
  apply dropWhile_Forall, Forall_rev, dropWhile_Forall, Forall_rev, H.
Qed.

Lemma straightenQuotes_none (s : jsstring) :
  Forall (fun c => typographic c = false) s -> straightenQuotes s = s.
Proof.
  induction 1 as [|c s Hc Hs IH]; [reflexivity|].
  unfold straightenQuotes in *. cbn [map]. rewrite IH. f_equal.
  unfold straightenUnit. unfold typographic in Hc.
  apply orb_false_elim in Hc as [Hc H4].
  apply orb_false_elim in Hc as [Hc H3].
  apply orb_false_elim in Hc as [H1 H2].
  now rewrite H1, H2, H3, H4.
Qed.

(** ** [cleanJsonString] on JSON *)

Lemma lex_ends (s : jsstring) (ts : list token) :
  lex 0 s = Some ts ->
  match s with c :: _ => c <> BACKTICK | [] => True end
  /\ forall s' c, s = s' ++ [c] -> c <> BACKTICK.
Proof.
  intros H. split.
  - destruct s as [|c r]; [exact I|]. intros ->.
    now rewrite lex_no_backtick_head in H.
  - intros s' c -> ->. now rewrite lex_no_backtick_last in H.
Qed.

Lemma trim_endsClean (s : jsstring) : endsClean (trim s).
Proof. apply dropWhile_endsClean, trimEnd_endsClean. Qed.

Lemma cleanJsonString_json (s : jsstring) (ts : list token) :
  s <> [] ->
  lex 0 s = Some ts ->
  Forall (fun c => typographic c = false) s ->
  cleanJsonString (Some s) = trim s.
Proof.
  intros Hs Hlex Hq. unfold cleanJsonString.
  destruct s as [|c0 s0]; [contradiction|]. set (s := c0 :: s0) in *.
  pose proof (lex_trim s ts Hlex) as Ht.
  destruct (lex_ends (trim s) ts Ht) as [Hhead Hlast].
  rewrite (stripJsonFence_none (trim s) Hhead), (stripOpenFence_none (trim s) Hhead).
  destruct (trim_endsClean s) as [E|(s' & c & E & W)].
  - rewrite E. reflexivity.
  - rewrite E at 1. rewrite (stripCloseFence_none s' c W (Hlast s' c E)), <- E.
    rewrite trim_idempotent.
    apply straightenQuotes_none, trim_Forall, Hq.
Qed.

Lemma JSON_parse_trim (s : jsstring) (v : value) :
  JSON_parse s = Some v -> JSON_parse (trim s) = Some v.
Proof.
  unfold JSON_parse. destruct (lex 0 s) as [ts|] eqn:L; [|discriminate].
  now rewrite (lex_trim s ts L).
Qed.

Lemma JSON_parse_nonempty (s : jsstring) (v : value) :
  JSON_parse s = Some v -> s <> [].
Proof. intros H ->. discriminate. Qed.

(** C9 (as amended).  For every string that parses as JSON and holds none of
    the four typographic quotes, [cleanJsonString] only trims it, so parsing
    the cleaned text gives the value that parsing the string directly gives;
    and when that value coerces to a record, the extractor ends with this
    very value and this record, without its fallback. *)
Theorem C9_extraction_keeps_json (s : jsstring) (v : value) :
  JSON_parse s = Some v ->
  Forall (fun c => typographic c = false) s ->
  cleanJsonString (Some s) = trim s
  /\ safeParseJson (cleanJsonString (Some s)) = v
  /\ (forall r,
        coerceSentimentShape v = Some r ->
        extractParsed (Some s) = (v, Some r)).
Proof.
  intros Hparse Hq.
  assert (Hclean : cleanJsonString (Some s) = trim s).
  { pose proof (JSON_parse_nonempty s v Hparse) as Hne.
    unfold JSON_parse in Hparse.
    destruct (lex 0 s) as [ts|] eqn:L; [|discriminate].
    now apply (cleanJsonString_json s ts). }
  assert (Hsafe : safeParseJson (cleanJsonString (Some s)) = v).
  { unfold safeParseJson. now rewrite Hclean, (JSON_parse_trim s v Hparse). }
  repeat split; auto.
  intros r Hr. unfold extractParsed. cbv zeta. now rewrite Hsafe, Hr.
Qed.

Lemma C9_extraction_keeps_json_witness :
  extractParsed (Some (json " {'label': 'upbeat', 'score': '40'} "))
  = (safeParseJson (json "{'label': 'upbeat', 'score': '40'}"),
     Some {| label := Mood Bullish;
             score := decimalToNumber false 4 (-1);
             summary := [];
             tickers := [] |}).
Proof.
  refine (proj2 (proj2 (C9_extraction_keeps_json
                          (json " {'label': 'upbeat', 'score': '40'} ")
                          (safeParseJson (json "{'label': 'upbeat', 'score': '40'}"))
                          _ _)) _ _).
  - vm_compute. reflexivity.
  - unfold json, lit. simpl. repeat (apply Forall_cons; [reflexivity|]). apply Forall_nil.
  - vm_compute. reflexivity.
Defined.

(** The claim as stated fails on JSON whose strings hold typographic
    quotes: they become plain double quotes, the text no longer parses, and
    the extractor ends with null instead of the value. *)
Lemma C9_counterexample_typographic_quotes :
  ~ (forall (s : jsstring) (v : value),
       JSON_parse s = Some v ->
       fst (extractParsed (Some s)) = v).
Proof.
  intros H.
  pose (s := json "{'label': 'Bullish', 'score': 1, 'summary': '" ++ [8220%N; 120%N; 8221%N]
             ++ json "'}").
  destruct (JSON_parse s) as [v|] eqn:E; [|vm_compute in E; discriminate].
  specialize (H s v E). vm_compute in E. injection E as <-.
  vm_compute in H. discriminate.
Qed.

(* ================================================================= *)
(** * Part XI. The JSON reader is well defined

    The lexer resumes right after each token, and the parser never lacks
    fuel. *)

Lemma span_parts (p : codeunit -> bool) (s : jsstring) :
  s = fst (span p s) ++ snd (span p s).
Proof.
  induction s as [|c r IH]; simpl; [reflexivity|].
  destruct (p c); [|reflexivity].
  destruct (span p r) as [a b]. simpl in *. now f_equal.
Qed.

Lemma properSuffix_cons (c : codeunit) (rest s : jsstring) :
  rest = s \/ properSuffix rest s -> properSuffix rest (c :: s).
Proof.
  intros [->|(a & _ & ->)].
  - exists [c]. split; [discriminate|reflexivity].
  - exists (c :: a). split; [discriminate|reflexivity].
Qed.

Lemma properSuffix_trans {a b c : jsstring} :
  properSuffix a b -> b = c \/ properSuffix b c -> properSuffix a c.
Proof.
  intros (x & Hx & ->) [<-|(y & Hy & ->)].
  - now exists x.
  - exists (y ++ x). split; [|now rewrite app_assoc].
    destruct y; [contradiction|discriminate].
Qed.

Lemma scanString_suffix (n : nat) :
  forall (s str rest : jsstring),
    (List.length s <= n)%nat ->
    scanString s = Some (str, rest) -> properSuffix rest s.
Proof.
  induction n as [|n IH]; intros s str rest Hn H.
  - destruct s; [discriminate|simpl in Hn; lia].
  - destruct s as [|a r]; [discriminate|]. simpl in Hn. cbn [scanString] in H.
    destruct (a =? 34)%N.
    { injection H as <- <-. apply properSuffix_cons. now left. }
    assert (K : forall u r0,
               (List.length r0 <= n)%nat ->
               consUnit u (scanString r0) = Some (str, rest) ->
               properSuffix rest r0).
    { intros u r0 Hr0 Hc. destruct (scanString r0) as [[str0 rest0]|] eqn:E;
        [|discriminate].
      injection Hc as <- <-. now apply (IH r0 str0). }
    destruct (a =? 92)%N.
    + destruct r as [|e r]; [discriminate|].
      destruct (e =? 117)%N.
      * destruct r as [|h1 [|h2 [|h3 [|h4 r]]]]; try discriminate.
        destruct (hex4 h1 h2 h3 h4); [|discriminate].
        apply K in H; [|simpl in Hn; lia].
        repeat (apply properSuffix_cons; right). exact H.
      * destruct (escapeUnit e); [|discriminate].
        apply K in H; [|simpl in Hn; lia].
        repeat (apply properSuffix_cons; right). exact H.
    + destruct (a <? 32)%N; [discriminate|].
      apply K in H; [|lia]. apply properSuffix_cons. now right.
Qed.

Lemma eat_suffix (k : codeunit) (s r : jsstring) :
  eat k s = Some r -> properSuffix r s.
Proof.
  destruct s as [|c s]; [discriminate|]. simpl.
  destruct (c =? k)%N; [|discriminate]. intros H. injection H as <-.
  apply properSuffix_cons. now left.
Qed.

Lemma span_suffix (s : jsstring) :
  snd (span isDigit s) = s \/ properSuffix (snd (span isDigit s)) s.
Proof.
  destruct (fst (span isDigit s)) as [|d ds] eqn:E.
  - left. rewrite (span_parts isDigit s) at 2. now rewrite E.
  - right. exists (d :: ds). split; [discriminate|].
    rewrite <- E. apply span_parts.
Qed.

Lemma scanNumber_suffix (s : jsstring) (n : number) (rest : jsstring) :
  scanNumber s = Some (n, rest) -> properSuffix rest s.
Proof.
  unfold scanNumber.
  assert (S1 : snd (scanSign s) = s \/ properSuffix (snd (scanSign s)) s).
  { unfold scanSign. destruct (eat 45%N s) eqn:E; [right|now left].
    now apply eat_suffix in E. }
  destruct (scanSign s) as [neg s1]. cbn [snd] in S1.
  assert (S2 : match fst (scanInt s1) with
               | [] => True
               | _ => properSuffix (snd (scanInt s1)) s1
               end).
  { unfold scanInt. destruct (eat 48%N s1) eqn:E.
    - now apply eat_suffix in E.
    - destruct (fst (span isDigit s1)) as [|d ds] eqn:F; [exact I|].
      exists (d :: ds). split; [discriminate|].
      rewrite <- F. apply span_parts. }
  destruct (scanInt s1) as [int s2]. cbn [fst snd] in S2.
  destruct int as [|d int]; [discriminate|].
  assert (S3 : forall frac s3, scanFrac s2 = Some (frac, s3) ->
                               s3 = s2 \/ properSuffix s3 s2).
  { unfold scanFrac. intros frac s3. destruct (eat 46%N s2) as [r|] eqn:E.
    - apply eat_suffix in E.
      pose proof (span_suffix r) as P.
      destruct (span isDigit r) as [[|f fs] r']; [discriminate|].
      intros H. injection H as <- <-. right. cbn [snd] in P.
      destruct P as [->|P]; [exact E|exact (properSuffix_trans P (or_intror E))].
    - intros H. injection H as <- <-. now left. }
  destruct (scanFrac s2) as [[frac s3]|]; [|discriminate].
  specialize (S3 frac s3 eq_refl).
  assert (S4 : forall e s4, scanExp s3 = Some (e, s4) ->
                            s4 = s3 \/ properSuffix s4 s3).
  { unfold scanExp. intros e s4. destruct s3 as [|c r].
    - intros H. injection H as <- <-. now left.
    - destruct ((c =? 101) || (c =? 69))%N.
      + assert (Q : forall ds rest0, ds = r \/ properSuffix ds r ->
                      rest0 = ds \/ properSuffix rest0 ds ->
                      rest0 = c :: r \/ properSuffix rest0 (c :: r)).
        { intros ds rest0 Hds P. right. apply properSuffix_cons.
          destruct P as [->|P]; [exact Hds|].
          right. apply (properSuffix_trans P Hds). }
        destruct (eat 43%N r) as [r'|] eqn:E1.
        * apply eat_suffix in E1. pose proof (span_suffix r') as P.
          destruct (span isDigit r') as [[|d0 l] rest0]; [discriminate|].
          intros H. injection H as _ <-. apply (Q r' _ (or_intror E1) P).
        * destruct (eat 45%N r) as [r'|] eqn:E2.
          -- apply eat_suffix in E2. pose proof (span_suffix r') as P.
             destruct (span isDigit r') as [[|d0 l] rest0]; [discriminate|].
             intros H. injection H as _ <-. apply (Q r' _ (or_intror E2) P).
          -- pose proof (span_suffix r) as P.
             destruct (span isDigit r) as [[|d0 l] rest0]; [discriminate|].
             intros H. injection H as _ <-. apply (Q r _ (or_introl eq_refl) P).
      + intros H. injection H as <- <-. now left. }
  destruct (scanExp s3) as [[e s4]|]; [|discriminate].
  specialize (S4 e s4 eq_refl).
  intros H. injection H as _ <-.
  assert (properSuffix s3 s1) as P3
      by (destruct S3 as [->|S3]; [exact S2|exact (properSuffix_trans S3 (or_intror S2))]).
  assert (properSuffix s4 s1) as P4
      by (destruct S4 as [->|S4]; [exact P3|exact (properSuffix_trans S4 (or_intror P3))]).
  exact (properSuffix_trans P4 S1).
Qed.

Lemma skipn_suffix (n : nat) (s : jsstring) :
  (0 < n <= List.length s)%nat -> properSuffix (skipn n s) s.
Proof.
  intros H. exists (firstn n s). split.
  - destruct s; [simpl in H; lia|]. destruct n; [lia|discriminate].
  - symmetry. apply firstn_skipn.
Qed.

Lemma scanToken_suffix (s : jsstring) (t : token) (rest : jsstring) :
  scanToken s = Some (t, rest) -> properSuffix rest s.
Proof.
  unfold scanToken. destruct s as [|c r]; [discriminate|].
  repeat match goal with
    | |- context [if (c =? ?k)%N then Some (?tok, r) else _] =>
        destruct (c =? k)%N;
        [intros H; injection H as _ <-; apply properSuffix_cons; now left|]
    end.
  destruct (c =? 34)%N.
  { destruct (scanString r) as [[str rest0]|] eqn:E; [|discriminate].
    intros H. injection H as _ <-. apply properSuffix_cons. right.
    now apply (scanString_suffix (List.length r) r str). }
  destruct ((c =? 45)%N || isDigit c).
  { destruct (scanNumber (c :: r)) as [[n rest0]|] eqn:E; [|discriminate].
    intros H. injection H as _ <-. now apply (scanNumber_suffix (c :: r) n). }
  destruct (startsWith (lit "true") (c :: r)) eqn:T.
  { intros H. injection H as _ <-. apply startsWith_length in T.
    apply (skipn_suffix 4 (c :: r)). change (List.length (lit "true")) with 4%nat in T. lia. }
  destruct (startsWith (lit "false") (c :: r)) eqn:F.
  { intros H. injection H as _ <-. apply startsWith_length in F.
    apply (skipn_suffix 5 (c :: r)). change (List.length (lit "false")) with 5%nat in F. lia. }
  destruct (startsWith (lit "null") (c :: r)) eqn:N; [|discriminate].
  intros H. injection H as _ <-. apply startsWith_length in N.
  apply (skipn_suffix 4 (c :: r)). change (List.length (lit "null")) with 4%nat in N. lia.
Qed.

Lemma lex_skip (a b : jsstring) : lex (List.length a) (a ++ b) = lex 0 b.
Proof. induction a as [|c a IH]; [reflexivity|exact IH]. Qed.

(** The lexer as one would write it with general recursion: skip white
    space, read a token, go on with what follows the token. *)
Lemma lex_unfold (c : codeunit) (r : jsstring) :
  lex 0 (c :: r) =
    if isJsonWs c then lex 0 r
    else match scanToken (c :: r) with
         | Some (t, rest) =>
             match lex 0 rest with
             | Some ts => Some (t :: ts)
             | None => None
             end
         | None => None
         end.
Proof.
  cbn [lex]. destruct (isJsonWs c); [reflexivity|].
  destruct (scanToken (c :: r)) as [[t rest]|] eqn:E; [|reflexivity].
  apply scanToken_suffix in E as (a & Ha & E).
  destruct a as [|x a]; [contradiction|]. injection E as -> ->.
  rewrite length_app.
  replace (List.length a + List.length rest - List.length rest)%nat
    with (List.length a) by lia.
  now rewrite lex_skip.
Qed.

(** Fuel equal to the number of tokens consumed is enough for each of the
    three parsing functions. *)
Lemma parse_fuel (f : nat) :
  (forall ts v r,
      parseValue f ts = Some (v, r) ->
      (List.length r < List.length ts)%nat
      /\ forall f', (List.length ts - List.length r <= f')%nat ->
                    parseValue f' ts = Some (v, r))
  /\ (forall ts acc v r,
         parseElements f ts acc = Some (v, r) ->
         (List.length r < List.length ts)%nat
         /\ forall f', (List.length ts - List.length r <= f')%nat ->
                       parseElements f' ts acc = Some (v, r))
  /\ (forall ts acc v r,
         parseMembers f ts acc = Some (v, r) ->
         (List.length r < List.length ts)%nat
         /\ forall f', (List.length ts - List.length r <= f')%nat ->
                       parseMembers f' ts acc = Some (v, r)).
Proof.
  induction f as [|f (IHv & IHe & IHm)];
    [repeat split; intros; discriminate|].
  assert (Hv : forall ts v r,
             parseValue (S f) ts = Some (v, r) ->
             (List.length r < List.length ts)%nat
             /\ forall f', (List.length ts - List.length r <= f')%nat ->
                           parseValue f' ts = Some (v, r)).
  { intros ts v r H. destruct ts as [|t ts]; [discriminate|].
    destruct t; cbn [parseValue] in H;
      try (injection H as <- <-; split;
           [cbn [List.length]; lia
           |intros [|f'] Hf; [cbn [List.length] in *; lia|reflexivity]]);
      try discriminate.
    - (* an object *)
      destruct ts as [|t2 ts2];
        [apply IHm in H as [L _]; cbn [List.length] in L; lia|].
      destruct t2;
        try (apply IHm in H as [L F]; split;
             [cbn [List.length] in *; lia
             |intros [|f'] Hf; [cbn [List.length] in *; lia|];
              cbn [parseValue]; apply F; cbn [List.length] in *; lia]).
      injection H as <- <-. split; [cbn [List.length]; lia|].
      intros [|f'] Hf; [cbn [List.length] in *; lia|reflexivity].
    - (* an array *)
      destruct ts as [|t2 ts2];
        [apply IHe in H as [L _]; cbn [List.length] in L; lia|].
      destruct t2;
        try (apply IHe in H as [L F]; split;
             [cbn [List.length] in *; lia
             |intros [|f'] Hf; [cbn [List.length] in *; lia|];
              cbn [parseValue]; apply F; cbn [List.length] in *; lia]).
      injection H as <- <-. split; [cbn [List.length]; lia|].
      intros [|f'] Hf; [cbn [List.length] in *; lia|reflexivity]. }
  split; [exact Hv|split].
  - intros ts acc v r H. cbn [parseElements] in H.
    destruct (parseValue f ts) as [[v1 rest]|] eqn:E; [|discriminate].
    destruct rest as [|t r1]; [discriminate|].
    apply IHv in E as [L1 F1].
    destruct t; try discriminate.
    + (* closing bracket *)
      injection H as <- <-. split; [cbn [List.length] in *; lia|].
      intros [|f'] Hf; [cbn [List.length] in *; lia|].
      cbn [parseElements]. rewrite F1 by (cbn [List.length] in *; lia). reflexivity.
    + (* comma *)
      apply IHe in H as [L2 F2]. split; [cbn [List.length] in *; lia|].
      intros [|f'] Hf; [cbn [List.length] in *; lia|].
      cbn [parseElements]. rewrite F1 by (cbn [List.length] in *; lia).
      apply F2. cbn [List.length] in *; lia.
  - intros ts acc v r H. cbn [parseMembers] in H.
    destruct ts as [|t1 ts1]; [discriminate|].
    destruct t1; try discriminate.
    destruct ts1 as [|t2 r0]; [discriminate|].
    destruct t2; try discriminate.
    destruct (parseValue f r0) as [[v1 rest]|] eqn:E; [|discriminate].
    destruct rest as [|t r1]; [discriminate|].
    apply IHv in E as [L1 F1].
    destruct t; try discriminate.
    + (* closing brace *)
      injection H as <- <-. split; [cbn [List.length] in *; lia|].
      intros [|f'] Hf; [cbn [List.length] in *; lia|].
      cbn [parseMembers]. rewrite F1 by (cbn [List.length] in *; lia). reflexivity.
    + (* comma *)
      apply IHm in H as [L2 F2]. split; [cbn [List.length] in *; lia|].
      intros [|f'] Hf; [cbn [List.length] in *; lia|].
      cbn [parseMembers]. rewrite F1 by (cbn [List.length] in *; lia).
      apply F2. cbn [List.length] in *; lia.
Qed.

(** Whatever fuel lets the parser read all the tokens of a text, [JSON_parse]
    reads the same value: its own fuel never falls short. *)
Lemma JSON_parse_fuel (s : jsstring) (ts : list token) (f : nat) (v : value) :
  lex 0 s = Some ts ->
  parseValue f ts = Some (v, []) ->
  JSON_parse s = Some v.
Proof.
  intros L P. unfold JSON_parse. rewrite L.
  destruct (parse_fuel f) as (Hv & _ & _).
  destruct (Hv ts v [] P) as [_ F].
  rewrite F by (simpl; lia). reflexivity.
Qed.

(* ================================================================= *)
(** * Part XII. The pipeline on concrete inputs *)

(** Numbers and strings. *)
Example Number_of_strings :
  StringToNumber (lit " 12.5e1 ") = ofZ 125
  /\ StringToNumber (lit "0x1F") = ofZ 31
  /\ StringToNumber (lit "") = num_0
  /\ StringToNumber (lit "-0") = S754_zero true
  /\ StringToNumber (lit "75%") = NaN
  /\ StringToNumber (lit "1,5") = NaN
  /\ StringToNumber (lit "-Infinity") = Infinity true.
Proof. repeat split; vm_compute; reflexivity. Qed.

Example String_of_numbers :
  NumberToString (decimalToNumber false 1 (-1)) = lit "0.1"
  /\ NumberToString (ofZ (-1250)) = lit "-1250"
  /\ NumberToString (decimalToNumber false 1 21) = lit "1e+21"
  /\ NumberToString (decimalToNumber false 15 (-8)) = lit "1.5e-7"
  /\ NumberToString (decimalToNumber false 5 (-324)) = lit "5e-324"
  /\ NumberToString (num_div (ofZ 1) (ofZ 3)) = lit "0.3333333333333333".
Proof. repeat split; vm_compute; reflexivity. Qed.

Example JSON_parse_examples :
  JSON_parse (json "{'a': [1, true, null], 'a': 'x'}")
  = Some (VObj [(lit "a", VStr (lit "x"))])
  /\ JSON_parse (json "[1, 2,]") = None
  /\ JSON_parse (json "{'a': 01}") = None
  /\ JSON_parse (lit "{'a': 1}") = None
  /\ JSON_parse (json "'tab\tandA'") = Some (VStr (lit "tab" ++ [9%N] ++ lit "andA")).
Proof. repeat split; vm_compute; reflexivity. Qed.

(** Fences, typographic quotes around keys, a trailing comma. *)
Example repair_fenced_answer :
  extractSentiment
    (Some (lit "```json" ++ [10%N]
           ++ json "{'label': 'Very Bullish', 'score': 0.9, 'summary': 'up',}"
           ++ [10%N] ++ lit "```"))
  = Some {| label := Mood VeryBullish;
            score := decimalToNumber false 9 (-1);
            summary := lit "up";
            tickers := [] |}.
Proof. vm_compute. reflexivity. Qed.

Example repair_single_quotes :
  extractSentiment (Some (lit "Here you go: {'label': 'mixed', 'score': '-5'} Thanks"))
  = Some {| label := Mood Neutral;
            score := decimalToNumber true 5 (-2);
            summary := [];
            tickers := [] |}.
Proof. vm_compute. reflexivity. Qed.

(** The boundaries of the label inference. *)
Example inference_boundaries :
  map inferLabel
    [ decimalToNumber true 6 (-1); decimalToNumber true 59 (-2);
      decimalToNumber true 2 (-1); decimalToNumber false 2 (-1);
      decimalToNumber false 21 (-2); decimalToNumber false 6 (-1) ]
  = [ VeryBearish; Bearish; Neutral; Neutral; Bullish; VeryBullish ].
Proof. vm_compute. reflexivity. Qed.

(** Scores: strings are rescaled, numbers are not. *)
Example score_rescaling :
  parseScore (VStr (lit "75%")) = Some (decimalToNumber false 75 (-2))
  /\ parseScore (VStr (lit "80")) = Some (decimalToNumber false 8 (-1))
  /\ parseScore (VNum (decimalToNumber false 3 (-1))) = Some (decimalToNumber false 3 (-1))
  /\ parseScore (VNum (ofZ 80)) = Some (ofZ 80)
  /\ parseScore (VStr (lit "250%")) = Some num_1
  /\ parseScore (VStr (lit "150")) = Some (ofZ 150)
  /\ parseScore (VStr (lit "high")) = None
  /\ parseScore VNull = None.
Proof. repeat split; vm_compute; reflexivity. Qed.

(** Ticker keys. *)
Example ticker_filtering :
  normalizeTickerKey (VStr (lit "aapl1234567")) = None
  /\ normalizeTickerKey (VStr (lit " aapl ")) = Some (lit "AAPL")
  /\ normalizeTickerKey (VStr (lit "BRK-B")) = None
  /\ normalizeTickerKey (VNum (ofZ 7)) = None.
Proof. repeat split; vm_compute; reflexivity. Qed.

Example tickers_of_a_mapping :
  coerceTickers
    (safeParseJson
       (json "{'msft': {'score': '40%', 'explanation': 'cloud'}, 'tsla': null, 'x y': 1, 'goog': {'explanation': 'no score'}, '7': 0.5, 'Msft': -1}"))
  = [ (lit "7", {| t_score := decimalToNumber false 5 (-1); t_explanation := [] |});
      (lit "MSFT", {| t_score := num_m1; t_explanation := [] |});
      (lit "TSLA", {| t_score := num_0; t_explanation := [] |}) ].
Proof. vm_compute. reflexivity. Qed.

Example tickers_of_an_array :
  coerceTickers
    (safeParseJson
       (json "[{'ticker': 'nvda', 'score': 0.25, 'explanation': 'chips'}, {'symbol': 'amd'}, 5, {'code': 'ibm', 'score': '10'}]"))
  = [ (lit "NVDA", {| t_score := decimalToNumber false 25 (-2); t_explanation := lit "chips" |});
      (lit "IBM", {| t_score := decimalToNumber false 1 (-1); t_explanation := [] |}) ].
Proof. vm_compute. reflexivity. Qed.

(** Labels: synonyms, a label in an array, and the inherited property. *)
Example labels_normalized :
  normalizeLabel (VStr (lit "Very_Positive")) = Some (Mood VeryBullish)
  /\ normalizeLabel (VStr (lit " somewhat  bullish ")) = Some (Mood Bullish)
  /\ normalizeLabel (VArr [VStr (lit "Downbeat")]) = Some (Mood Bearish)
  /\ normalizeLabel (VStr (lit "sideways")) = None
  /\ normalizeLabel (VNum (ofZ 1)) = None
  /\ normalizeLabel (VStr (lit "Constructor")) = Some ObjectConstructor.
Proof. repeat split; vm_compute; reflexivity. Qed.

(** A rate limit, then an answer: the call sleeps once and returns the
    record. *)
Example retry_then_success :
  let answer :=
    [ {| b_type := lit "text";
         b_text := Some (json "{'label': 'Bearish', 'score': -0.4, 'summary': 'down'}") |} ] in
  let p := buildMarketPrompt (ofZ 3000) (lit "  Stocks fell.  ") in
  MarketCsv.scoreMarket (ofZ 3000)
    (scripted [Raise rateLimitError] (Answer answer)) (lit "  Stocks fell.  ")
  = (Returned {| label := Mood Bearish;
                 score := decimalToNumber true 4 (-1);
                 summary := lit "down";
                 tickers := [] |},
     [Request false p; Sleep (ofZ 2000); Request false p])
  /\ p = promptHead ++ lit "Stocks fell.".
Proof. split; vm_compute; reflexivity. Qed.

(* ================================================================= *)
(** * Part XIII. The CSV reader and writer *)

(** ** [join] *)

Lemma join_cons (sep x : jsstring) (l : list jsstring) :
  l <> [] -> join sep (x :: l) = x ++ sep ++ join sep l.
Proof. destruct l; [congruence|reflexivity]. Qed.

Lemma join_snoc (sep x : jsstring) (l : list jsstring) :
  l <> [] -> join sep (l ++ [x]) = join sep l ++ sep ++ x.
Proof.
  induction l as [|y l IH]; [congruence|]. intros _.
  destruct l as [|z l].
  - reflexivity.
  - change ((y :: z :: l) ++ [x]) with (y :: ((z :: l) ++ [x])).
    rewrite (join_cons sep y ((z :: l) ++ [x])) by discriminate.
    rewrite IH by discriminate.
    rewrite (join_cons sep y (z :: l)) by discriminate.
    now rewrite <- !app_assoc.
Qed.

Lemma join_last (sep x y : jsstring) (l : list jsstring) :
  join sep (l ++ [x ++ y]) = join sep (l ++ [x]) ++ y.
Proof.
  induction l as [|z l _] using rev_ind; [reflexivity|].
  transitivity (join sep (l ++ [z]) ++ sep ++ (x ++ y)).
  - apply (join_snoc sep (x ++ y) (l ++ [z])). now destruct l.
  - rewrite (join_snoc sep x (l ++ [z])) by (now destruct l).
    now rewrite <- !app_assoc.
Qed.

(** ** [parseLine] *)

Lemma parseLineFrom_open (r cur : jsstring) (cells : list jsstring) :
  parseLineFrom (QUOTE :: r) false cur cells = parseLineFrom r true cur cells.
Proof. cbn. now destruct r. Qed.

(** Inside a quoted part, the doubled text of [s] and the closing quote
    add [s] to the cell, provided no quote follows the closing one. *)
Lemma parseLineFrom_quoted (s rest cur : jsstring) (cells : list jsstring) :
  match rest with c :: _ => (c =? QUOTE)%N = false | [] => True end ->
  parseLineFrom (doubleQuotes s ++ QUOTE :: rest) true cur cells
  = parseLineFrom rest false (cur ++ s) cells.
Proof.
  intros Hrest. revert cur.
  induction s as [|c s IH]; intros cur.
  - rewrite app_nil_r. cbn. destruct rest as [|d rest]; [reflexivity|].
    now rewrite Hrest.
  - cbn [doubleQuotes flat_map]. fold (doubleQuotes s).
    destruct (c =? QUOTE)%N eqn:E.
    + apply N.eqb_eq in E. subst c. cbn.
      rewrite IH. now rewrite <- app_assoc.
    + cbn [app parseLineFrom]. rewrite E.
      replace ((c =? COMMA)%N && negb true) with false by now rewrite andb_false_r.
      rewrite IH. now rewrite <- app_assoc.
Qed.

Lemma parseLineFrom_row (vs : list value) (cells : list jsstring) :
  vs <> [] ->
  parseLineFrom (csvRow vs) false [] cells = cells ++ map cellText vs.
Proof.
  revert cells. induction vs as [|v vs IH]; [congruence|]. intros cells _.
  destruct vs as [|v' vs].
  - cbn [csvRow map join]. unfold quoteCell.
    rewrite parseLineFrom_open.
    now rewrite (parseLineFrom_quoted (cellText v) [] [] cells I).
  - unfold csvRow. cbn [map]. rewrite join_cons by discriminate.
    unfold quoteCell at 1. cbn [app]. rewrite parseLineFrom_open.
    rewrite <- app_assoc. cbn [app].
    rewrite (parseLineFrom_quoted (cellText v) _ [] cells) by reflexivity.
    cbn [parseLineFrom app]. change (COMMA =? QUOTE)%N with false.
    change ((COMMA =? COMMA)%N && negb false) with true. cbv iota.
    change (join [COMMA] (quoteCell v' :: map quoteCell vs)) with (csvRow (v' :: vs)).
    rewrite IH by discriminate. now rewrite <- app_assoc.
Qed.



Lemma parseLineFrom_plain (line cur : jsstring) (cells : list jsstring) :
  lacks QUOTE line = true ->
  join [COMMA] (parseLineFrom line false cur cells)
  = join [COMMA] (cells ++ [cur]) ++ line
  /\ (List.length (parseLineFrom line false cur cells)
      = List.length cells + 1 + List.length (filter (N.eqb COMMA) line))%nat
  /\ (Forall (fun c => lacks COMMA c = true) cells ->
      lacks COMMA cur = true ->
      Forall (fun c => lacks COMMA c = true) (parseLineFrom line false cur cells)).
Proof.
  revert cur cells. induction line as [|c line IH]; intros cur cells H.
  - cbn. rewrite app_nil_r, length_app. cbn. repeat split; [lia|].
    intros F1 F2. apply Forall_app. split; [exact F1|now constructor].
  - cbn [lacks forallb] in H. apply andb_prop in H as [Hc Hl].
    apply negb_true_iff in Hc. cbn [parseLineFrom]. rewrite Hc.
    rewrite andb_true_r. cbn [filter]. rewrite (N.eqb_sym COMMA c).
    destruct (c =? COMMA)%N eqn:E.
    + apply N.eqb_eq in E. subst c.
      destruct (IH [] (cells ++ [cur]) Hl) as (J & L & F). split; [|split].
      * rewrite J. rewrite join_snoc by (now destruct cells).
        now rewrite <- !app_assoc.
      * rewrite L, length_app. cbn. lia.
      * intros F1 F2. apply F; [|reflexivity].
        apply Forall_app. split; [exact F1|now constructor].
    + destruct (IH (cur ++ [c]) cells Hl) as (J & L & F). split; [|split].
      * rewrite J, join_last. now rewrite <- app_assoc.
      * exact L.
      * intros F1 F2. apply F; [exact F1|].
        unfold lacks. rewrite forallb_app. apply andb_true_intro.
        split; [exact F2|]. cbn [forallb]. now rewrite E.
Qed.

(** X2. On a line without double quotes [parseLine] is the split at the
    commas: joining the cells with commas gives the line back, there is one
    cell more than there are commas, and no cell holds a comma. *)
Theorem parseLine_plain (line : jsstring) :
  lacks QUOTE line = true ->
  join [COMMA] (parseLine line) = line
  /\ List.length (parseLine line) = S (List.length (filter (N.eqb COMMA) line))
  /\ Forall (fun c => lacks COMMA c = true) (parseLine line).
Proof.
  intros H. destruct (parseLineFrom_plain line [] [] H) as (J & L & F).
  unfold parseLine. repeat split.
  - exact J.
  - rewrite L. reflexivity.
  - now apply F.
Qed.

Lemma parseLine_plain_witness :
  join [COMMA] (parseLine (lit "u,,t")) = lit "u,,t"
  /\ List.length (parseLine (lit "u,,t")) = 3%nat
  /\ Forall (fun c => lacks COMMA c = true) (parseLine (lit "u,,t")).
Proof.
  exact (parseLine_plain (lit "u,,t") eq_refl).
Defined.

(** ** [split] at the line breaks *)

Lemma splitLinesFrom_nonempty (text cur : jsstring) : splitLinesFrom text cur <> [].
Proof.
  revert cur.
  assert (G : forall n text, (List.length text <= n)%nat ->
                              forall cur, splitLinesFrom text cur <> []).
  { induction n as [|n IH]; intros [|c rest] Hn cur; cbn in *; try discriminate; try lia.
    destruct (c =? LF)%N; [discriminate|].
    destruct (c =? CR)%N; [|apply IH; lia].
    destruct rest as [|d after]; [discriminate|].
    destruct (d =? LF)%N; [discriminate|]. apply IH. cbn in *. lia. }
  exact (G (List.length text) text (le_n _)).
Qed.

Lemma last_cons_cons {A : Type} (x y : A) (l : list A) (d : A) :
  last (x :: y :: l) d = last (y :: l) d.
Proof. reflexivity. Qed.

(** A line feed ends the line that is open, whatever follows it. *)
Lemma splitLinesFrom_break (a b cur : jsstring) :
  splitLinesFrom (a ++ LF :: b) cur
  = removelast (splitLinesFrom (a ++ [LF]) cur) ++ splitLines b.
Proof.
  revert cur.
  assert (G : forall n a, (List.length a <= n)%nat -> forall cur,
             splitLinesFrom (a ++ LF :: b) cur
             = removelast (splitLinesFrom (a ++ [LF]) cur) ++ splitLines b).
  { induction n as [|n IH]; intros [|c a'] Hn cur; try (cbn in Hn; lia);
      try reflexivity.
    cbn [app splitLinesFrom]. cbn in Hn.
    assert (R : forall t, removelast (cur :: splitLinesFrom t [])
                          = cur :: removelast (splitLinesFrom t [])).
    { intros t. cbn. destruct (splitLinesFrom t []) eqn:E; [|reflexivity].
      now apply splitLinesFrom_nonempty in E. }
    destruct (c =? LF)%N.
    { rewrite R, IH by lia. reflexivity. }
    destruct (c =? CR)%N; [|apply IH; lia].
    destruct a' as [|d a'']; cbn [app].
    { change (LF =? LF)%N with true. cbv iota. reflexivity. }
    destruct (d =? LF)%N.
    - rewrite R, IH by (cbn in Hn; lia). reflexivity.
    - apply (IH (d :: a'')). cbn in *. lia. }
  exact (G (List.length a) a (le_n _)).
Qed.

(** A text without line feed that does not end in a carriage return is one
    line. *)
Lemma splitLinesFrom_line (l cur : jsstring) :
  lacks LF l = true -> last l 0%N <> CR ->
  splitLinesFrom (l ++ [LF]) cur = [cur ++ l; []].
Proof.
  revert cur. induction l as [|c l IH]; intros cur H1 H2.
  - cbn. now rewrite app_nil_r.
  - cbn [lacks forallb] in H1. apply andb_prop in H1 as [Hc Hl].
    apply negb_true_iff in Hc. cbn [app splitLinesFrom]. rewrite Hc.
    assert (T : splitLinesFrom (l ++ [LF]) (cur ++ [c]) = [cur ++ c :: l; []]).
    { rewrite IH; [now rewrite <- app_assoc|exact Hl|].
      destruct l; [discriminate|exact H2]. }
    destruct (c =? CR)%N eqn:E; [|exact T].
    destruct l as [|d l]; [apply N.eqb_eq in E; now subst c|].
    cbn [app]. cbn [lacks forallb] in Hl. apply andb_prop in Hl as [Hd _].
    apply negb_true_iff in Hd. rewrite Hd. exact T.
Qed.

Lemma splitLines_lines (l rest : jsstring) :
  lacks LF l = true -> last l 0%N <> CR ->
  splitLines (l ++ LF :: rest) = l :: splitLines rest.
Proof.
  intros H1 H2. unfold splitLines at 1.
  now rewrite splitLinesFrom_break, splitLinesFrom_line.
Qed.

(** X3. [parseCSV] skips empty lines: a second line feed right after a line
    feed changes nothing. *)
Theorem parseCSV_blank_line (a b : jsstring) :
  parseCSV (a ++ LF :: LF :: b) = parseCSV (a ++ LF :: b).
Proof.
  unfold parseCSV, splitLines.
  rewrite (splitLinesFrom_break a (LF :: b)), (splitLinesFrom_break a b).
  rewrite !filter_app. reflexivity.
Qed.

(** A carriage return before a line feed belongs to the line break, unless
    another carriage return stands before it. *)
Lemma splitLinesFrom_crlf (a b cur : jsstring) :
  last a 0%N <> CR ->
  splitLinesFrom (a ++ CR :: LF :: b) cur = splitLinesFrom (a ++ LF :: b) cur.
Proof.
  revert cur.
  assert (G : forall n a, (List.length a <= n)%nat -> last a 0%N <> CR ->
             forall cur,
               splitLinesFrom (a ++ CR :: LF :: b) cur
               = splitLinesFrom (a ++ LF :: b) cur).
  { induction n as [|n IH]; intros [|c a'] Hn Hl cur; try (cbn in Hn; lia);
      try reflexivity.
    cbn [app splitLinesFrom]. cbn in Hn.
    assert (Hl' : last a' 0%N <> CR) by (destruct a'; [discriminate|exact Hl]).
    destruct (c =? LF)%N.
    { rewrite IH by (auto; lia). reflexivity. }
    destruct (c =? CR)%N eqn:E; [|apply IH; auto; lia].
    destruct a' as [|d a'']; [apply N.eqb_eq in E; now subst c|].
    cbn [app].
    destruct (d =? LF)%N.
    - rewrite IH; [reflexivity|cbn in Hn; lia|].
      destruct a''; [discriminate|exact Hl'].
    - apply (IH (d :: a'')); [cbn in *; lia|exact Hl']. }
  intros cur H. exact (G (List.length a) a (le_n _) H cur).
Qed.

Lemma endsWith_last (c : codeunit) (a : jsstring) :
  endsWith [c] a = false -> c <> 0%N -> last a 0%N <> c.
Proof.
  intros H Hc. induction a as [|x a _] using rev_ind; [cbn; congruence|].
  rewrite last_last. unfold endsWith in H. rewrite rev_app_distr in H.
  cbn in H. rewrite andb_true_r in H. apply N.eqb_neq in H. congruence.
Qed.

(** X4. A carriage return and a line feed end a line as a line feed alone
    does, when no other carriage return stands right before them. *)
Theorem parseCSV_crlf (a b : jsstring) :
  endsWith [CR] a = false ->
  parseCSV (a ++ CR :: LF :: b) = parseCSV (a ++ LF :: b).
Proof.
  intros H. unfold parseCSV, splitLines.
  rewrite splitLinesFrom_crlf; [reflexivity|].
  now apply endsWith_last.
Qed.

Lemma parseCSV_crlf_witness :
  parseCSV (lit "url,text" ++ CR :: LF :: lit "u,hello")
  = parseCSV (lit "url,text" ++ LF :: lit "u,hello").
Proof.
  exact (parseCSV_crlf (lit "url,text") (lit "u,hello") eq_refl).
Defined.

(** ** No line feed in a cell *)

Lemma lacks_app (c : codeunit) (a b : jsstring) :
  lacks c (a ++ b) = lacks c a && lacks c b.
Proof. apply forallb_app. Qed.

Lemma lacks_cons (c x : codeunit) (a : jsstring) :
  lacks c (x :: a) = negb (x =? c)%N && lacks c a.
Proof. reflexivity. Qed.

Lemma splitLinesFrom_lacks (text cur : jsstring) :
  lacks LF cur = true ->
  Forall (fun l => lacks LF l = true) (splitLinesFrom text cur).
Proof.
  revert cur.
  assert (G : forall n text, (List.length text <= n)%nat -> forall cur,
             lacks LF cur = true ->
             Forall (fun l => lacks LF l = true) (splitLinesFrom text cur)).
  { induction n as [|n IH]; intros [|c rest] Hn cur Hcur;
      try (cbn in Hn; lia); try (now repeat constructor).
    cbn in Hn. cbn [splitLinesFrom].
    assert (K : lacks LF (cur ++ [c]) = true \/ (c =? LF)%N = true).
    { destruct (c =? LF)%N eqn:E; [now right|left].
      rewrite lacks_app, Hcur, lacks_cons, E. reflexivity. }
    destruct (c =? LF)%N eqn:E.
    { constructor; [exact Hcur|]. apply IH; [lia|reflexivity]. }
    destruct K as [K|K]; [|discriminate].
    destruct (c =? CR)%N; [|apply IH; [lia|exact K]].
    destruct rest as [|d after]; [now repeat constructor|].
    destruct (d =? LF)%N.
    - constructor; [exact Hcur|]. apply IH; [cbn in Hn; lia|reflexivity].
    - apply IH; [cbn in *; lia|exact K]. }
  exact (G (List.length text) text (le_n _)).
Qed.

Lemma parseLineFrom_lacks (c : codeunit) (line : jsstring) :
  lacks c line = true ->
  forall inq cur cells,
    lacks c cur = true ->
    Forall (fun x => lacks c x = true) cells ->
    Forall (fun x => lacks c x = true) (parseLineFrom line inq cur cells).
Proof.
  assert (G : forall n line, (List.length line <= n)%nat ->
             lacks c line = true ->
             forall inq cur cells,
               lacks c cur = true ->
               Forall (fun x => lacks c x = true) cells ->
               Forall (fun x => lacks c x = true) (parseLineFrom line inq cur cells)).
  { induction n as [|n IH]; intros [|ch rest] Hn Hline inq cur cells Hcur Hcells;
      try (cbn in Hn; lia);
      try (cbn; apply Forall_app; split; [exact Hcells|now constructor]).
    cbn in Hn. rewrite lacks_cons in Hline. apply andb_prop in Hline as [Hch Hrest].
    cbn [parseLineFrom].
    assert (Hsnoc : lacks c (cur ++ [ch]) = true).
    { rewrite lacks_app, Hcur, lacks_cons, Hch. reflexivity. }
    destruct (ch =? QUOTE)%N eqn:Q.
    - destruct rest as [|next after]; [apply IH; auto; lia|].
      destruct (inq && (next =? QUOTE)%N).
      + rewrite lacks_cons in Hrest. apply andb_prop in Hrest as [_ Hafter].
        apply IH; auto; [cbn in Hn; lia|].
        apply N.eqb_eq in Q. now subst ch.
      + apply IH; auto. cbn in *. lia.
    - destruct ((ch =? COMMA)%N && negb inq).
      + apply IH; auto; [lia|].
        apply Forall_app. split; [exact Hcells|now constructor].
      + apply IH; auto. lia. }
  intros H. exact (G (List.length line) line (le_n _) H).
Qed.

Lemma cellAt_lacks (c : codeunit) (cells : list jsstring) (i : Z) :
  Forall (fun x => lacks c x = true) cells -> lacks c (cellAt cells i) = true.
Proof.
  intros F. unfold cellAt. destruct (i <? 0); [reflexivity|].
  destruct (nth_error cells (Z.to_nat i)) as [x|] eqn:E; [|reflexivity].
  apply nth_error_In in E. rewrite Forall_forall in F. now apply F.
Qed.

Lemma parseCSV_lacks (text : jsstring) (row : Row) :
  In row (parseCSV text) ->
  lacks LF (row_url row) = true
  /\ lacks LF (row_title row) = true
  /\ lacks LF (row_text row) = true.
Proof.
  unfold parseCSV.
  pose proof (splitLinesFrom_lacks text [] eq_refl) as F.
  fold (splitLines text) in F.
  assert (F' : Forall (fun l => lacks LF l = true) (filter nonEmpty (splitLines text))).
  { rewrite Forall_forall in *. intros l Hl. apply filter_In in Hl. now apply F. }
  destruct (filter nonEmpty (splitLines text)) as [|first body]; [contradiction|].
  inversion F' as [|? ? _ Fbody]; subst.
  intros Hin. apply in_map_iff in Hin as (line & <- & Hline).
  rewrite Forall_forall in Fbody. specialize (Fbody line Hline).
  cbn [row_url row_title row_text].
  repeat split; apply cellAt_lacks; unfold parseLine;
    apply parseLineFrom_lacks; auto.
Qed.

(** X5. No cell that [parseCSV] returns holds a line feed: a line break
    inside a quoted cell ends the row. *)
Theorem parseCSV_no_line_feed (text : jsstring) :
  Forall (fun row =>
            lacks LF (row_url row) = true
            /\ lacks LF (row_title row) = true
            /\ lacks LF (row_text row) = true)
         (parseCSV text).
Proof.
  apply Forall_forall. intros row. apply parseCSV_lacks.
Qed.

(* ================================================================= *)
(** * Part XIV. What a call of [scoreMarket] costs and when it succeeds *)

Lemma Market_attempts_effort (oracle : Oracle) (p : jsstring) (remaining : nat) :
  forall attempt log,
    exists r ext,
      MarketCsv.attempts oracle p remaining attempt log = (Returned r, log ++ ext)
      /\ (requestsMade ext <= remaining)%nat
      /\ (S (List.length (sleepsOf ext)) = requestsMade ext
          \/ (r = errorRecord exhaustedMessage
              /\ requestsMade ext = remaining
              /\ List.length (sleepsOf ext) = remaining))
      /\ Forall (fun e => isRequest e = true -> e = Request false p) ext.
Proof.
  induction remaining as [|n IH]; intros attempt log; cbn [MarketCsv.attempts].
  - exists (errorRecord exhaustedMessage), []. rewrite app_nil_r.
    repeat split; auto; try now right.
  - assert (One : forall r,
               exists r' ext,
                 (Returned r, log ++ [Request false p])
                 = (Returned r', log ++ ext)
                 /\ (requestsMade ext <= S n)%nat
                 /\ (S (List.length (sleepsOf ext)) = requestsMade ext
                     \/ (r' = errorRecord exhaustedMessage
                         /\ requestsMade ext = S n
                         /\ List.length (sleepsOf ext) = S n))
                 /\ Forall (fun e => isRequest e = true -> e = Request false p) ext).
    { intros r. exists r, [Request false p]. cbn.
      repeat split; auto; try lia; now repeat constructor. }
    destruct (MarketCsv.attemptBody _) as [r|e]; [apply One|].
    destruct (MarketCsv.rateLimited e); [|apply One].
    destruct (IH (S attempt)
                ((log ++ [Request false p]) ++ [Sleep (retryAfterMs e attempt)]))
      as (r & ext & E & Hreq & Hsl & Hall).
    exists r, ([Request false p] ++ [Sleep (retryAfterMs e attempt)] ++ ext).
    rewrite E, <- !app_assoc. split; [reflexivity|].
    rewrite !requestsMade_app, !sleepsOf_app, !length_app.
    change (requestsMade [Request false p]) with 1%nat.
    change (requestsMade [Sleep (retryAfterMs e attempt)]) with 0%nat.
    cbn [sleepsOf flat_map app List.length].
    split; [lia|split].
    + destruct Hsl as [Hsl|(Hr & H1 & H2)]; [left; lia|right].
      repeat split; auto; lia.
    + constructor; [reflexivity|]. constructor; [discriminate|exact Hall].
Qed.

(** X6. Whatever the oracle does, a call of the first scorer makes between
    one and five requests, all with the prompt built from the text, and
    pauses once between two requests; only when the last of five requests
    is refused for a rate limit does it pause a fifth time, and then it
    returns the sentinel of the exhausted retries. *)
Theorem Market_effort (M : number) (oracle : Oracle) (text : jsstring) :
  exists r log,
    MarketCsv.scoreMarket M oracle text = (Returned r, log)
    /\ (1 <= requestsMade log <= 5)%nat
    /\ (S (List.length (sleepsOf log)) = requestsMade log
        \/ (r = errorRecord exhaustedMessage
            /\ requestsMade log = 5%nat
            /\ List.length (sleepsOf log) = 5%nat))
    /\ Forall (fun e => isRequest e = true ->
                        e = Request false (buildMarketPrompt M text)) log.
Proof.
  unfold MarketCsv.scoreMarket.
  destruct (Market_attempts_effort oracle (buildMarketPrompt M text) 5 0 [])
    as (r & ext & E & Hreq & Hsl & Hall).
  exists r, ext. split; [exact E|]. repeat split; auto.
  destruct Hsl as [Hsl|(_ & H1 & _)]; lia.
Qed.

Lemma Market_effort_witness :
  exists r log,
    MarketCsv.scoreMarket (ofZ 3000)
      (scripted [Raise rateLimitError] (Answer bearishAnswer)) (lit "Stocks fell.")
    = (Returned r, log)
    /\ (1 <= requestsMade log <= 5)%nat
    /\ (S (List.length (sleepsOf log)) = requestsMade log
        \/ (r = errorRecord exhaustedMessage
            /\ requestsMade log = 5%nat
            /\ List.length (sleepsOf log) = 5%nat))
    /\ Forall (fun e => isRequest e = true ->
                        e = Request false (buildMarketPrompt (ofZ 3000) (lit "Stocks fell.")))
              log.
Proof.
  exact (Market_effort (ofZ 3000)
           (scripted [Raise rateLimitError] (Answer bearishAnswer)) (lit "Stocks fell.")).
Defined.

(** The [try] block of the second scorer makes one request with a
    [response_format], or that one and a second one without. *)
Lemma Part000_body_effort (oracle : Oracle) (p : jsstring) (log : list Event) :
  exists c ext,
    Part000.attemptBody oracle p log = (c, log ++ ext)
    /\ (1 <= requestsMade ext <= 2)%nat
    /\ sleepsOf ext = []
    /\ (ext = [Request true p] \/ ext = [Request true p; Request false p]).
Proof.
  unfold Part000.attemptBody.
  destruct (oracle (requestsMade log) true p) as [content|e].
  - exists (readAnswer content), [Request true p]. cbn. repeat split; auto.
  - destruct (Part000.maybeIncompatible e).
    + destruct (oracle _ false p) as [content|e2];
        [exists (readAnswer content), [Request true p; Request false p]
        |exists (Threw e2), [Request true p; Request false p]];
        rewrite <- app_assoc; cbn; repeat split; auto.
    + exists (Threw e), [Request true p]. cbn. repeat split; auto.
Qed.

Lemma Part000_attempts_effort (oracle : Oracle) (p : jsstring) (remaining : nat) :
  forall attempt log,
    exists r ext tries,
      Part000.attempts oracle p remaining attempt log = (Returned r, log ++ ext)
      /\ (tries <= remaining)%nat
      /\ (tries <= requestsMade ext <= 2 * tries)%nat
      /\ (S (List.length (sleepsOf ext)) = tries
          \/ (r = errorRecord exhaustedMessage
              /\ tries = remaining
              /\ List.length (sleepsOf ext) = remaining))
      /\ Forall (fun e => isRequest e = true -> exists wf, e = Request wf p) ext.
Proof.
  induction remaining as [|n IH]; intros attempt log; cbn [Part000.attempts].
  - exists (errorRecord exhaustedMessage), [], 0%nat. rewrite app_nil_r.
    repeat split; auto; try now right.
  - destruct (Part000_body_effort oracle p log) as (c & ext & E & Hreq & Hsl & Hshape).
    rewrite E.
    assert (Hall : Forall (fun e => isRequest e = true -> exists wf, e = Request wf p) ext).
    { destruct Hshape as [->| ->]; repeat constructor; eauto. }
    assert (One : forall r,
               exists r' ext' tries,
                 (Returned r, log ++ ext) = (Returned r', log ++ ext')
                 /\ (tries <= S n)%nat
                 /\ (tries <= requestsMade ext' <= 2 * tries)%nat
                 /\ (S (List.length (sleepsOf ext')) = tries
                     \/ (r' = errorRecord exhaustedMessage
                         /\ tries = S n
                         /\ List.length (sleepsOf ext') = S n))
                 /\ Forall (fun e => isRequest e = true -> exists wf, e = Request wf p) ext').
    { intros r. exists r, ext, 1%nat. rewrite Hsl. cbn. repeat split; auto; lia. }
    destruct c as [r|e]; [apply One|].
    destruct (Part000.rateLimited e); [|apply One].
    destruct (IH (S attempt) ((log ++ ext) ++ [Sleep (retryAfterMs e attempt)]))
      as (r & ext' & tries & E' & Ht & Hreq' & Hsl' & Hall').
    exists r, (ext ++ [Sleep (retryAfterMs e attempt)] ++ ext'), (S tries).
    rewrite E', <- !app_assoc. split; [reflexivity|].
    rewrite !requestsMade_app, !sleepsOf_app, !length_app, Hsl.
    change (requestsMade [Sleep (retryAfterMs e attempt)]) with 0%nat.
    cbn [sleepsOf flat_map app List.length].
    split; [lia|split; [lia|split]].
    + destruct Hsl' as [Hsl'|(Hr & H1 & H2)]; [left; lia|right].
      repeat split; auto; lia.
    + apply Forall_app. split; [exact Hall|].
      constructor; [discriminate|exact Hall'].
Qed.

(** X7. Whatever the oracle does, a call of the second scorer runs between
    one and five attempts of one or two requests each, so at most ten
    requests, all with the prompt built from the text; it pauses once
    between two attempts, and a fifth time only when the fifth attempt is
    refused for a rate limit, which gives the sentinel of the exhausted
    retries. *)
Theorem Part000_effort (M : number) (oracle : Oracle) (text : jsstring) :
  exists r log tries,
    Part000.scoreMarket M oracle text = (Returned r, log)
    /\ (1 <= tries <= 5)%nat
    /\ (tries <= requestsMade log <= 2 * tries)%nat
    /\ (S (List.length (sleepsOf log)) = tries
        \/ (r = errorRecord exhaustedMessage
            /\ tries = 5%nat
            /\ List.length (sleepsOf log) = 5%nat))
    /\ Forall (fun e => isRequest e = true ->
                        exists wf, e = Request wf (buildMarketPrompt M text)) log.
Proof.
  unfold Part000.scoreMarket.
  destruct (Part000_attempts_effort oracle (buildMarketPrompt M text) 5 0 [])
    as (r & ext & tries & E & Ht & Hreq & Hsl & Hall).
  exists r, ext, tries. split; [exact E|]. repeat split; auto; try lia.
Qed.

Lemma Part000_effort_witness :
  exists r log tries,
    Part000.scoreMarket (ofZ 3000)
      (scripted [Raise rateLimitError] (Answer bearishAnswer)) (lit "Stocks fell.")
    = (Returned r, log)
    /\ (1 <= tries <= 5)%nat
    /\ (tries <= requestsMade log <= 2 * tries)%nat
    /\ (S (List.length (sleepsOf log)) = tries
        \/ (r = errorRecord exhaustedMessage
            /\ tries = 5%nat
            /\ List.length (sleepsOf log) = 5%nat))
    /\ Forall (fun e => isRequest e = true ->
                        exists wf,
                          e = Request wf (buildMarketPrompt (ofZ 3000) (lit "Stocks fell.")))
              log.
Proof.
  exact (Part000_effort (ofZ 3000)
           (scripted [Raise rateLimitError] (Answer bearishAnswer)) (lit "Stocks fell.")).
Defined.

(** ** Success *)




(* ================================================================= *)
(** * Part XV. [main]: from the rows to the lines of the output *)

(** ** The texts of the cells hold no line feed *)

Lemma ge32_lacks (s : jsstring) :
  Forall (fun c => (32 <= c)%N) s -> lacks LF s = true.
Proof.
  induction 1 as [|c s Hc _ IH]; [reflexivity|].
  rewrite lacks_cons, IH, andb_true_r. apply negb_true_iff, N.eqb_neq.
  unfold LF. lia.
Qed.

Lemma digitsAcc_ge32 (fuel : nat) :
  forall z acc,
    Forall (fun c => (32 <= c)%N) acc ->
    Forall (fun c => (32 <= c)%N) (digitsAcc fuel z acc).
Proof.
  induction fuel as [|f IH]; intros z acc Hacc; cbn [digitsAcc]; [exact Hacc|].
  assert (H : Forall (fun c => (32 <= c)%N) (Z.to_N (48 + z mod 10) :: acc)).
  { constructor; [|exact Hacc].
    pose proof (Z.mod_pos_bound z 10 eq_refl). lia. }
  destruct (z <? 10); [exact H|now apply IH].
Qed.

Lemma decimalDigits_ge32 (z : Z) : Forall (fun c => (32 <= c)%N) (decimalDigits z).
Proof. apply digitsAcc_ge32. constructor. Qed.

Lemma zeros_ge32 (n : Z) : Forall (fun c => (32 <= c)%N) (zeros n).
Proof.
  unfold zeros. induction (Z.to_nat n) as [|k IH]; cbn; constructor; [lia|exact IH].
Qed.

Lemma Forall_firstn {A : Type} (P : A -> Prop) (n : nat) (l : list A) :
  Forall P l -> Forall P (firstn n l).
Proof.
  intros H. rewrite Forall_forall in *. intros x Hx.
  apply H. rewrite <- (firstn_skipn n l). apply in_or_app. now left.
Qed.

Lemma Forall_skipn {A : Type} (P : A -> Prop) (n : nat) (l : list A) :
  Forall P l -> Forall P (skipn n l).
Proof.
  intros H. rewrite Forall_forall in *. intros x Hx.
  apply H. rewrite <- (firstn_skipn n l). apply in_or_app. now right.
Qed.

Lemma formatDigits_ge32 (ds : jsstring) (n k : Z) :
  Forall (fun c => (32 <= c)%N) ds ->
  Forall (fun c => (32 <= c)%N) (formatDigits ds n k).
Proof.
  intros H. unfold formatDigits.
  destruct ((k <=? n) && (n <=? 21)).
  { apply Forall_app. split; [exact H|apply zeros_ge32]. }
  destruct ((0 <? n) && (n <=? 21)).
  { apply Forall_app. split; [now apply Forall_firstn|].
    constructor; [lia|now apply Forall_skipn]. }
  destruct ((-6 <? n) && (n <=? 0)).
  { constructor; [lia|]. constructor; [lia|].
    apply Forall_app. split; [apply zeros_ge32|exact H]. }
  assert (T : Forall (fun c => (32 <= c)%N)
                ([101%N; if n - 1 <? 0 then 45%N else 43%N]
                 ++ decimalDigits (Z.abs (n - 1)))).
  { constructor; [lia|]. constructor; [destruct (n - 1 <? 0); lia|].
    apply decimalDigits_ge32. }
  cbv zeta.
  destruct ds as [|d [|d' r]]; [exact T| |].
  - inversion H; subst. now constructor.
  - inversion H as [|? ? Hd Hr]; subst. constructor; [exact Hd|].
    constructor; [lia|]. apply Forall_app. split; [exact Hr|exact T].
Qed.

Lemma lit_ge32 (s : string) :
  forallb (fun c => (32 <=? c)%N) (lit s) = true ->
  Forall (fun c => (32 <= c)%N) (lit s).
Proof.
  intros H. apply Forall_forall. intros c Hc.
  rewrite forallb_forall in H. apply N.leb_le. now apply H.
Qed.

Lemma NumberToString_ge32 (x : number) :
  Forall (fun c => (32 <= c)%N) (NumberToString x).
Proof.
  destruct x as [s|s| |s m e]; cbn [NumberToString];
    try (apply lit_ge32; reflexivity).
  - destruct s; apply lit_ge32; reflexivity.
  - destruct (if 0 <=? e then _ else _) as [num den].
    destruct (shortest _ _ _ _ _ _) as [[d n] k].
    apply Forall_app. split.
    + destruct s; repeat constructor. lia.
    + apply formatDigits_ge32, decimalDigits_ge32.
Qed.

Lemma hexDigit_ge32 (d : N) : (32 <= hexDigit d)%N.
Proof. unfold hexDigit. destruct (d <? 10)%N; lia. Qed.

Lemma quoteUnit_ge32 (c : codeunit) : Forall (fun x => (32 <= x)%N) (quoteUnit c).
Proof.
  unfold quoteUnit.
  repeat match goal with
         | |- context [if (c =? ?k)%N then _ else _] =>
             destruct (c =? k)%N; [repeat constructor; lia|]
         end.
  destruct (c <? 32)%N eqn:E; cbn [orb].
  - repeat constructor; try lia; apply hexDigit_ge32.
  - destruct (isHighSurrogate c || isLowSurrogate c).
    + repeat constructor; try lia; apply hexDigit_ge32.
    + apply N.ltb_ge in E. now repeat constructor.
Qed.

Lemma quoteUnits_ge32 (s : jsstring) : Forall (fun x => (32 <= x)%N) (quoteUnits s).
Proof.
  assert (G : forall n s, (List.length s <= n)%nat ->
                          Forall (fun x => (32 <= x)%N) (quoteUnits s)).
  { induction n as [|n IH]; intros [|c rest] Hn; try (cbn in Hn; lia);
      try constructor.
    cbn in Hn. cbn [quoteUnits].
    destruct rest as [|d after]; [apply quoteUnit_ge32|].
    destruct (isHighSurrogate c && isLowSurrogate d) eqn:E.
    - apply andb_prop in E as [E1 E2].
      unfold isHighSurrogate in E1. unfold isLowSurrogate in E2.
      apply andb_prop in E1 as [E1 _]. apply andb_prop in E2 as [E2 _].
      apply N.leb_le in E1, E2.
      constructor; [lia|]. constructor; [lia|]. apply IH. cbn in Hn. lia.
    - apply Forall_app. split; [apply quoteUnit_ge32|]. apply IH. cbn in *. lia. }
  exact (G (List.length s) s (le_n _)).
Qed.

Lemma quoteJSONString_ge32 (s : jsstring) :
  Forall (fun x => (32 <= x)%N) (quoteJSONString s).
Proof.
  unfold quoteJSONString. constructor; [unfold QUOTE; lia|].
  apply Forall_app. split; [apply quoteUnits_ge32|].
  constructor; [unfold QUOTE; lia|constructor].
Qed.

Lemma stringifyNumber_ge32 (n : number) :
  Forall (fun x => (32 <= x)%N) (stringifyNumber n).
Proof.
  destruct n; cbn [stringifyNumber]; try (apply lit_ge32; reflexivity);
    apply NumberToString_ge32.
Qed.

Lemma join_Forall (P : codeunit -> Prop) (sep : jsstring) (l : list jsstring) :
  Forall P sep -> Forall (Forall P) l -> Forall P (join sep l).
Proof.
  intros Hsep. induction 1 as [|x l Hx Hl IH]; [constructor|].
  destruct l as [|y l]; [exact Hx|].
  rewrite join_cons by discriminate.
  apply Forall_app. split; [exact Hx|]. apply Forall_app. split; [exact Hsep|exact IH].
Qed.

Lemma stringifyTickers_ge32 (t : Tickers) :
  Forall (fun x => (32 <= x)%N) (stringifyTickers t).
Proof.
  unfold stringifyTickers.
  apply Forall_app. split; [apply lit_ge32; reflexivity|].
  apply Forall_app. split; [|apply lit_ge32; reflexivity].
  apply join_Forall; [repeat constructor; unfold COMMA; lia|].
  apply Forall_forall. intros x Hx. apply in_map_iff in Hx as (e & <- & _).
  unfold stringifyTicker.
  repeat (apply Forall_app; split);
    try apply quoteJSONString_ge32; try apply stringifyNumber_ge32;
    apply lit_ge32; reflexivity.
Qed.

Lemma labelText_ge32 (l : LabelValue) : Forall (fun x => (32 <= x)%N) (labelText l).
Proof. destruct l as [[]| |]; apply lit_ge32; reflexivity. Qed.

Lemma doubleQuotes_lacks (c : codeunit) (s : jsstring) :
  lacks c s = true -> lacks c (doubleQuotes s) = true.
Proof.
  induction s as [|x s IH]; [reflexivity|].
  rewrite lacks_cons. intros H. apply andb_prop in H as [Hx Hs].
  cbn [doubleQuotes flat_map]. fold (doubleQuotes s).
  destruct (x =? QUOTE)%N eqn:E.
  - apply N.eqb_eq in E. subst x. cbn [app]. rewrite !lacks_cons, Hx. now apply IH.
  - cbn [app]. rewrite lacks_cons, Hx. now apply IH.
Qed.

Lemma csvRow_lacks (cells : list value) :
  Forall (fun v => lacks LF (cellText v) = true) cells ->
  lacks LF (csvRow cells) = true.
Proof.
  unfold csvRow. induction 1 as [|v cells Hv Hc IH]; [reflexivity|].
  assert (Q : lacks LF (quoteCell v) = true).
  { unfold quoteCell. rewrite lacks_cons, lacks_app, doubleQuotes_lacks by exact Hv.
    reflexivity. }
  cbn [map]. destruct cells as [|v' cells]; [exact Q|].
  cbn [map]. rewrite join_cons by discriminate.
  rewrite !lacks_app, Q. exact IH.
Qed.

Lemma csvRow_ends (cells : list value) :
  cells <> [] -> exists s, csvRow cells = s ++ [QUOTE].
Proof.
  unfold csvRow. induction cells as [|v cells IH]; [congruence|]. intros _.
  destruct cells as [|v' cells].
  - exists (QUOTE :: doubleQuotes (cellText v)). reflexivity.
  - destruct IH as (s & Hs); [discriminate|].
    cbn [map]. rewrite join_cons by discriminate. cbn [map] in Hs. rewrite Hs.
    exists (quoteCell v ++ [COMMA] ++ s). now rewrite <- !app_assoc.
Qed.

Lemma csvRow_nonEmpty (cells : list value) :
  cells <> [] -> nonEmpty (csvRow cells) = true.
Proof.
  destruct cells as [|v [|v' cells]]; [congruence| |]; reflexivity.
Qed.

(** ** Reading written rows back *)

(** The six cells of the line of a row that was scored. *)
Lemma resultLine_cells (row : Row) (r : SentimentRecord) :
  exists cells,
    resultLine row r = csvRow cells ++ [LF]
    /\ map cellText cells
       = [row_url row; row_title row; labelText (label r);
          NumberToString (score r); summary r; stringifyTickers (tickers r)].
Proof. eexists. split; reflexivity. Qed.

Lemma split_written (lines : list jsstring) (cells : list (list value)) :
  Forall2 (fun line c => line = csvRow c ++ [LF]
                         /\ c <> []
                         /\ lacks LF (csvRow c) = true) lines cells ->
  forall first,
    first <> [] -> lacks LF (csvRow first) = true ->
    filter nonEmpty (splitLines (List.concat ((csvRow first ++ [LF]) :: lines)))
    = csvRow first :: map csvRow cells.
Proof.
  induction 1 as [|line c lines cells (-> & Hc & Hl) _ IH]; intros first Hf Hfl.
  - cbn [List.concat map]. rewrite app_nil_r.
    replace (csvRow first ++ [LF]) with (csvRow first ++ LF :: []) by reflexivity.
    rewrite splitLines_lines; auto.
    + cbn. now rewrite csvRow_nonEmpty.
    + destruct (csvRow_ends first Hf) as (s & ->). rewrite last_last. discriminate.
  - cbn [List.concat]. rewrite <- app_assoc. cbn [app].
    rewrite splitLines_lines; auto.
    + cbn [filter]. rewrite csvRow_nonEmpty by exact Hf. f_equal.
      cbn [List.concat] in IH. cbn [map]. now apply IH.
    + destruct (csvRow_ends first Hf) as (s & ->). rewrite last_last. discriminate.
Qed.

Lemma header_columns :
  let header := map (fun h => toLowerCase (trim h)) (map cellText headerCells) in
  Z.max 0 (indexOf (lit "url") header) = 0
  /\ columnOf header (lit "title") (lit "headline") 1 = 1
  /\ columnOf header (lit "text") (lit "summary") 2 = 4.
Proof. repeat split; vm_compute; reflexivity. Qed.

Lemma rows_lacks (csv : jsstring) (extra : option jsstring) :
  Forall (fun row => lacks LF (row_url row) = true /\ lacks LF (row_title row) = true)
         (extraRowsOf extra ++ parseCSV csv).
Proof.
  apply Forall_app. split.
  - destruct extra as [b|]; [|constructor]. cbn [extraRowsOf].
    apply Forall_forall. intros row H. apply in_map_iff in H as (t & <- & _).
    now split.
  - apply Forall_forall. intros row H. apply parseCSV_lacks in H. tauto.
Qed.

Lemma parseCSV_written (rows : list Row) (records : list SentimentRecord) :
  Forall (fun row => lacks LF (row_url row) = true /\ lacks LF (row_title row) = true)
         rows ->
  forallb (fun r => lacks LF (summary r)) records = true ->
  parseCSV (List.concat ((csvRow headerCells ++ [LF]) :: writtenLines rows records))
  = rereadRows rows records.
Proof.
  intros Hrows Hrec.
  assert (F : exists cells,
             Forall2 (fun line c => line = csvRow c ++ [LF]
                                    /\ c <> []
                                    /\ lacks LF (csvRow c) = true)
                     (writtenLines rows records) cells
             /\ map (fun c => {| row_url := cellAt (map cellText c) 0;
                                 row_title := cellAt (map cellText c) 1;
                                 row_text := cellAt (map cellText c) 4 |}) cells
                = rereadRows rows records).
  { revert records Hrec. induction Hrows as [|row rows (Hu & Ht) _ IH];
      intros [|r records] Hrec; try (exists []; split; [constructor|reflexivity]).
    cbn [forallb] in Hrec. apply andb_prop in Hrec as [Hs Hrec].
    destruct (IH records Hrec) as (cells & F2 & E).
    destruct (resultLine_cells row r) as (c & Hline & Hc).
    exists (c :: cells). split.
    - cbn [writtenLines]. constructor; [|exact F2].
      split; [exact Hline|]. split; [destruct c; [discriminate|congruence]|].
      apply csvRow_lacks. apply Forall_forall. intros v Hv.
      apply (in_map cellText) in Hv. rewrite Hc in Hv.
      cbn [In] in Hv.
      destruct Hv as [<-|[<-|[<-|[<-|[<-|[<-|[]]]]]]]; auto.
      + apply ge32_lacks, labelText_ge32.
      + apply ge32_lacks, NumberToString_ge32.
      + apply ge32_lacks, stringifyTickers_ge32.
    - cbn [map rereadRows]. rewrite Hc, E. reflexivity. }
  destruct F as (cells & F2 & E).
  unfold parseCSV.
  rewrite (split_written _ _ F2 headerCells) by (try discriminate; reflexivity).
  unfold parseLine. rewrite (parseLineFrom_row headerCells []) by discriminate.
  cbn [app]. destruct header_columns as (-> & -> & ->).
  rewrite map_map. rewrite <- E. apply map_ext_in. intros c Hc.
  assert (Hne : c <> []).
  { clear E. induction F2 as [|? ? ? ? (_ & H & _) _ IH]; [contradiction|].
    destruct Hc as [<-|Hc]; auto. }
  unfold parseLine. now rewrite (parseLineFrom_row c []) by exact Hne.
Qed.

(** ** The loop over the rows *)

Lemma scoreMarket_rowRecord (M : number) (oracle : Oracle) (row : Row) :
  exists log,
    MarketCsv.scoreMarket M oracle (row_text row) = (Returned (rowRecord M oracle row), log)
    /\ (1 <= requestsMade log <= 5)%nat
    /\ (List.length (sleepsOf log) <= 5)%nat.
Proof.
  unfold rowRecord, MarketCsv.scoreMarket.
  destruct (Market_attempts_effort oracle (buildMarketPrompt M (row_text row)) 5 0 [])
    as (r & ext & E & Hreq & Hsl & _).
  rewrite E. exists ext. cbn [fst app]. split; [reflexivity|].
  destruct Hsl as [Hsl|(_ & H1 & H2)]; lia.
Qed.

Lemma scoreRows_spec (M D : number) (oracles : nat -> Oracle) (rows : list Row) :
  forall i out log,
    exists ext,
      scoreRows M D oracles i rows out log
      = (out ++ writtenLines rows (rowRecords M oracles i rows), log ++ ext)
      /\ (List.length rows <= requestsMade ext <= 5 * List.length rows)%nat
      /\ (List.length rows <= List.length (sleepsOf ext) <= 6 * List.length rows)%nat.
Proof.
  induction rows as [|row rows IH]; intros i out log.
  - exists []. cbn. rewrite !app_nil_r. repeat split; lia.
  - cbn [scoreRows rowRecords writtenLines].
    destruct (scoreMarket_rowRecord M (oracles i) row) as (l & E & Hreq & Hsl).
    rewrite E.
    destruct (IH (S i) (out ++ [resultLine row (rowRecord M (oracles i) row)])
                (log ++ l ++ [Sleep D])) as (ext & E' & Hreq' & Hsl').
    rewrite E'. exists (l ++ [Sleep D] ++ ext).
    rewrite <- !app_assoc. split; [reflexivity|].
    rewrite !requestsMade_app, !sleepsOf_app, !length_app.
    change (requestsMade [Sleep D]) with 0%nat.
    cbn [sleepsOf flat_map app List.length]. lia.
Qed.



(** X10. A run of [main] over [n] rows makes between [n] and [5 n] requests
    and pauses between [n] and [6 n] times: each row costs at least one
    request and the pause after the row, at most five requests and five
    more pauses. *)
Theorem main_effort (M D : number) (oracles : nat -> Oracle)
  (csv : jsstring) (extra : option jsstring) :
  let n := List.length (extraRowsOf extra ++ parseCSV csv) in
  let log := snd (main M D oracles csv extra) in
  (n <= requestsMade log <= 5 * n)%nat
  /\ (n <= List.length (sleepsOf log) <= 6 * n)%nat.
Proof.
  intros n log. unfold log, main.
  destruct (scoreRows_spec M D oracles (extraRowsOf extra ++ parseCSV csv) 0
              [csvRow headerCells ++ [LF]] [])
    as (ext & -> & H1 & H2).
  cbn [snd app]. fold n in H1, H2. split; assumption.
Qed.

(** X11. The output of a run can be the input of another: when no summary
    holds a line feed, [parseCSV] reads from the text that [main] wrote one
    row for each row of the run, with the same url and title and with the
    summary as its text. *)
Theorem main_output_read_back (M D : number) (oracles : nat -> Oracle)
  (csv : jsstring) (extra : option jsstring) :
  let rows := extraRowsOf extra ++ parseCSV csv in
  let records := rowRecords M oracles 0 rows in
  forallb (fun r => lacks LF (summary r)) records = true ->
  parseCSV (List.concat (fst (main M D oracles csv extra))) = rereadRows rows records.
Proof.
  intros rows records H. unfold main. fold rows.
  destruct (scoreRows_spec M D oracles rows 0 [csvRow headerCells ++ [LF]] [])
    as (ext & -> & _).
  cbn [fst app]. fold records.
  apply parseCSV_written; [apply rows_lacks|exact H].
Qed.

Lemma main_output_read_back_witness :
  parseCSV
    (List.concat (fst (main (ofZ 3000) (ofZ 800)
                    (fun _ => scripted [] (Answer bearishAnswer))
                    (lit "url,title,text" ++ LF :: lit "u1,Markets,Stocks fell.")
                    None)))
  = [ {| row_url := lit "u1"; row_title := lit "Markets"; row_text := lit "down" |} ].
Proof.
  exact (main_output_read_back (ofZ 3000) (ofZ 800)
           (fun _ => scripted [] (Answer bearishAnswer))
           (lit "url,title,text" ++ LF :: lit "u1,Markets,Stocks fell.")
           None eq_refl).
Defined.

(* ================================================================= *)
(** * Part XVI. Which tickers are kept, and with what *)

Lemma lookup_setProp {A : Type} (k k' : jsstring) (v : A) (l : list (jsstring * A)) :
  lookup k (setProp k' v l) = if str_eqb k k' then Some v else lookup k l.
Proof.
  induction l as [|[k0 v0] l IH]; cbn [setProp lookup].
  - reflexivity.
  - destruct (str_eqb k' k0) eqn:E; cbn [lookup].
    + apply str_eqb_eq in E. subst k0. now destruct (str_eqb k k').
    + destruct (str_eqb k k0) eqn:E0.
      * apply str_eqb_eq in E0. subst k0.
        destruct (str_eqb k k') eqn:E1; [|reflexivity].
        apply str_eqb_eq in E1. subst k'. now rewrite str_eqb_refl in E.
      * exact IH.
Qed.

(** The loop bodies, as an assignment that is made or not. *)
Lemma tickerFromEntry_info (acc : Tickers) (rawKey : jsstring) (rawVal : value) :
  tickerFromEntry acc (rawKey, rawVal)
  = match normalizeTickerKey (VStr rawKey), entryInfo rawVal with
    | Some key, Some info => setProp key info acc
    | _, _ => acc
    end.
Proof.
  unfold tickerFromEntry, entryInfo, entryScore.
  destruct (normalizeTickerKey (VStr rawKey)) as [key|]; [|reflexivity].
  destruct rawVal as [| | |n|s|l|props]; cbn [isNullish]; try reflexivity;
    match goal with
    | |- context [parseScore ?v] => destruct (parseScore v) as [sc|]; [|reflexivity]
    end;
    now destruct (isNaN sc).
Qed.

Lemma tickerFromItem_info (acc : Tickers) (entry : value) :
  tickerFromItem acc entry
  = match normalizeTickerKey (itemKey entry), itemInfo entry with
    | Some key, Some info => setProp key info acc
    | _, _ => acc
    end.
Proof.
  unfold tickerFromItem, itemInfo, isObject. fold (itemKey entry).
  destruct (truthy entry), (typeofObject entry); cbn [negb orb andb];
    try (now destruct (normalizeTickerKey (itemKey entry))).
  destruct (normalizeTickerKey (itemKey entry)) as [key|]; [|reflexivity].
  destruct (parseScore _) as [sc|]; [|reflexivity].
  now destruct (isNaN sc).
Qed.

(** A loop of assignments: when every assignment to [k] stores [info], and
    one is made or [info] is there before the loop, [info] is there at the
    end. *)
Lemma fold_assign_all {E : Type} (write : E -> option (jsstring * TickerInfo))
  (step : Tickers -> E -> Tickers) (k : jsstring) (info : TickerInfo) :
  (forall acc e, step acc e = match write e with
                              | Some (key, i) => setProp key i acc
                              | None => acc
                              end) ->
  forall (l : list E) (acc : Tickers),
    (forall e i, In e l -> write e = Some (k, i) -> i = info) ->
    (lookup k acc = Some info \/ exists e, In e l /\ write e = Some (k, info)) ->
    lookup k (fold_left step l acc) = Some info.
Proof.
  intros Hstep. induction l as [|e l IH]; intros acc Hall H.
  - destruct H as [H|(e & [] & _)]. exact H.
  - cbn [fold_left]. apply IH; [intros; eapply Hall; eauto; now right|].
    rewrite Hstep.
    destruct H as [H|(e' & [<-|Hin] & W)].
    + left. destruct (write e) as [[key i]|] eqn:W; [|exact H].
      rewrite lookup_setProp. destruct (str_eqb k key) eqn:E0; [|exact H].
      apply str_eqb_eq in E0. subst key. f_equal.
      apply (Hall e i); [now left|exact W].
    + left. now rewrite W, lookup_setProp, str_eqb_refl.
    + right. now exists e'.
Qed.

Lemma fold_assign_kept {E : Type} (write : E -> option (jsstring * TickerInfo))
  (step : Tickers -> E -> Tickers) (k : jsstring) :
  (forall acc e, step acc e = match write e with
                              | Some (key, info) => setProp key info acc
                              | None => acc
                              end) ->
  forall (l : list E) (acc : Tickers),
    (lookup k acc <> None \/ exists e info, In e l /\ write e = Some (k, info)) ->
    lookup k (fold_left step l acc) <> None.
Proof.
  intros Hstep. induction l as [|e l IH]; intros acc H.
  - destruct H as [H|(e & info & [] & _)]. exact H.
  - cbn [fold_left]. apply IH. rewrite Hstep.
    destruct H as [H|(e' & info & [<-|Hin] & W)].
    + left. destruct (write e) as [[key info]|]; [|exact H].
      rewrite lookup_setProp. now destruct (str_eqb k key).
    + left. rewrite W, lookup_setProp, str_eqb_refl. discriminate.
    + right. now exists e', info.
Qed.

(** ** [Object.entries] loses no property *)

Lemma insertByIndex_keeps (i : Z) (e : jsstring * value)
  (l : list (Z * (jsstring * value))) (x : Z * (jsstring * value)) :
  x = (i, e) \/ In x l -> In x (insertByIndex i e l).
Proof.
  induction l as [|[j e'] l IH]; cbn [insertByIndex].
  - intros [->|[]]. now left.
  - destruct (i <? j).
    + intros [->|H]; [now left|now right].
    + intros [->|[H|H]]; [right; apply IH; now left|now left|right; apply IH; now right].
Qed.

Lemma entries_keeps (props : list (jsstring * value)) (e : jsstring * value) :
  In e props -> In e (entries props).
Proof.
  intros H. unfold entries. apply in_or_app.
  destruct (arrayIndex (fst e)) as [i|] eqn:A.
  - left. apply in_map_iff. exists (i, e). split; [reflexivity|].
    assert (G : forall l acc,
               In (i, e) acc \/ In e l ->
               In (i, e)
                  (fold_left
                     (fun acc e =>
                        match arrayIndex (fst e) with
                        | Some i => insertByIndex i e acc
                        | None => acc
                        end) l acc)).
    { induction l as [|a l IH]; cbn [fold_left]; intros acc [Hacc|Hl];
        try contradiction; try exact Hacc.
      - apply IH. left. destruct (arrayIndex (fst a)); [|exact Hacc].
        apply insertByIndex_keeps. now right.
      - destruct Hl as [->|Hl]; [|apply IH; now right].
        apply IH. left. rewrite A. apply insertByIndex_keeps. now left. }
    apply G. now right.
  - right. apply filter_In. split; [exact H|]. now rewrite A.
Qed.

(** X12. No usable entry of a ticker mapping is lost: an entry whose key
    normalizes to [k] and whose value is null or carries a score that
    parses to a number puts [k] into the result; and when no other entry
    normalizes to [k], the result holds for [k] exactly what the entry
    gives, score and explanation. *)
Theorem tickers_mapping_kept (props : list (jsstring * value))
  (rawKey : jsstring) (rawVal : value) (k : jsstring) (info : TickerInfo) :
  In (rawKey, rawVal) props ->
  normalizeTickerKey (VStr rawKey) = Some k ->
  entryInfo rawVal = Some info ->
  lookup k (coerceTickers (VObj props)) <> None
  /\ ((forall rawKey' rawVal',
          In (rawKey', rawVal') props ->
          normalizeTickerKey (VStr rawKey') = Some k ->
          rawKey' = rawKey /\ rawVal' = rawVal) ->
      lookup k (coerceTickers (VObj props)) = Some info).
Proof.
  intros Hin Hk Hinfo. cbn [coerceTickers].
  pose (write := fun e : jsstring * value =>
                   match normalizeTickerKey (VStr (fst e)), entryInfo (snd e) with
                   | Some key, Some i => Some (key, i)
                   | _, _ => None
                   end).
  assert (Hstep : forall acc e,
             tickerFromEntry acc e = match write e with
                                     | Some (key, i) => setProp key i acc
                                     | None => acc
                                     end).
  { intros acc [rk rv]. rewrite tickerFromEntry_info. unfold write. cbn [fst snd].
    destruct (normalizeTickerKey (VStr rk)); [|reflexivity].
    now destruct (entryInfo rv). }
  assert (Hw : write (rawKey, rawVal) = Some (k, info)).
  { unfold write. cbn [fst snd]. now rewrite Hk, Hinfo. }
  split.
  - apply (fold_assign_kept write tickerFromEntry k Hstep). right.
    exists (rawKey, rawVal), info. split; [now apply entries_keeps|exact Hw].
  - intros Huniq.
    apply (fold_assign_all write tickerFromEntry k info Hstep).
    + intros [rk rv] i He W.
      unfold write in W. cbn [fst snd] in W.
      destruct (normalizeTickerKey (VStr rk)) as [key|] eqn:K; [|discriminate].
      destruct (entryInfo rv) as [i'|] eqn:I'; [|discriminate].
      injection W as -> ->.
      destruct (Huniq rk rv (entries_In _ _ He) K) as (-> & ->). congruence.
    + right. exists (rawKey, rawVal). split; [now apply entries_keeps|exact Hw].
Qed.

Lemma tickers_mapping_kept_witness :
  lookup (lit "AAPL")
    (coerceTickers (VObj [(lit " aapl ", VObj [(lit "score", VStr (lit "80"));
                                              (lit "explanation", VStr (lit "up"))]);
                          (lit "??", VNum num_1)]))
  = Some {| t_score := decimalToNumber false 8 (-1); t_explanation := lit "up" |}.
Proof.
  refine (proj2 (tickers_mapping_kept _ (lit " aapl ") _ (lit "AAPL") _ _ _ _) _).
  - now left.
  - reflexivity.
  - vm_compute. reflexivity.
  - intros rk rv [H|[H|[]]] K; injection H as <- <-; [now split|].
    vm_compute in K. discriminate.
Defined.

(** X13. In a ticker array the last usable item of a symbol wins: an item
    that is an object, whose ticker, symbol or code normalizes to [k] and
    whose score parses to a number, gives the score and the explanation of
    [k] in the result when no later item names [k]. *)
Theorem tickers_array_last_wins (before after : list value) (entry : value)
  (k : jsstring) (info : TickerInfo) :
  normalizeTickerKey (itemKey entry) = Some k ->
  itemInfo entry = Some info ->
  (forall e, In e after -> normalizeTickerKey (itemKey e) <> Some k) ->
  lookup k (coerceTickers (VArr (before ++ entry :: after))) = Some info.
Proof.
  intros Hk Hinfo Hafter. cbn [coerceTickers]. rewrite fold_left_app.
  pose (write := fun e : value =>
                   match normalizeTickerKey (itemKey e), itemInfo e with
                   | Some key, Some i => Some (key, i)
                   | _, _ => None
                   end).
  assert (Hstep : forall acc e,
             tickerFromItem acc e = match write e with
                                    | Some (key, i) => setProp key i acc
                                    | None => acc
                                    end).
  { intros acc e. rewrite tickerFromItem_info. unfold write.
    destruct (normalizeTickerKey (itemKey e)); [|reflexivity].
    now destruct (itemInfo e). }
  assert (Hw : write entry = Some (k, info)).
  { unfold write. now rewrite Hk, Hinfo. }
  apply (fold_assign_all write tickerFromItem k info Hstep).
  - intros e i [<-|He] W; [congruence|].
    exfalso. apply (Hafter e He). unfold write in W.
    destruct (normalizeTickerKey (itemKey e)) as [key|]; [|discriminate].
    destruct (itemInfo e); [|discriminate]. now injection W as -> _.
  - right. exists entry. split; [now left|exact Hw].
Qed.

Lemma tickers_array_last_wins_witness :
  lookup (lit "NVDA")
    (coerceTickers
       (VArr [VObj [(lit "ticker", VStr (lit "nvda")); (lit "score", VNum num_1)];
              VObj [(lit "symbol", VStr (lit "NVDA")); (lit "score", VNum num_0_2);
                    (lit "explanation", VStr (lit "chips"))];
              VObj [(lit "code", VStr (lit "amd")); (lit "score", VNum num_0_6)]]))
  = Some {| t_score := num_0_2; t_explanation := lit "chips" |}.
Proof.
  refine (tickers_array_last_wins
            [VObj [(lit "ticker", VStr (lit "nvda")); (lit "score", VNum num_1)]]
            [VObj [(lit "code", VStr (lit "amd")); (lit "score", VNum num_0_6)]]
            _ (lit "NVDA") _ _ _ _).
  - reflexivity.
  - reflexivity.
  - intros e [<-|[]]. vm_compute. discriminate.
Defined.

(** ** Fixed points *)

Lemma upperAlnum_range (c : codeunit) :
  isUpperAlnum c = true -> (48 <= c <= 90)%N.
Proof.
  unfold isUpperAlnum, isUpper, isDigit. intros H.
  apply orb_prop in H as [H|H]; apply andb_prop in H as [H1 H2];
    apply N.leb_le in H1, H2; lia.
Qed.

Lemma upperAlnum_not_space (c : codeunit) :
  isUpperAlnum c = true -> isWhiteSpace c = false.
Proof.
  intros H. apply upperAlnum_range in H. unfold isWhiteSpace.
  repeat match goal with
         | |- context [(?a <=? ?b)%N] =>
             destruct (N.leb_spec a b)
         | |- context [(?a =? ?b)%N] =>
             destruct (N.eqb_spec a b)
         end; try reflexivity; lia.
Qed.

Lemma upperAlnum_upperUnit (c : codeunit) :
  isUpperAlnum c = true -> upperUnit c = [c].
Proof.
  intros H. apply upperAlnum_range in H. unfold upperUnit, isLower.
  repeat match goal with
         | |- context [(?a <=? ?b)%N] =>
             destruct (N.leb_spec a b)
         | |- context [(?a =? ?b)%N] =>
             destruct (N.eqb_spec a b)
         end; cbn [andb]; try reflexivity; lia.
Qed.

Lemma dropWhile_none (p : codeunit -> bool) (s : jsstring) :
  forallb (fun c => negb (p c)) s = true -> dropWhile p s = s.
Proof.
  destruct s as [|c s]; [reflexivity|]. cbn [forallb dropWhile]. intros H.
  apply andb_prop in H as [H _]. apply negb_true_iff in H. now rewrite H.
Qed.

Lemma trim_none (s : jsstring) :
  forallb (fun c => negb (isWhiteSpace c)) s = true -> trim s = s.
Proof.
  intros H. unfold trim, trimStart, trimEnd.
  rewrite (dropWhile_none _ (rev s)) by now rewrite forallb_rev.
  rewrite rev_involutive. now apply dropWhile_none.
Qed.

Lemma tickerShape_fixed (k : jsstring) :
  tickerShape k -> normalizeTickerKey (VStr k) = Some k.
Proof.
  intros [[L1 L2] F]. unfold normalizeTickerKey.
  assert (T : trim k = k).
  { apply trim_none. rewrite forallb_forall in *. intros c Hc.
    now rewrite (upperAlnum_not_space c (F c Hc)). }
  assert (U : toUpperCase k = k).
  { unfold toUpperCase. clear T L1 L2. induction k as [|c k IH]; [reflexivity|].
    cbn [forallb] in F. apply andb_prop in F as [Fc Fk].
    cbn [flat_map]. now rewrite (upperAlnum_upperUnit c Fc), IH. }
  rewrite T, U, F. destruct k as [|c k]; [cbn in L1; lia|].
  apply Nat.ltb_ge in L2. now rewrite L2.
Qed.

(** X14. [normalizeTickerKey] is idempotent: a key it returns is a string
    that it returns unchanged. *)
Theorem normalizeTickerKey_idempotent (v : value) (k : jsstring) :
  normalizeTickerKey v = Some k -> normalizeTickerKey (VStr k) = Some k.
Proof.
  intros H. apply tickerShape_fixed. now apply normalizeTickerKey_shape in H.
Qed.

Lemma normalizeTickerKey_idempotent_witness :
  normalizeTickerKey (VStr (lit "BRK2")) = Some (lit "BRK2").
Proof.
  exact (normalizeTickerKey_idempotent (VStr (lit " brk2 ")) (lit "BRK2") eq_refl).
Defined.

(** ** The coercer on its own result *)

Lemma setProp_keys {A : Type} (k : jsstring) (v : A) (l : list (jsstring * A)) :
  NoDup (map fst l) -> NoDup (map fst (setProp k v l)).
Proof.
  induction l as [|[k0 v0] l IH]; cbn [setProp map fst]; intros H.
  - constructor; [intros []|constructor].
  - inversion H as [|? ? Hk0 Hl]; subst.
    destruct (str_eqb k k0) eqn:E.
    + apply str_eqb_eq in E. subst k0. cbn [map fst]. now constructor.
    + cbn [map fst]. constructor; [|now apply IH].
      intros Hin. apply in_map_iff in Hin as ([k1 v1] & E1 & Hin). cbn in E1. subst k1.
      apply setProp_In in Hin as [[-> _]|Hin].
      * now rewrite str_eqb_refl in E.
      * apply Hk0. apply in_map_iff. now exists (k0, v1).
Qed.

Lemma coerceTickers_keys (t : value) : NoDup (map fst (coerceTickers t)).
Proof.
  assert (G : forall (E : Type) (step : Tickers -> E -> Tickers),
             (forall acc e, NoDup (map fst acc) -> NoDup (map fst (step acc e))) ->
             forall l acc, NoDup (map fst acc) -> NoDup (map fst (fold_left step l acc))).
  { intros E step Hstep. induction l as [|e l IH]; intros acc H; [exact H|].
    cbn [fold_left]. now apply IH, Hstep. }
  destruct t as [| | | | |items|props]; cbn [coerceTickers]; try constructor.
  - apply G; [|constructor]. intros acc e H. rewrite tickerFromItem_info.
    destruct (normalizeTickerKey _); [|exact H].
    destruct (itemInfo e); [now apply setProp_keys|exact H].
  - apply G; [|constructor]. intros acc [rk rv] H. rewrite tickerFromEntry_info.
    destruct (normalizeTickerKey _); [|exact H].
    destruct (entryInfo rv); [now apply setProp_keys|exact H].
Qed.

Lemma keys_functional {A : Type} (l : list (jsstring * A)) (k : jsstring) (v : A) :
  NoDup (map fst l) -> In (k, v) l -> lookup k l = Some v.
Proof.
  induction l as [|[k0 v0] l IH]; cbn [map fst lookup]; intros H Hin; [contradiction|].
  inversion H as [|? ? Hk0 Hl]; subst.
  destruct Hin as [E|Hin].
  - injection E as -> ->. now rewrite str_eqb_refl.
  - destruct (str_eqb k k0) eqn:E; [|now apply IH].
    apply str_eqb_eq in E. subst k0. exfalso. apply Hk0.
    apply in_map_iff. now exists (k, v).
Qed.

Lemma coerceTickers_entry (t : value) (k : jsstring) (info : TickerInfo) :
  In (k, info) (coerceTickers t) ->
  normalizeTickerKey (VStr k) = Some k /\ isNaN (t_score info) = false.
Proof.
  intros H. apply coerceTickers_origin in H.
  destruct t as [| | | | |items|props]; cbn [tickerOrigin] in H; try contradiction.
  - destruct H as (entry & _ & _ & K & _ & N). split; [|exact N].
    apply tickerShape_fixed. now apply normalizeTickerKey_shape in K.
  - destruct H as (rk & rv & _ & K & H). split.
    + apply tickerShape_fixed. now apply normalizeTickerKey_shape in K.
    + destruct H as [(_ & ->)|(_ & _ & N)]; [reflexivity|exact N].
Qed.

(** The tickers of a result, coerced again, are the same mapping. *)
Lemma coerceTickers_again (t : value) (k : jsstring) :
  lookup k (coerceTickers (tickersValue (coerceTickers t)))
  = lookup k (coerceTickers t).
Proof.
  pose proof (coerceTickers_keys t) as Hnodup.
  pose proof (coerceTickers_entry t) as Hentry.
  set (ts := coerceTickers t) in *.
  destruct (lookup k ts) as [info|] eqn:L.
  - apply lookup_In in L. destruct (Hentry k info L) as (K & N).
    unfold tickersValue. cbn [coerceTickers].
    pose (write := fun e : jsstring * value =>
                     match normalizeTickerKey (VStr (fst e)), entryInfo (snd e) with
                     | Some key, Some i => Some (key, i)
                     | _, _ => None
                     end).
    assert (Hstep : forall acc e,
               tickerFromEntry acc e = match write e with
                                       | Some (key, i) => setProp key i acc
                                       | None => acc
                                       end).
    { intros acc [rk rv]. rewrite tickerFromEntry_info. unfold write. cbn [fst snd].
      destruct (normalizeTickerKey (VStr rk)); [|reflexivity].
      now destruct (entryInfo rv). }
    assert (Hw : forall k' info',
               In (k', info') ts ->
               write (k', VObj [(lit "score", VNum (t_score info'));
                                (lit "explanation", VStr (t_explanation info'))])
               = Some (k', info')).
    { intros k' info' H'. destruct (Hentry k' info' H') as (K' & N').
      unfold write. cbn [fst snd]. rewrite K'.
      unfold entryInfo, entryScore. cbn [isNullish].
      change (get (VObj [(lit "score", VNum (t_score info'));
                         (lit "explanation", VStr (t_explanation info'))])
                  (lit "score")) with (VNum (t_score info')).
      change (get (VObj [(lit "score", VNum (t_score info'));
                         (lit "explanation", VStr (t_explanation info'))])
                  (lit "explanation")) with (VStr (t_explanation info')).
      cbn [parseScore stringOrEmpty]. rewrite N'. now destruct info'. }
    apply (fold_assign_all write tickerFromEntry k info Hstep).
    + intros e i He W. apply entries_In in He.
      apply in_map_iff in He as ([k' info'] & <- & Hin). cbn [fst snd] in W.
      rewrite (Hw k' info' Hin) in W. injection W as -> ->.
      pose proof (keys_functional ts k info Hnodup L) as E1.
      pose proof (keys_functional ts k i Hnodup Hin) as E2. congruence.
    + right. eexists. split; [apply entries_keeps, in_map_iff; exists (k, info); split;
                               [reflexivity|exact L]|].
      cbn [fst snd]. now apply Hw.
  - apply lookup_None. intros info H. apply coerceTickers_origin in H.
    unfold tickersValue in H. cbn [tickerOrigin] in H.
    destruct H as (rk & rv & Hin & K & _).
    apply in_map_iff in Hin as ([k' info'] & E & Hin). cbn [fst snd] in E.
    injection E as <- _.
    destruct (Hentry k' info' Hin) as (K' & _).
    assert (k' = k) by congruence. subst k'.
    apply (keys_functional ts k info' Hnodup) in Hin. congruence.
Qed.

(** X15. [coerceSentimentShape] accepts its own result: the object it
    returned, when its label is one of the five label strings, is coerced
    to a record with the same label, score and summary and the same
    tickers. *)
Theorem coerceSentimentShape_idempotent (obj : value) (r : SentimentRecord) (l : Label) :
  coerceSentimentShape obj = Some r ->
  label r = Mood l ->
  exists r',
    coerceSentimentShape (recordValue r) = Some r'
    /\ label r' = label r
    /\ score r' = score r
    /\ summary r' = summary r
    /\ forall k, lookup k (tickers r') = lookup k (tickers r).
Proof.
  intros Hr Hl.
  assert (Hobj : isObject obj = true).
  { destruct (isObject obj) eqn:E; [reflexivity|].
    now rewrite (coerce_not_object _ E) in Hr. }
  rewrite (coerce_object _ Hobj) in Hr.
  destruct (parseScore (get obj (lit "score"))) as [n|]; [|discriminate].
  destruct (isNaN n) eqn:Hn; [discriminate|].
  injection Hr as <-. cbn [label score summary tickers] in *.
  match goal with
  | |- context [recordValue ?x] => set (r := x)
  end.
  assert (G1 : get (recordValue r) (lit "score") = VNum n) by reflexivity.
  assert (G2 : get (recordValue r) (lit "label") = VStr (labelText (Mood l))).
  { unfold r, recordValue. cbn [label]. now rewrite Hl. }
  assert (G3 : get (recordValue r) (lit "summary") = VStr (summary r)) by reflexivity.
  assert (G4 : get (recordValue r) (lit "tickers") = tickersValue (tickers r))
    by reflexivity.
  rewrite (coerce_object (recordValue r) eq_refl).
  unfold pickSummary. rewrite G1, G2, G3, G4. cbn [parseScore]. rewrite Hn.
  assert (NL : normalizeLabel (VStr (labelText (Mood l))) = Some (Mood l))
    by (destruct l; vm_compute; reflexivity).
  rewrite NL. eexists. split; [reflexivity|].
  cbn [label score summary tickers]. repeat split; auto.
  intros k. unfold r. cbn [tickers]. apply coerceTickers_again.
Qed.

Lemma coerceSentimentShape_idempotent_witness :
  exists r',
    coerceSentimentShape
      (recordValue
         {| label := Mood Bullish;
            score := decimalToNumber false 4 (-1);
            summary := lit "up";
            tickers := [(lit "AAPL", {| t_score := num_1; t_explanation := [] |})] |})
    = Some r'
    /\ label r' = Mood Bullish
    /\ score r' = decimalToNumber false 4 (-1)
    /\ summary r' = lit "up"
    /\ forall k,
         lookup k (tickers r')
         = lookup k [(lit "AAPL", {| t_score := num_1; t_explanation := [] |})].
Proof.
  exact (coerceSentimentShape_idempotent
           (VObj [(lit "label", VStr (lit "positive"));
                  (lit "score", VStr (lit "40%"));
                  (lit "reason", VStr (lit "up"));
                  (lit "tickers", VObj [(lit "aapl", VNum num_1)])])
           _ Bullish eq_refl eq_refl).
Defined.

(* ================================================================= *)
(** * Part XVII. Cleaning and repairing the text of an answer *)

(** ** [braceMatch] *)

Lemma dropWhile_split (p : codeunit -> bool) (s : jsstring) :
  exists a, s = a ++ dropWhile p s /\ forallb p a = true.
Proof.
  induction s as [|c s (a & E & F)]; [now exists []|].
  cbn [dropWhile]. destruct (p c) eqn:P.
  - exists (c :: a). cbn [app forallb]. rewrite P, F. split; [now f_equal|reflexivity].
  - now exists [].
Qed.

Lemma dropWhile_stop (p : codeunit -> bool) (a rest : jsstring) (c : codeunit) :
  forallb p a = true -> p c = false ->
  dropWhile p (a ++ c :: rest) = c :: rest.
Proof.
  intros F P. induction a as [|x a IH]; cbn [app dropWhile].
  - now rewrite P.
  - cbn [forallb] in F. apply andb_prop in F as [-> F]. now apply IH.
Qed.

Lemma lacks_existsb (c : codeunit) (s : jsstring) :
  lacks c s = negb (existsb (N.eqb c) s).
Proof.
  induction s as [|x s IH]; [reflexivity|].
  rewrite lacks_cons, IH. cbn [existsb]. rewrite negb_orb.
  now rewrite (N.eqb_sym c x).
Qed.

Lemma lacks_rev (c : codeunit) (s : jsstring) : lacks c (rev s) = lacks c s.
Proof. apply forallb_rev. Qed.

Lemma braceMatch_shape (s m : jsstring) :
  braceMatch s = Some m ->
  exists before mid after,
    s = before ++ m ++ after
    /\ m = LBRACE :: mid ++ [RBRACE]
    /\ lacks LBRACE before = true
    /\ lacks RBRACE after = true.
Proof.
  unfold braceMatch.
  destruct (dropWhile_split (fun c => negb (c =? LBRACE)%N) s) as (before & Es & Fb).
  pose proof (dropWhile_head (fun c => negb (c =? LBRACE)%N) s) as Hb.
  destruct (dropWhile _ s) as [|b r]; [discriminate|].
  apply negb_false_iff, N.eqb_eq in Hb. subst b.
  destruct (existsb (N.eqb RBRACE) r) eqn:X; [|discriminate].
  intros H. injection H as <-.
  change (rev r ++ [LBRACE]) with (rev (LBRACE :: r)).
  destruct (dropWhile_split (fun c => negb (c =? RBRACE)%N) (rev (LBRACE :: r)))
    as (a' & Er & Fa).
  pose proof (dropWhile_head (fun c => negb (c =? RBRACE)%N) (rev (LBRACE :: r))) as Hc.
  destruct (dropWhile _ (rev (LBRACE :: r))) as [|c x] eqn:D.
  { exfalso. rewrite app_nil_r in Er.
    assert (L : lacks RBRACE (LBRACE :: r) = true).
    { rewrite <- lacks_rev, Er. exact Fa. }
    rewrite lacks_cons, lacks_existsb, X in L. now rewrite andb_false_r in L. }
  apply negb_false_iff, N.eqb_eq in Hc. subst c.
  apply (f_equal (@rev codeunit)) in Er. rewrite rev_involutive, rev_app_distr in Er.
  cbn [rev] in Er |- *.
  destruct (rev x) as [|y mid] eqn:Rx.
  { cbn [app] in Er. discriminate. }
  cbn [app] in Er. injection Er as <- Er.
  exists before, mid, (rev a'). repeat split.
  - rewrite Es. f_equal. rewrite Er. reflexivity.
  - exact Fb.
  - rewrite lacks_rev. exact Fa.
Qed.

Lemma braceMatch_found (before mid after : jsstring) :
  lacks LBRACE before = true ->
  lacks RBRACE after = true ->
  braceMatch (before ++ (LBRACE :: mid ++ [RBRACE]) ++ after)
  = Some (LBRACE :: mid ++ [RBRACE]).
Proof.
  intros Fb Fa. unfold braceMatch.
  cbn [app]. rewrite (dropWhile_stop _ before _ LBRACE Fb eq_refl).
  rewrite <- app_assoc. cbn [app].
  replace (existsb (N.eqb RBRACE) (mid ++ RBRACE :: after)) with true.
  2:{ symmetry. rewrite existsb_app. cbn [existsb]. rewrite N.eqb_refl.
      cbn [orb]. apply orb_true_r. }
  f_equal.
  replace (rev (LBRACE :: mid ++ RBRACE :: after))
    with (rev after ++ RBRACE :: rev (LBRACE :: mid)).
  2:{ change (LBRACE :: mid ++ RBRACE :: after)
        with ((LBRACE :: mid) ++ RBRACE :: after).
      rewrite (rev_app_distr (LBRACE :: mid)). cbn [rev].
      now rewrite <- app_assoc. }
  rewrite (dropWhile_stop _ (rev after) _ RBRACE);
    [|now rewrite <- lacks_rev in Fa|reflexivity].
  cbn [rev]. rewrite rev_app_distr, rev_involutive. reflexivity.
Qed.

(** X16. [braceMatch] gives the part of the text from its first opening
    brace to its last closing brace, when that brace comes later; and it
    gives nothing else. *)
Theorem braceMatch_segment (s m : jsstring) :
  braceMatch s = Some m <->
  exists before mid after,
    s = before ++ m ++ after
    /\ m = LBRACE :: mid ++ [RBRACE]
    /\ lacks LBRACE before = true
    /\ lacks RBRACE after = true.
Proof.
  split; [apply braceMatch_shape|].
  intros (before & mid & after & -> & -> & Fb & Fa). now apply braceMatch_found.
Qed.

Lemma braceMatch_segment_witness :
  braceMatch (json "Here it is: {'a': {'b': 1}} - done")
  = Some (json "{'a': {'b': 1}}").
Proof.
  apply (proj2 (braceMatch_segment _ _)).
  exists (json "Here it is: "), (json "'a': {'b': 1}"), (json " - done").
  repeat split; reflexivity.
Defined.

(** ** [tryRepairs] *)

(** A code unit that the repairs leave alone. *)
Lemma dropTrailingCommas_keeps (p : codeunit -> bool) (s : jsstring) :
  p COMMA = false ->
  filter p (dropTrailingCommas s) = filter p s
  /\ (List.length (dropTrailingCommas s) <= List.length s)%nat.
Proof.
  intros Hp. induction s as [|c s (IH & L)]; [split; reflexivity|].
  cbn [dropTrailingCommas].
  destruct ((c =? COMMA)%N && closerAhead s) eqn:E.
  - apply andb_prop in E as [E _]. apply N.eqb_eq in E. subst c.
    cbn [filter List.length]. rewrite Hp. split; [exact IH|lia].
  - cbn [filter List.length]. rewrite IH. split; [reflexivity|lia].
Qed.

Lemma doubleQuotePairs_keeps (p : codeunit -> bool) (s : jsstring) :
  p APOS = false -> p QUOTE = false ->
  forall inside,
    filter p (doubleQuotePairs inside s) = filter p s
    /\ List.length (doubleQuotePairs inside s) = List.length s.
Proof.
  intros Ha Hq. induction s as [|c s IH]; intros inside; [split; reflexivity|].
  cbn [doubleQuotePairs].
  destruct (c =? APOS)%N eqn:E.
  - apply N.eqb_eq in E. subst c.
    destruct inside; [|destruct (existsb (N.eqb APOS) s)];
      cbn [filter List.length]; rewrite ?Ha, ?Hq;
      match goal with
      | |- context [doubleQuotePairs ?b s] => destruct (IH b) as (F & L)
      end; rewrite L; split; auto.
  - destruct (IH inside) as (F & L). cbn [filter List.length]. rewrite F, L.
    split; reflexivity.
Qed.

(** X17. [tryRepairs] only drops commas and turns single quotes into double
    quotes: the other code units of the text stay, in their order, and the
    text does not grow. *)
Theorem tryRepairs_keeps_text (s : jsstring) :
  let other := fun c => negb ((c =? COMMA) || (c =? APOS) || (c =? QUOTE))%N in
  filter other (tryRepairs s) = filter other s
  /\ (List.length (tryRepairs s) <= List.length s)%nat.
Proof.
  intros other. unfold tryRepairs.
  destruct (dropTrailingCommas_keeps other s eq_refl) as (F & L).
  destruct (negb (existsb (N.eqb QUOTE) (dropTrailingCommas s))
            && existsb (N.eqb APOS) (dropTrailingCommas s)).
  - destruct (doubleQuotePairs_keeps other (dropTrailingCommas s) eq_refl eq_refl false)
      as (F' & L').
    split; [exact (eq_trans F' F)|lia].
  - split; [exact F|exact L].
Qed.

(** ** [cleanJsonString] *)

Lemma straightenUnit_space (c : codeunit) :
  isWhiteSpace (straightenUnit c) = isWhiteSpace c.
Proof.
  unfold straightenUnit.
  destruct (c =? 8220)%N eqn:E1; [apply N.eqb_eq in E1; now subst c|].
  destruct (c =? 8221)%N eqn:E2; [apply N.eqb_eq in E2; now subst c|].
  destruct (c =? 8216)%N eqn:E3; [apply N.eqb_eq in E3; now subst c|].
  destruct (c =? 8217)%N eqn:E4; [apply N.eqb_eq in E4; now subst c|].
  reflexivity.
Qed.

Lemma straightenUnit_plain (c : codeunit) : typographic (straightenUnit c) = false.
Proof.
  unfold straightenUnit, typographic.
  destruct (c =? 8220)%N eqn:E1; [reflexivity|].
  destruct (c =? 8221)%N eqn:E2; [reflexivity|].
  destruct (c =? 8216)%N eqn:E3; [reflexivity|].
  destruct (c =? 8217)%N eqn:E4; [reflexivity|].
  cbn [orb]. now rewrite E1, E2, E3, E4.
Qed.

Lemma dropWhile_map (f : codeunit -> codeunit) (p : codeunit -> bool) (s : jsstring) :
  (forall c, p (f c) = p c) ->
  dropWhile p (map f s) = map f (dropWhile p s).
Proof.
  intros H. induction s as [|c s IH]; [reflexivity|].
  cbn [map dropWhile]. rewrite H. now destruct (p c).
Qed.

Lemma trim_straightenQuotes (s : jsstring) :
  trim (straightenQuotes s) = straightenQuotes (trim s).
Proof.
  unfold trim, trimStart, trimEnd, straightenQuotes.
  rewrite <- map_rev, !(dropWhile_map straightenUnit isWhiteSpace)
    by apply straightenUnit_space.
  rewrite <- map_rev. now rewrite (dropWhile_map straightenUnit isWhiteSpace)
    by apply straightenUnit_space.
Qed.

(** X18. What [cleanJsonString] returns is in normal form: it holds none of
    the four typographic quotes and neither starts nor ends with white
    space. *)
Theorem cleanJsonString_normal (raw : option jsstring) :
  Forall (fun c => typographic c = false) (cleanJsonString raw)
  /\ trim (cleanJsonString raw) = cleanJsonString raw.
Proof.
  unfold cleanJsonString. destruct raw as [[|c r]|]; try (split; [constructor|reflexivity]).
  split.
  - unfold straightenQuotes. apply Forall_forall. intros x Hx.
    apply in_map_iff in Hx as (y & <- & _). apply straightenUnit_plain.
  - now rewrite trim_straightenQuotes, trim_idempotent.
Qed.

(** ** A fenced answer *)

Lemma trim_padded (lead x tail : jsstring) :
  forallb isWhiteSpace lead = true ->
  forallb isWhiteSpace tail = true ->
  trim (lead ++ x ++ tail) = trim x.
Proof.
  intros Hl Ht. unfold trim, trimStart, trimEnd.
  assert (A : forall a b, forallb isWhiteSpace a = true ->
                          dropWhile isWhiteSpace (a ++ b) = dropWhile isWhiteSpace b).
  { induction a as [|c a IH]; intros b H; [reflexivity|].
    cbn [forallb] in H. apply andb_prop in H as [Hc H].
    cbn [app dropWhile]. rewrite Hc. now apply IH. }
  rewrite !rev_app_distr, <- app_assoc.
  rewrite (A (rev tail)) by now rewrite forallb_rev.
  destruct (dropWhile isWhiteSpace (rev x)) as [|c r] eqn:D.
  - assert (W : forallb isWhiteSpace (rev x) = true).
    { destruct (dropWhile_split isWhiteSpace (rev x)) as (a & E & F).
      rewrite D, app_nil_r in E. now rewrite E. }
    assert (D' : dropWhile isWhiteSpace (rev x ++ rev lead) = []).
    { apply dropWhile_all. rewrite forallb_app, W. now rewrite forallb_rev. }
    now rewrite D'.
  - pose proof (dropWhile_head isWhiteSpace (rev x)) as Hc. rewrite D in Hc.
    destruct (dropWhile_split isWhiteSpace (rev x)) as (a & E & F).
    rewrite D in E. rewrite E, <- app_assoc. cbn [app].
    rewrite (dropWhile_stop isWhiteSpace a _ c F Hc).
    change (c :: r ++ rev lead) with ((c :: r) ++ rev lead).
    rewrite rev_app_distr, rev_involutive. now apply A.
Qed.

Lemma stripCloseFence_fence (a : jsstring) :
  lacks BACKTICK a = true -> stripCloseFence (a ++ lit "```") = a.
Proof.
  induction a as [|c a IH]; intros H; [reflexivity|].
  rewrite lacks_cons in H. apply andb_prop in H as [Hc Ha].
  apply negb_true_iff in Hc. rewrite stripCloseFence_eq.
  change (lit "```") with [BACKTICK; BACKTICK; BACKTICK] at 1.
  cbn [app startsWith]. rewrite (N.eqb_sym BACKTICK c), Hc. cbn [andb].
  now rewrite IH.
Qed.

Lemma trim_trimStart (s : jsstring) : trim (trimStart s) = trim s.
Proof.
  destruct (dropWhile_split isWhiteSpace s) as (a & E & F).
  rewrite E at 2. fold (trimStart s).
  rewrite <- (app_nil_r (trimStart s)) at 2.
  now rewrite (trim_padded a (trimStart s) []).
Qed.

(** The text between the fences, once the opening fence and the white space
    after it are gone; a further [replace] of an opening fence changes
    nothing in the end. *)
Lemma clean_after_fence (body : jsstring) :
  lacks BACKTICK body = true ->
  trim (stripCloseFence (stripOpenFence (trimStart (body ++ lit "```"))))
  = trim body
  /\ trim (stripCloseFence (trimStart (body ++ lit "```"))) = trim body.
Proof.
  intros Hb. unfold trimStart.
  destruct (dropWhile_split isWhiteSpace body) as (a & E & F).
  destruct (dropWhile isWhiteSpace body) as [|c r] eqn:D.
  - rewrite app_nil_r in E. subst a.
    assert (T : dropWhile isWhiteSpace (body ++ lit "```") = lit "```").
    { change (lit "```") with (BACKTICK :: lit "``").
      now apply dropWhile_stop. }
    rewrite T. rewrite (trim_all_space body F). split; reflexivity.
  - pose proof (dropWhile_head isWhiteSpace body) as Hc. rewrite D in Hc.
    assert (Lr : lacks BACKTICK (c :: r) = true).
    { rewrite E, lacks_app in Hb. now apply andb_prop in Hb as [_ Hb]. }
    assert (T : dropWhile isWhiteSpace (body ++ lit "```") = (c :: r) ++ lit "```").
    { rewrite E at 1. rewrite <- app_assoc. cbn [app]. now apply dropWhile_stop. }
    rewrite T. rewrite stripOpenFence_none.
    + rewrite (stripCloseFence_fence _ Lr).
      rewrite <- D. fold (trimStart body). split; apply trim_trimStart.
    + cbn [app]. rewrite lacks_cons in Lr. apply andb_prop in Lr as [Lc _].
      now apply negb_true_iff, N.eqb_neq in Lc.
Qed.

Lemma not_json_fence (body : jsstring) :
  startsWithCI (lit "json") body = false ->
  lacks BACKTICK body = true ->
  startsWithCI (lit "```json") (lit "```" ++ body ++ lit "```") = false.
Proof.
  intros H Hb.
  change (lit "```json") with ([BACKTICK; BACKTICK; BACKTICK] ++ lit "json").
  change (lit "```" ++ body ++ lit "```")
    with (BACKTICK :: BACKTICK :: BACKTICK :: (body ++ lit "```")).
  cbn [app startsWithCI].
  change (lowerUnit BACKTICK =? (if (BACKTICK <? 128)%N then lowerUnit BACKTICK else BACKTICK))%N
    with true.
  cbn [andb].
  destruct body as [|a [|b [|c [|d body]]]]; cbn [app];
    try (cbn in H; exact H);
    cbn [startsWithCI lit] in H |- *;
    repeat match goal with
           | |- context [(?x =? ?y)%N && _] =>
               destruct (x =? y)%N eqn:?; cbn [andb] in *; try reflexivity
           end; try discriminate; try reflexivity.
Qed.

(** X19. [cleanJsonString] unwraps a fenced answer: from a text made of an
    opening fence, with or without the word json, a body without
    backticks and a closing fence, with white space around, it returns the
    body, trimmed and with its typographic quotes straightened. *)
Theorem cleanJsonString_fenced (lead body tail : jsstring) :
  forallb isWhiteSpace lead = true ->
  forallb isWhiteSpace tail = true ->
  lacks BACKTICK body = true ->
  cleanJsonString (Some (lead ++ (lit "```json" ++ body ++ lit "```") ++ tail))
  = straightenQuotes (trim body)
  /\ (startsWithCI (lit "json") body = false ->
      cleanJsonString (Some (lead ++ (lit "```" ++ body ++ lit "```") ++ tail))
      = straightenQuotes (trim body)).
Proof.
  intros Hl Ht Hb.
  assert (T : forall x, (exists c r, x = BACKTICK :: r ++ [c] /\ isWhiteSpace c = false) ->
                        trim x = x).
  { intros x (c & r & -> & W).
    unfold trim. rewrite trimEnd_fixed; [now apply trimStart_fixed|].
    right. exists (BACKTICK :: r), c. now split. }
  assert (N : forall x, lead ++ (BACKTICK :: x) ++ tail <> []).
  { intros x. destruct lead; discriminate. }
  split.
  - unfold cleanJsonString.
    destruct (lead ++ (lit "```json" ++ body ++ lit "```") ++ tail) as [|c0 r0] eqn:R.
    { now apply N in R. }
    rewrite <- R. rewrite (trim_padded lead _ tail Hl Ht).
    rewrite (T (lit "```json" ++ body ++ lit "```")).
    2:{ exists BACKTICK, (lit "``json" ++ body ++ lit "``"). split; [|reflexivity].
        change (lit "```json") with (BACKTICK :: lit "``json").
        change (lit "```") with (lit "``" ++ [BACKTICK]).
        cbn [app]. now rewrite <- !app_assoc. }
    f_equal. unfold stripJsonFence.
    change (startsWithCI (lit "```json") (lit "```json" ++ body ++ lit "```")) with true.
    cbv iota. change (skipn 7 (lit "```json" ++ body ++ lit "```")) with (body ++ lit "```").
    now apply clean_after_fence.
  - intros Hj. unfold cleanJsonString.
    destruct (lead ++ (lit "```" ++ body ++ lit "```") ++ tail) as [|c0 r0] eqn:R.
    { now apply N in R. }
    rewrite <- R. rewrite (trim_padded lead _ tail Hl Ht).
    rewrite (T (lit "```" ++ body ++ lit "```")).
    2:{ exists BACKTICK, (lit "``" ++ body ++ lit "``"). split; [|reflexivity].
        change (lit "```") with (BACKTICK :: lit "``") at 1.
        change (lit "```") with (lit "``" ++ [BACKTICK]).
        cbn [app]. now rewrite <- !app_assoc. }
    f_equal. unfold stripJsonFence. rewrite (not_json_fence body Hj Hb).
    unfold stripOpenFence.
    change (startsWith (lit "```") (lit "```" ++ body ++ lit "```")) with true.
    cbv iota. change (skipn 3 (lit "```" ++ body ++ lit "```")) with (body ++ lit "```").
    now apply clean_after_fence.
Qed.

Lemma cleanJsonString_fenced_witness :
  cleanJsonString
    (Some (lit " " ++ (lit "```json" ++ (LF :: json "{'score': 1}" ++ [LF]) ++ lit "```")
           ++ [LF]))
  = json "{'score': 1}".
Proof.
  exact (proj1 (cleanJsonString_fenced (lit " ") (LF :: json "{'score': 1}" ++ [LF]) [LF]
                  eq_refl eq_refl eq_refl)).
Defined.

(** ** From the text of an answer to a record *)

(** X20. A fenced JSON answer is accepted: when the body between the fences
    holds no backtick and no typographic quote and parses as JSON to a value
    that coerces to a record, the extractor returns that value and that
    record at the first try. *)
Theorem extract_fenced (lead body tail : jsstring) (v : value) (r : SentimentRecord) :
  forallb isWhiteSpace lead = true ->
  forallb isWhiteSpace tail = true ->
  lacks BACKTICK body = true ->
  Forall (fun c => typographic c = false) body ->
  JSON_parse body = Some v ->
  coerceSentimentShape v = Some r ->
  extractParsed (Some (lead ++ (lit "```json" ++ body ++ lit "```") ++ tail))
  = (v, Some r).
Proof.
  intros Hl Ht Hb Hq Hv Hr. unfold extractParsed. cbv zeta.
  assert (C : cleanJsonString (Some (lead ++ (lit "```json" ++ body ++ lit "```") ++ tail))
              = trim body).
  { unfold cleanJsonString.
    destruct (lead ++ (lit "```json" ++ body ++ lit "```") ++ tail) as [|c0 r0] eqn:R.
    { destruct lead; discriminate. }
    rewrite <- R. rewrite (trim_padded lead _ tail Hl Ht).
    assert (T : trim (lit "```json" ++ body ++ lit "```")
                = lit "```json" ++ body ++ lit "```").
    { unfold trim. rewrite trimEnd_fixed; [now apply trimStart_fixed|].
      right. exists (lit "```json" ++ body ++ lit "``"), BACKTICK.
      split; [|reflexivity].
      change (lit "```") with (lit "``" ++ [BACKTICK]).
      now rewrite <- !app_assoc. }
    rewrite T. unfold stripJsonFence.
    change (startsWithCI (lit "```json") (lit "```json" ++ body ++ lit "```")) with true.
    cbv iota.
    change (skipn 7 (lit "```json" ++ body ++ lit "```")) with (body ++ lit "```").
    fold (trimStart (body ++ lit "```")).
    rewrite (proj1 (clean_after_fence body Hb)).
    apply straightenQuotes_none, trim_Forall, Hq. }
  rewrite C. unfold safeParseJson. rewrite (JSON_parse_trim body v Hv), Hr.
  reflexivity.
Qed.

Lemma extract_fenced_witness :
  extractParsed
    (Some ([] ++ (lit "```json" ++ (LF :: json "{'label': 'upbeat', 'score': '40'}" ++ [LF])
                  ++ lit "```") ++ [LF]))
  = (VObj [(lit "label", VStr (lit "upbeat")); (lit "score", VStr (lit "40"))],
     Some {| label := Mood Bullish;
             score := decimalToNumber false 4 (-1);
             summary := [];
             tickers := [] |}).
Proof.
  refine (extract_fenced [] (LF :: json "{'label': 'upbeat', 'score': '40'}" ++ [LF]) [LF]
            _ _ eq_refl eq_refl eq_refl _ _ _).
  - repeat constructor.
  - vm_compute. reflexivity.
  - vm_compute. reflexivity.
Defined.

(** X21. An object in the middle of prose is cut out: when the cleaned text
    is not accepted as it is, and from its first opening brace to its last
    closing brace it holds a text that, once repaired, parses as JSON to a
    value that coerces to a record, the extractor returns that value and
    that record. *)
Theorem extract_from_prose (raw : option jsstring) (before mid after : jsstring)
  (v : value) (r : SentimentRecord) :
  cleanJsonString raw = before ++ (LBRACE :: mid ++ [RBRACE]) ++ after ->
  lacks LBRACE before = true ->
  lacks RBRACE after = true ->
  coerceSentimentShape (safeParseJson (cleanJsonString raw)) = None ->
  JSON_parse (tryRepairs (LBRACE :: mid ++ [RBRACE])) = Some v ->
  coerceSentimentShape v = Some r ->
  extractParsed raw = (v, Some r).
Proof.
  intros Hc Hb Ha Hfirst Hv Hr. unfold extractParsed. cbv zeta.
  rewrite Hfirst, Hc, (braceMatch_found before mid after Hb Ha).
  unfold safeParseJson. now rewrite Hv, Hr.
Qed.

Lemma extract_from_prose_witness :
  extractParsed (Some (json "Sure: {'label': 'mixed', 'score': 0,} Hope it helps."))
  = (VObj [(lit "label", VStr (lit "mixed")); (lit "score", VNum num_0)],
     Some {| label := Mood Neutral; score := num_0; summary := []; tickers := [] |}).
Proof.
  refine (extract_from_prose
            (Some (json "Sure: {'label': 'mixed', 'score': 0,} Hope it helps."))
            (json "Sure: ") (json "'label': 'mixed', 'score': 0,") (json " Hope it helps.")
            _ _ _ _ _ _ _ _);
    vm_compute; reflexivity.
Defined.

(* ================================================================= *)
(** * Part XVIII. Where a result comes from; the prompt; the page labels *)

Lemma coerce_not_sentinel (obj : value) (r : SentimentRecord) :
  coerceSentimentShape obj = Some r ->
  label r <> ErrorLabel /\ isNaN (score r) = false.
Proof.
  intros Hr.
  destruct (isObject obj) eqn:Hobj;
    [|now rewrite (coerce_not_object _ Hobj) in Hr].
  rewrite (coerce_object _ Hobj) in Hr.
  destruct (parseScore _) as [n|]; [|discriminate].
  destruct (isNaN n) eqn:Hn; [discriminate|].
  injection Hr as <-. cbn [label score]. split; [|exact Hn].
  destruct (normalizeLabel _) as [l|] eqn:L; [|discriminate].
  unfold normalizeLabel in L. destruct (negb _); [discriminate|].
  unfold tableLookup in L.
  destruct (lookup _ labelTable); [injection L as <-; discriminate|].
  destruct (str_eqb _ _); [injection L as <-; discriminate|discriminate].
Qed.

Lemma extract_not_sentinel (raw : option jsstring) (r : SentimentRecord) :
  extractSentiment raw = Some r ->
  label r <> ErrorLabel /\ isNaN (score r) = false.
Proof.
  unfold extractSentiment, extractParsed. cbv zeta.
  destruct (coerceSentimentShape (safeParseJson (cleanJsonString raw))) as [r0|] eqn:E;
    cbn [snd]; intros H.
  - injection H as <-. exact (coerce_not_sentinel _ _ E).
  - exact (coerce_not_sentinel _ _ H).
Qed.

Lemma readAnswer_origin (content : list Block) (r : SentimentRecord) :
  readAnswer content = Returned r -> extractSentiment (answerText content) = Some r.
Proof.
  unfold readAnswer. destruct (extractSentiment _); [|discriminate].
  now intros H; injection H as <-.
Qed.

Lemma Market_attempts_origin (oracle : Oracle) (p : jsstring) (remaining : nat) :
  forall attempt log r log',
    MarketCsv.attempts oracle p remaining attempt log = (Returned r, log') ->
    (exists n content,
        oracle n false p = Answer content
        /\ extractSentiment (answerText content) = Some r)
    \/ exists d, r = errorRecord d.
Proof.
  induction remaining as [|k IH]; intros attempt log r log'; cbn [MarketCsv.attempts].
  - intros H. injection H as <- _. right. now eexists.
  - destruct (oracle (requestsMade log) false p) as [content|e] eqn:O;
      cbn [MarketCsv.attemptBody].
    + destruct (readAnswer content) as [r0|e] eqn:R.
      * intros H. injection H as <- _. left.
        exists (requestsMade log), content. split; [exact O|now apply readAnswer_origin].
      * destruct (MarketCsv.rateLimited e); [apply IH|].
        intros H. injection H as <- _. right. now eexists.
    + destruct (MarketCsv.rateLimited e); [apply IH|].
      intros H. injection H as <- _. right. now eexists.
Qed.

Lemma Part000_body_origin (oracle : Oracle) (p : jsstring) (log log' : list Event)
  (r : SentimentRecord) :
  Part000.attemptBody oracle p log = (Returned r, log') ->
  exists n wf content,
    oracle n wf p = Answer content
    /\ extractSentiment (answerText content) = Some r.
Proof.
  unfold Part000.attemptBody.
  destruct (oracle (requestsMade log) true p) as [content|e] eqn:O.
  - intros H. injection H as H _. apply readAnswer_origin in H. eauto.
  - destruct (Part000.maybeIncompatible e); [|discriminate].
    destruct (oracle (requestsMade (log ++ [Request true p])) false p)
      as [content|e2] eqn:O2; [|discriminate].
    intros H. injection H as H _. apply readAnswer_origin in H. eauto.
Qed.

Lemma Part000_attempts_origin (oracle : Oracle) (p : jsstring) (remaining : nat) :
  forall attempt log r log',
    Part000.attempts oracle p remaining attempt log = (Returned r, log') ->
    (exists n wf content,
        oracle n wf p = Answer content
        /\ extractSentiment (answerText content) = Some r)
    \/ exists d, r = errorRecord d.
Proof.
  induction remaining as [|k IH]; intros attempt log r log'; cbn [Part000.attempts].
  - intros H. injection H as <- _. right. now eexists.
  - destruct (Part000.attemptBody oracle p log) as [[r0|e] l] eqn:B.
    + intros H. injection H as <- _. left. exact (Part000_body_origin _ _ _ _ _ B).
    + destruct (Part000.rateLimited e); [apply IH|].
      intros H. injection H as <- _. right. now eexists.
Qed.

(** X22. What [scoreMarket] returns is either a record extracted from an
    answer that the oracle gave to one of its requests, and then its label
    is not Error and its score is a number, or the sentinel: no answer can
    make a record that is labelled Error. *)
Theorem scoreMarket_result_origin (M : number) (oracle : Oracle) (text : jsstring)
  (r : SentimentRecord) (log : list Event) :
  let p := buildMarketPrompt M text in
  MarketCsv.scoreMarket M oracle text = (Returned r, log)
  \/ Part000.scoreMarket M oracle text = (Returned r, log) ->
  (exists n wf content,
      oracle n wf p = Answer content
      /\ extractSentiment (answerText content) = Some r
      /\ label r <> ErrorLabel
      /\ isNaN (score r) = false)
  \/ (exists d, r = errorRecord d).
Proof.
  intros p [H|H].
  - apply Market_attempts_origin in H as [(n & content & O & E)|H]; [left|now right].
    exists n, false, content. destruct (extract_not_sentinel _ _ E). auto.
  - apply Part000_attempts_origin in H as [(n & wf & content & O & E)|H];
      [left|now right].
    exists n, wf, content. destruct (extract_not_sentinel _ _ E). auto.
Qed.

Lemma scoreMarket_result_origin_witness :
  (exists n wf content,
      scripted [Raise rateLimitError] (Answer bearishAnswer) n wf
        (buildMarketPrompt (ofZ 3000) (lit "Stocks fell."))
      = Answer content
      /\ extractSentiment (answerText content) = Some bearishRecord
      /\ label bearishRecord <> ErrorLabel
      /\ isNaN (score bearishRecord) = false)
  \/ (exists d, bearishRecord = errorRecord d).
Proof.
  refine (scoreMarket_result_origin (ofZ 3000)
            (scripted [Raise rateLimitError] (Answer bearishAnswer))
            (lit "Stocks fell.") bearishRecord
            [Request false (buildMarketPrompt (ofZ 3000) (lit "Stocks fell."));
             Sleep (ofZ 2000);
             Request false (buildMarketPrompt (ofZ 3000) (lit "Stocks fell."))]
            (or_introl _)).
  vm_compute. reflexivity.
Defined.

(** ** The prompt *)

(** X23. With a limit that is a whole number of code units, not negative,
    the prompt is the fixed instruction followed by the trimmed text cut at
    the limit: the text adds at most that many code units. *)
Theorem buildMarketPrompt_budget (M : number) (text : jsstring) (z : Z) :
  ToIntegerOrInfinity M = Int z ->
  0 <= z ->
  buildMarketPrompt M text = promptHead ++ firstn (Z.to_nat z) (trim text)
  /\ (List.length (buildMarketPrompt M text)
      <= List.length promptHead + Z.to_nat z)%nat
  /\ (Z.of_nat (List.length (trim text)) <= z ->
      buildMarketPrompt M text = promptHead ++ trim text).
Proof.
  intros HM Hz. unfold buildMarketPrompt, sliceTo. rewrite HM.
  destruct (Z.ltb_spec z 0) as [?|_]; [lia|].
  set (s := trim text).
  assert (E : firstn (Z.to_nat (Z.min z (Z.of_nat (List.length s)))) s
              = firstn (Z.to_nat z) s).
  { destruct (Z.le_ge_cases z (Z.of_nat (List.length s))) as [L|L].
    - now rewrite Z.min_l.
    - rewrite Z.min_r by exact L. rewrite Nat2Z.id.
      rewrite firstn_all. symmetry. apply firstn_all2. lia. }
  rewrite E. split; [reflexivity|split].
  - rewrite length_app, length_firstn. lia.
  - intros L. f_equal. apply firstn_all2. lia.
Qed.

Lemma buildMarketPrompt_budget_witness :
  buildMarketPrompt (ofZ 5) (lit "  Stocks fell.  ")
  = promptHead ++ firstn 5 (trim (lit "  Stocks fell.  ")).
Proof.
  exact (proj1 (buildMarketPrompt_budget (ofZ 5) (lit "  Stocks fell.  ") 5
                  eq_refl ltac:(lia))).
Defined.

(** ** The labels of the page *)

Lemma lexle_trans (a b c : Z * Z * Z) : lexle a b -> lexle b c -> lexle a c.
Proof.
  destruct a as [[a1 a2] a3], b as [[b1 b2] b3], c as [[c1 c2] c3].
  unfold lexle. lia.
Qed.

Lemma num_ge_mono (t a b : number) :
  isNaN t = false -> isNaN a = false -> isNaN b = false ->
  num_le a b = true -> num_ge a t = true -> num_ge b t = true.
Proof.
  intros Ht Ha Hb Hab Hat. unfold num_ge in *.
  fold (num_le t a) in Hat. fold (num_le t b).
  destruct (num_le_reflect a b Ha Hb) as [L1|]; [|discriminate].
  destruct (num_le_reflect t a Ht Ha) as [L2|]; [|discriminate].
  destruct (num_le_reflect t b Ht Hb) as [|N]; [reflexivity|].
  exfalso. apply N. exact (lexle_trans _ _ _ L2 L1).
Qed.

(** X24. The label that the page shows rises with the score: of two scores
    that are numbers, or are turned into numbers by the comparison, the
    greater one gets a label that is at least as bullish. *)
Theorem getSentimentLabel_monotone (va vb : value) :
  isNaN (ToNumber va) = false -> isNaN (ToNumber vb) = false ->
  num_le (ToNumber va) (ToNumber vb) = true ->
  (labelRank (getSentimentLabel va) <= labelRank (getSentimentLabel vb))%nat.
Proof.
  intros Ha Hb Hab. unfold getSentimentLabel. cbv zeta.
  set (a := ToNumber va) in *. set (b := ToNumber vb) in *.
  pose proof (num_ge_mono (ofZ 80) a b eq_refl Ha Hb Hab) as M80.
  pose proof (num_ge_mono (ofZ 60) a b eq_refl Ha Hb Hab) as M60.
  pose proof (num_ge_mono (ofZ 40) a b eq_refl Ha Hb Hab) as M40.
  pose proof (num_ge_mono (ofZ 20) a b eq_refl Ha Hb Hab) as M20.
  destruct (num_ge a (ofZ 80)); [rewrite M80 by reflexivity; apply le_n|].
  destruct (num_ge a (ofZ 60));
    [rewrite M60 by reflexivity; destruct (num_ge b (ofZ 80)); cbn; lia|].
  destruct (num_ge a (ofZ 40));
    [rewrite M40 by reflexivity;
     destruct (num_ge b (ofZ 80)), (num_ge b (ofZ 60)); cbn; lia|].
  destruct (num_ge a (ofZ 20));
    [rewrite M20 by reflexivity;
     destruct (num_ge b (ofZ 80)), (num_ge b (ofZ 60)), (num_ge b (ofZ 40)); cbn; lia|].
  change (labelRank (lit "Very Bearish")) with 0%nat. lia.
Qed.

Lemma getSentimentLabel_monotone_witness :
  (labelRank (getSentimentLabel (VNum (ofZ 39)))
   <= labelRank (getSentimentLabel (VStr (lit "75"))))%nat.
Proof.
  exact (getSentimentLabel_monotone (VNum (ofZ 39)) (VStr (lit "75"))
           eq_refl eq_refl eq_refl).
Defined.
